(** * NodeModal: path-based editing of a JSON document

    A verification development for [src/features/modals/NodeModal/index.tsx]:
    the flattening of a node's rows ([normalizeNodeData]), the text of a
    path ([jsonPathToString]), the path operations ([getAtPath],
    [setAtPath]) and the handlers of the node modal ([handleEdit],
    [handleCancel], [handleSave], the inputs and the effect that resets the
    editing state).

    The file exists in two variants (one edits a node through one text area,
    the other through one text input per field); both are embedded, in the
    modules [TextModal] and [FieldsModal], and share the path operations and
    the body of the [try] block, which are textually the same in both.

    The program is JavaScript, so the embedding starts with the fragment of
    the language the program runs on: values, property reads and writes,
    [JSON.parse] and [JSON.stringify].  Scope of that fragment:
    - numbers are exact decimals [m * 10^e]: rounding to IEEE doubles,
      overflow to [Infinity] and [NaN] are outside the model;
    - strings are sequences of 8-bit code units (the UTF-8 view of the text);
    - objects and arrays hold own data properties only: the prototype chain
      ([toString], [__proto__], ...) is outside the model;
    - values are trees: the program builds the document from a fresh
      [JSON.parse] and drops it after serialising it, so the sharing that
      in-place updates create is not observable, and an in-place update of a
      nested object is embedded as rebuilding the enclosing object. *)

From Stdlib Require Import String Ascii List ZArith NArith Lia Bool.
Import ListNotations.

Open Scope string_scope.
Open Scope list_scope.

(** ** Text helpers *)

Definition dquote : ascii := "034"%char.
Definition backslash : ascii := "092"%char.
Definition newline : ascii := "010"%char.

(** [jq] writes JSON text with apostrophes in place of double quotes, to
    keep the examples readable: [jq "{'a': 1}"]. *)
Fixpoint jq (s : string) : string :=
  match s with
  | EmptyString => EmptyString
  | String c r => String (if (c =? "'")%char then dquote else c) (jq r)
  end.

Fixpoint zeros (n : nat) : string :=
  match n with
  | O => EmptyString
  | S n' => String "0"%char (zeros n')
  end.

Fixpoint split_at (n : nat) (s : string) : string * string :=
  match n, s with
  | S n', String c r => let '(a, b) := split_at n' r in (String c a, b)
  | _, _ => (EmptyString, s)
  end.

Definition is_digit (c : ascii) : bool :=
  ((48 <=? N_of_ascii c) && (N_of_ascii c <=? 57))%N.

Definition digit_val (c : ascii) : N := (N_of_ascii c - 48)%N.

Definition digit_char (d : N) : ascii := ascii_of_N (48 + d).

Fixpoint all_digits (s : string) : bool :=
  match s with
  | EmptyString => true
  | String c r => is_digit c && all_digits r
  end.

Fixpoint span_digits (s : string) : string * string :=
  match s with
  | String c r =>
      if is_digit c then let '(a, b) := span_digits r in (String c a, b)
      else (EmptyString, s)
  | EmptyString => (EmptyString, EmptyString)
  end.

Fixpoint digits_to_N (s : string) (acc : N) : N :=
  match s with
  | EmptyString => acc
  | String c r => digits_to_N r (10 * acc + digit_val c)%N
  end.

(** Decimal digits of [n], most significant first, pushed in front of
    [acc].  [fuel] bounds the number of digits after the first. *)
Fixpoint N_digits (fuel : nat) (n : N) (acc : string) : string :=
  let acc' := String (digit_char (n mod 10)) acc in
  match fuel with
  | O => acc'
  | S fuel' => if (n / 10 =? 0)%N then acc' else N_digits fuel' (n / 10) acc'
  end.

Definition N_to_string (n : N) : string :=
  N_digits (N.to_nat (N.size n)) n EmptyString.

(** ** Numbers

    A number is the exact decimal [mant * 10 ^ expo]. *)

Record number : Type := Dec { mant : Z; expo : Z }.

Definition num_of_N (n : N) : number := Dec (Z.of_N n) 0.
Definition num_of_nat (n : nat) : number := Dec (Z.of_nat n) 0.

Definition num_is_zero (x : number) : bool := (mant x =? 0)%Z.

(** Removes the trailing zeros of the mantissa. *)
Fixpoint strip_zeros (fuel : nat) (m : N) (e : Z) : N * Z :=
  match fuel with
  | O => (m, e)
  | S fuel' =>
      if ((m mod 10 =? 0) && negb (m =? 0))%N
      then strip_zeros fuel' (m / 10)%N (e + 1)%Z
      else (m, e)
  end.

(** [Number::toString] (radix 10) of ECMAScript, on the digits [ds] of the
    mantissa without trailing zeros ([k] digits) and the position [n] of the
    decimal point. *)
Definition num_body (ds : string) (e : Z) : string :=
  let k := Z.of_nat (String.length ds) in
  let n := (k + e)%Z in
  if ((k <=? n) && (n <=? 21))%Z then ds ++ zeros (Z.to_nat (n - k))
  else if ((0 <? n) && (n <=? 21))%Z then
    let '(a, b) := split_at (Z.to_nat n) ds in a ++ "." ++ b
  else if ((-6 <? n) && (n <=? 0))%Z then "0." ++ zeros (Z.to_nat (- n)) ++ ds
  else
    let ex := (n - 1)%Z in
    let sign := if (ex <? 0)%Z then "-" else "+" in
    match ds with
    | EmptyString => EmptyString
    | String d EmptyString =>
        String d ("e" ++ sign ++ N_to_string (Z.abs_N ex))
    | String d r =>
        String d ("." ++ r ++ "e" ++ sign ++ N_to_string (Z.abs_N ex))
    end.

Definition num_to_string (x : number) : string :=
  if (mant x =? 0)%Z then "0"
  else
    let a := Z.abs_N (mant x) in
    let '(s, e) := strip_zeros (N.to_nat (N.size a)) a (expo x) in
    (if (mant x <? 0)%Z then "-" else "") ++ num_body (N_to_string s) e.

(** The non-negative integer a number denotes, if it denotes one. *)
Definition num_to_N (x : number) : option N :=
  if (mant x <? 0)%Z then None
  else if (0 <=? expo x)%Z then Some (Z.to_N (mant x * 10 ^ expo x))
  else
    let d := (10 ^ (- expo x))%Z in
    if (mant x mod d =? 0)%Z then Some (Z.to_N (mant x / d)) else None.

(** ** Errors

    A computation either returns or throws. *)

Inductive error : Type := TypeError | RangeError | SyntaxError.

Inductive result (A : Type) : Type :=
| Ok (a : A)
| Throw (e : error).

Arguments Ok {A} a.
Arguments Throw {A} e.

Definition bind {A B : Type} (r : result A) (f : A -> result B) : result B :=
  match r with
  | Ok a => f a
  | Throw e => Throw e
  end.

Notation "x <- r ;; k" := (bind r (fun x => k))
  (at level 61, r at next level, right associativity).

(** ** Values

    An array holds its elements (a hole reads as [undefined], and is kept
    as [VUndefined]) and the properties that are neither an index nor
    [length]. *)

#[local] Unset Elimination Schemes.

Inductive value : Type :=
| VUndefined
| VNull
| VBool (b : bool)
| VNum (n : number)
| VStr (s : string)
| VArr (items : list value) (props : list (string * value))
| VObj (fields : list (string * value)).

#[local] Set Elimination Schemes.

(** The induction principle of [value], through the two lists. *)

Section ValueInduction.
Variable P : value -> Prop.
Hypothesis Hundef : P VUndefined.
Hypothesis Hnull : P VNull.
Hypothesis Hbool : forall b, P (VBool b).
Hypothesis Hnum : forall n, P (VNum n).
Hypothesis Hstr : forall s, P (VStr s).
Hypothesis Harr : forall items props,
    Forall P items -> Forall (fun kv => P (snd kv)) props ->
    P (VArr items props).
Hypothesis Hobj : forall fields,
    Forall (fun kv => P (snd kv)) fields -> P (VObj fields).

Fixpoint value_nested_ind (v : value) : P v :=
  let items_ind :=
    fix go (l : list value) : Forall P l :=
      match l with
      | [] => Forall_nil _
      | x :: r => Forall_cons x (value_nested_ind x) (go r)
      end in
  let fields_ind :=
    fix go (l : list (string * value)) : Forall (fun kv => P (snd kv)) l :=
      match l with
      | [] => Forall_nil _
      | kv :: r =>
          @Forall_cons _ (fun kv => P (snd kv)) kv r
            (value_nested_ind (snd kv)) (go r)
      end in
  match v with
  | VUndefined => Hundef
  | VNull => Hnull
  | VBool b => Hbool b
  | VNum n => Hnum n
  | VStr s => Hstr s
  | VArr items props => Harr items props (items_ind items) (fields_ind props)
  | VObj fields => Hobj fields (fields_ind fields)
  end.
End ValueInduction.

Definition is_nullish (v : value) : bool :=
  match v with
  | VUndefined | VNull => true
  | _ => false
  end.

Definition is_undefined (v : value) : bool :=
  match v with
  | VUndefined => true
  | _ => false
  end.

(** [typeof v === "object" && v !== null] *)
Definition is_container (v : value) : bool :=
  match v with
  | VArr _ _ | VObj _ => true
  | _ => false
  end.

(** [Array.isArray] *)
Definition is_array (v : value) : bool :=
  match v with
  | VArr _ _ => true
  | _ => false
  end.

(** [ToBoolean] *)
Definition truthy (v : value) : bool :=
  match v with
  | VUndefined | VNull => false
  | VBool b => b
  | VNum n => negb (num_is_zero n)
  | VStr s => negb (s =? "")%string
  | VArr _ _ | VObj _ => true
  end.

(** [ToString], as a template literal applies it.  An array joins its
    elements with commas, [null] and [undefined] elements as empty text. *)
Fixpoint to_string (v : value) : string :=
  match v with
  | VUndefined => "undefined"
  | VNull => "null"
  | VBool true => "true"
  | VBool false => "false"
  | VNum n => num_to_string n
  | VStr s => s
  | VArr items _ =>
      String.concat ","
        (map (fun x => if is_nullish x then EmptyString else to_string x) items)
  | VObj _ => "[object Object]"
  end.

(** ** Property keys *)

(** The integer a key is the canonical decimal text of. *)
Definition integer_index (k : string) : option N :=
  match k with
  | EmptyString => None
  | _ =>
      if all_digits k then
        let n := digits_to_N k 0 in
        if (N_to_string n =? k)%string then Some n else None
      else None
  end.

(** A key is an array index when that integer is below [2^32 - 1]. *)
Definition array_index (k : string) : option N :=
  match integer_index k with
  | Some n => if (n <? 4294967295)%N then Some n else None
  | None => None
  end.

Fixpoint lookup (k : string) (f : list (string * value)) : option value :=
  match f with
  | [] => None
  | (k', v) :: r => if (k' =? k)%string then Some v else lookup k r
  end.

Definition lookup_or_undefined (k : string) (f : list (string * value)) : value :=
  match lookup k f with
  | Some v => v
  | None => VUndefined
  end.

Fixpoint replace_field (k : string) (v : value) (f : list (string * value))
  : list (string * value) :=
  match f with
  | [] => []
  | (k', v') :: r =>
      if (k' =? k)%string then (k, v) :: r else (k', v') :: replace_field k v r
  end.

(** Own property keys are listed with the array indices first, in
    ascending order, then the other keys in the order of their creation. *)
Fixpoint insert_index (i : N) (k : string) (v : value)
  (f : list (string * value)) : list (string * value) :=
  match f with
  | [] => [(k, v)]
  | (k', v') :: r =>
      match array_index k' with
      | Some j =>
          if (j <? i)%N then (k', v') :: insert_index i k v r
          else (k, v) :: f
      | None => (k, v) :: f
      end
  end.

(** [o[k] = v] on the own properties of an ordinary object. *)
Definition obj_set (k : string) (v : value) (f : list (string * value))
  : list (string * value) :=
  match lookup k f with
  | Some _ => replace_field k v f
  | None =>
      match array_index k with
      | Some i => insert_index i k v f
      | None => f ++ [(k, v)]
      end
  end.

(** [a[i] = v] on the elements of an array: past the end, the array grows
    and the new positions in between are holes. *)
Fixpoint set_index (i : nat) (v : value) (items : list value) : list value :=
  match i, items with
  | O, [] => [v]
  | O, _ :: r => v :: r
  | S i', [] => VUndefined :: set_index i' v []
  | S i', x :: r => x :: set_index i' v r
  end.

(** [a.length = n] truncates or grows with holes. *)
Definition resize (n : nat) (items : list value) : list value :=
  firstn n items ++ repeat VUndefined (n - List.length items).

(** ** [ToNumber], for the value assigned to an array's [length] *)

(** White space of [StringToNumber], in the ASCII range. *)
Definition is_js_space (c : ascii) : bool :=
  let n := N_of_ascii c in
  (((9 <=? n) && (n <=? 13)) || (n =? 32))%N.

Fixpoint skip_js_space (s : string) : string :=
  match s with
  | String c r => if is_js_space c then skip_js_space r else s
  | EmptyString => EmptyString
  end.

(** The value of a digit in radix 2, 8 or 16. *)
Definition radix_digit (radix : N) (c : ascii) : option N :=
  let n := N_of_ascii c in
  let d :=
    if ((48 <=? n) && (n <=? 57))%N then Some (n - 48)%N
    else if ((97 <=? n) && (n <=? 102))%N then Some (n - 87)%N
    else if ((65 <=? n) && (n <=? 70))%N then Some (n - 55)%N
    else None in
  match d with
  | Some x => if (x <? radix)%N then Some x else None
  | None => None
  end.

Fixpoint radix_digits (radix : N) (s : string) (acc : N) : option (N * string) :=
  match s with
  | String c r =>
      match radix_digit radix c with
      | Some d => radix_digits radix r (radix * acc + d)%N
      | None => Some (acc, s)
      end
  | EmptyString => Some (acc, s)
  end.

(** An optional exponent part, [e] or [E], a sign and digits: its value and
    the text after it.  Text that starts no exponent is left in place. *)
Definition lex_exponent (s : string) : Z * string :=
  match s with
  | String c r =>
      if ((c =? "e") || (c =? "E"))%char then
        let '(neg, r1) :=
          match r with
          | String c1 r' =>
              if (c1 =? "-")%char then (true, r')
              else if (c1 =? "+")%char then (false, r')
              else (false, r)
          | EmptyString => (false, r)
          end in
        let '(ds, r2) := span_digits r1 in
        match ds with
        | EmptyString => (0%Z, s)
        | _ =>
            let x := Z.of_N (digits_to_N ds 0) in
            ((if neg then - x else x)%Z, r2)
        end
      else (0%Z, s)
  | EmptyString => (0%Z, s)
  end.

(** [StrUnsignedDecimalLiteral] without [Infinity]: digits, an optional
    fraction and an optional exponent, with a digit on one side of the
    point at least. *)
Definition lex_unsigned_decimal (s : string) : option (number * string) :=
  let '(ip, r1) := span_digits s in
  let '(fp, r2) :=
    match r1 with
    | String c r =>
        if (c =? ".")%char then span_digits r else (EmptyString, r1)
    | EmptyString => (EmptyString, r1)
    end in
  match (ip ++ fp)%string with
  | EmptyString => None
  | ds =>
      let '(ex, r3) := lex_exponent r2 in
      Some (Dec (Z.of_N (digits_to_N ds 0))
              (ex - Z.of_nat (String.length fp)), r3)
  end.

Definition starts_with (p s : string) : bool := String.prefix p s.

Definition drop (n : nat) (s : string) : string := snd (split_at n s).

(** [StringToNumber]: [None] stands for [NaN] and the infinities. *)
Definition string_to_number (s : string) : option number :=
  let t := skip_js_space s in
  let finish (r : option (number * string)) : option number :=
    match r with
    | Some (x, rest) =>
        match skip_js_space rest with
        | EmptyString => Some x
        | _ => None
        end
    | None => None
    end in
  let radix_literal (radix : N) : option number :=
    match radix_digits radix (drop 2 t) 0 with
    | Some (n, rest) =>
        if (String.length rest <? String.length (drop 2 t))%nat
        then finish (Some (num_of_N n, rest)) else None
    | None => None
    end in
  match t with
  | EmptyString => Some (Dec 0 0)
  | String c r =>
      if starts_with "0x" t || starts_with "0X" t then radix_literal 16%N
      else if starts_with "0o" t || starts_with "0O" t then radix_literal 8%N
      else if starts_with "0b" t || starts_with "0B" t then radix_literal 2%N
      else
        let '(neg, u) :=
          if (c =? "-")%char then (true, r)
          else if (c =? "+")%char then (false, r)
          else (false, t) in
        if starts_with "Infinity" u then None
        else
          finish
            (match lex_unsigned_decimal u with
             | Some (x, rest) =>
                 Some (Dec (if neg then - mant x else mant x)%Z (expo x), rest)
             | None => None
             end)
  end.

(** [ToNumber] on the values of the model; an array or an object goes
    through its text. *)
Definition to_number (v : value) : option number :=
  match v with
  | VUndefined => None
  | VNull => Some (Dec 0 0)
  | VBool b => Some (Dec (if b then 1 else 0) 0)
  | VNum n => Some n
  | VStr s => string_to_number s
  | VArr _ _ | VObj _ => string_to_number (to_string v)
  end.

(** The new length an assignment to [length] asks for: the number must be
    an integer below [2^32], or the assignment throws a [RangeError]. *)
Definition to_length (v : value) : option N :=
  match to_number v with
  | Some x =>
      match num_to_N x with
      | Some n => if (n <? 4294967296)%N then Some n else None
      | None => None
      end
  | None => None
  end.

(** ** Property reads and writes *)

(** [base[k]] *)
Definition get_prop (base : value) (k : string) : result value :=
  match base with
  | VUndefined | VNull => Throw TypeError
  | VBool _ | VNum _ => Ok VUndefined
  | VStr s =>
      match integer_index k with
      | Some i =>
          match String.get (N.to_nat i) s with
          | Some c => Ok (VStr (String c EmptyString))
          | None => Ok VUndefined
          end
      | None =>
          if (k =? "length")%string
          then Ok (VNum (num_of_nat (String.length s)))
          else Ok VUndefined
      end
  | VArr items props =>
      match array_index k with
      | Some i => Ok (nth (N.to_nat i) items VUndefined)
      | None =>
          if (k =? "length")%string
          then Ok (VNum (num_of_nat (List.length items)))
          else Ok (lookup_or_undefined k props)
      end
  | VObj fields => Ok (lookup_or_undefined k fields)
  end.

(** [base[k] = v], in strict mode (the file is a module): the updated
    [base], or the exception.  A write on a primitive throws. *)
Definition set_prop (base : value) (k : string) (v : value) : result value :=
  match base with
  | VUndefined | VNull | VBool _ | VNum _ | VStr _ => Throw TypeError
  | VArr items props =>
      match array_index k with
      | Some i => Ok (VArr (set_index (N.to_nat i) v items) props)
      | None =>
          if (k =? "length")%string then
            match to_length v with
            | Some n => Ok (VArr (resize (N.to_nat n) items) props)
            | None => Throw RangeError
            end
          else Ok (VArr items (obj_set k v props))
      end
  | VObj fields => Ok (VObj (obj_set k v fields))
  end.

(** ** [JSON.stringify] *)

Definition hex_char (d : N) : ascii :=
  if (d <? 10)%N then ascii_of_N (48 + d) else ascii_of_N (87 + d).

(** The text of one character inside a JSON string ([QuoteJSONString]). *)
Definition quote_char (c : ascii) : string :=
  let n := N_of_ascii c in
  if (c =? dquote)%char then String backslash (String dquote EmptyString)
  else if (c =? backslash)%char then String backslash (String backslash EmptyString)
  else if (n =? 8)%N then String backslash "b"
  else if (n =? 9)%N then String backslash "t"
  else if (n =? 10)%N then String backslash "n"
  else if (n =? 12)%N then String backslash "f"
  else if (n =? 13)%N then String backslash "r"
  else if (n <? 32)%N then
    String backslash
      (String "u" (String "0" (String "0"
         (String (hex_char (n / 16)) (String (hex_char (n mod 16)) EmptyString)))))
  else String c EmptyString.

Fixpoint quote_chars (s : string) : string :=
  match s with
  | EmptyString => EmptyString
  | String c r => (quote_char c ++ quote_chars r)%string
  end.

Definition quote (s : string) : string :=
  String dquote (quote_chars s ++ String dquote EmptyString).

(** The text of an array or an object from the texts of its parts: on one
    line when [gap] is empty, else one part per line, indented. *)
Definition ser_block (gap ind opn cls : string) (parts : list string) : string :=
  match parts with
  | [] => (opn ++ cls)%string
  | _ =>
      if (gap =? "")%string then (opn ++ String.concat "," parts ++ cls)%string
      else
        let ind' := (ind ++ gap)%string in
        let sep := String "," (String newline ind') in
        (opn ++ String newline ind' ++ String.concat sep parts
             ++ String newline ind ++ cls)%string
  end.

(** [SerializeJSONProperty] on a value that is not [undefined]: inside an
    array [undefined] (a hole too) is written [null], inside an object a
    property whose value is [undefined] is left out; the properties of an
    array other than its elements are not written. *)
Fixpoint ser (gap ind : string) (v : value) {struct v} : string :=
  let ind' := (ind ++ gap)%string in
  match v with
  | VUndefined | VNull => "null"
  | VBool true => "true"
  | VBool false => "false"
  | VNum n => num_to_string n
  | VStr s => quote s
  | VArr items _ => ser_block gap ind "[" "]" (map (ser gap ind') items)
  | VObj fields =>
      ser_block gap ind "{" "}"
        ((fix members (fs : list (string * value)) : list string :=
            match fs with
            | [] => []
            | (k, x) :: r =>
                if is_undefined x then members r
                else (quote k ++ (if (gap =? "")%string then ":" else ": ")
                        ++ ser gap ind' x)%string :: members r
            end) fields)
  end.

(** [JSON.stringify(v, null, gap)]: [None] is the result [undefined]. *)
Definition JSON_stringify (gap : string) (v : value) : option string :=
  if is_undefined v then None else Some (ser gap EmptyString v).

(** The gap of [JSON.stringify(v, null, 2)]. *)
Definition gap2 : string := "  ".

(** ** [JSON.parse] *)

Definition is_json_ws (c : ascii) : bool :=
  let n := N_of_ascii c in
  ((n =? 32) || (n =? 9) || (n =? 10) || (n =? 13))%N.

Fixpoint skip_ws (s : string) : string :=
  match s with
  | String c r => if is_json_ws c then skip_ws r else s
  | EmptyString => EmptyString
  end.

(** A code point below [2^16] as UTF-8. *)
Definition utf8_encode (cp : N) : string :=
  if (cp <? 128)%N then String (ascii_of_N cp) EmptyString
  else if (cp <? 2048)%N then
    String (ascii_of_N (192 + cp / 64))
      (String (ascii_of_N (128 + cp mod 64)) EmptyString)
  else
    String (ascii_of_N (224 + cp / 4096))
      (String (ascii_of_N (128 + (cp / 64) mod 64))
         (String (ascii_of_N (128 + cp mod 64)) EmptyString)).

(** The character a one-letter escape stands for. *)
Definition unescape (e : ascii) : option ascii :=
  if (e =? dquote)%char then Some dquote
  else if (e =? backslash)%char then Some backslash
  else if (e =? "/")%char then Some "/"%char
  else if (e =? "b")%char then Some "008"%char
  else if (e =? "f")%char then Some "012"%char
  else if (e =? "n")%char then Some "010"%char
  else if (e =? "r")%char then Some "013"%char
  else if (e =? "t")%char then Some "009"%char
  else None.

(** The characters of a JSON string, after its opening quote, up to and
    with its closing quote: the string and the text after it. *)
Fixpoint parse_chars (s : string) : option (string * string) :=
  match s with
  | EmptyString => None
  | String c r =>
      if (c =? dquote)%char then Some (EmptyString, r)
      else if (c =? backslash)%char then
        match r with
        | EmptyString => None
        | String e r1 =>
            if (e =? "u")%char then
              match r1 with
              | String h1 (String h2 (String h3 (String h4 r2))) =>
                  match radix_digit 16 h1, radix_digit 16 h2,
                        radix_digit 16 h3, radix_digit 16 h4 with
                  | Some a, Some b, Some c', Some d =>
                      match parse_chars r2 with
                      | Some (t, rest) =>
                          Some ((utf8_encode (4096 * a + 256 * b + 16 * c' + d)
                                   ++ t)%string, rest)
                      | None => None
                      end
                  | _, _, _, _ => None
                  end
              | _ => None
              end
            else
              match unescape e with
              | Some c' =>
                  match parse_chars r1 with
                  | Some (t, rest) => Some (String c' t, rest)
                  | None => None
                  end
              | None => None
              end
        end
      else if (N_of_ascii c <? 32)%N then None
      else
        match parse_chars r with
        | Some (t, rest) => Some (String c t, rest)
        | None => None
        end
  end.

(** The exponent part of a JSON number: when [e] or [E] is there, digits
    must follow. *)
Definition lex_json_exponent (s : string) : option (Z * string) :=
  match s with
  | String c r =>
      if ((c =? "e") || (c =? "E"))%char then
        let '(neg, r1) :=
          match r with
          | String c1 r' =>
              if (c1 =? "-")%char then (true, r')
              else if (c1 =? "+")%char then (false, r')
              else (false, r)
          | EmptyString => (false, r)
          end in
        let '(ds, r2) := span_digits r1 in
        match ds with
        | EmptyString => None
        | _ =>
            let x := Z.of_N (digits_to_N ds 0) in
            Some ((if neg then - x else x)%Z, r2)
        end
      else Some (0%Z, s)
  | EmptyString => Some (0%Z, s)
  end.

(** The fraction part of a JSON number: when the point is there, digits
    must follow. *)
Definition lex_json_fraction (s : string) : option (string * string) :=
  match s with
  | String c r =>
      if (c =? ".")%char then
        let '(fp, r') := span_digits r in
        match fp with
        | EmptyString => None
        | _ => Some (fp, r')
        end
      else Some (EmptyString, s)
  | EmptyString => Some (EmptyString, s)
  end.

(** A JSON number after its sign: [0] or digits that do not start with
    [0], an optional fraction, an optional exponent. *)
Definition lex_json_unsigned (neg : bool) (s : string) : option (number * string) :=
  match s with
  | String c r =>
      if is_digit c then
        let '(ip, s2) :=
          if (c =? "0")%char then ("0", r) else span_digits s in
        match lex_json_fraction s2 with
        | Some (fp, s3) =>
            match lex_json_exponent s3 with
            | Some (ex, s4) =>
                let m := Z.of_N (digits_to_N (ip ++ fp) 0) in
                Some (Dec (if neg then - m else m)%Z
                        (ex - Z.of_nat (String.length fp)), s4)
            | None => None
            end
        | None => None
        end
      else None
  | EmptyString => None
  end.

(** A JSON number: an optional minus and the rest. *)
Definition lex_json_number (s : string) : option (number * string) :=
  match s with
  | String c r =>
      if (c =? "-")%char then lex_json_unsigned true r
      else lex_json_unsigned false s
  | EmptyString => None
  end.

(** The elements of an array after the first bracket, up to and with the
    closing one.  [pv] parses one value; [n] bounds the number of
    elements (each takes a character at least, so the length of the text
    is enough). *)
Fixpoint parse_elements (pv : string -> option (value * string)) (n : nat)
  (s : string) : option (list value * string) :=
  match n with
  | O => None
  | S n' =>
      match pv s with
      | Some (v, r) =>
          match skip_ws r with
          | String c r' =>
              if (c =? ",")%char then
                match parse_elements pv n' r' with
                | Some (vs, r'') => Some (v :: vs, r'')
                | None => None
                end
              else if (c =? "]")%char then Some ([v], r')
              else None
          | EmptyString => None
          end
      | None => None
      end
  end.

(** The members of an object after the brace, up to and with the closing
    one; a key that comes twice keeps its place and takes the later
    value. *)
Fixpoint parse_members (pv : string -> option (value * string)) (n : nat)
  (s : string) (acc : list (string * value))
  : option (list (string * value) * string) :=
  match n with
  | O => None
  | S n' =>
      match skip_ws s with
      | String c r =>
          if (c =? dquote)%char then
            match parse_chars r with
            | Some (k, r1) =>
                match skip_ws r1 with
                | String c1 r2 =>
                    if (c1 =? ":")%char then
                      match pv r2 with
                      | Some (v, r3) =>
                          match skip_ws r3 with
                          | String c3 r4 =>
                              if (c3 =? ",")%char
                              then parse_members pv n' r4 (obj_set k v acc)
                              else if (c3 =? "}")%char
                              then Some (obj_set k v acc, r4)
                              else None
                          | EmptyString => None
                          end
                      | None => None
                      end
                    else None
                | EmptyString => None
                end
            | None => None
            end
          else None
      | EmptyString => None
      end
  end.

(** One JSON value, after optional white space.  [fuel] bounds the depth
    of nesting (each level takes a character at least). *)
Fixpoint parse_value (fuel : nat) (s : string) : option (value * string) :=
  match fuel with
  | O => None
  | S fuel' =>
      match skip_ws s with
      | EmptyString => None
      | String c r =>
          if (c =? "{")%char then
            match skip_ws r with
            | String c' r' =>
                if (c' =? "}")%char then Some (VObj [], r')
                else
                  match parse_members (parse_value fuel') (String.length r) r [] with
                  | Some (fs, rest) => Some (VObj fs, rest)
                  | None => None
                  end
            | EmptyString => None
            end
          else if (c =? "[")%char then
            match skip_ws r with
            | String c' r' =>
                if (c' =? "]")%char then Some (VArr [] [], r')
                else
                  match parse_elements (parse_value fuel') (String.length r) r with
                  | Some (vs, rest) => Some (VArr vs [], rest)
                  | None => None
                  end
            | EmptyString => None
            end
          else if (c =? dquote)%char then
            match parse_chars r with
            | Some (t, rest) => Some (VStr t, rest)
            | None => None
            end
          else if starts_with "true" (String c r) then Some (VBool true, drop 4 (String c r))
          else if starts_with "false" (String c r) then Some (VBool false, drop 5 (String c r))
          else if starts_with "null" (String c r) then Some (VNull, drop 4 (String c r))
          else
            match lex_json_number (String c r) with
            | Some (x, rest) => Some (VNum x, rest)
            | None => None
            end
      end
  end.

(** [JSON.parse(text)]: one value, white space around it and nothing else,
    or a [SyntaxError].  The depth of nesting is below the length of the
    text. *)
Definition JSON_parse (text : string) : result value :=
  match parse_value (S (String.length text)) text with
  | Some (v, rest) =>
      match skip_ws rest with
      | EmptyString => Ok v
      | _ => Throw SyntaxError
      end
  | None => Throw SyntaxError
  end.

(** * The program *)

(** ** Rows, paths and nodes *)

(** A path segment is a string or a number ([JSONPath] of the JSON parser
    the graph is built with). *)
Inductive segment : Type :=
| SNum (n : number)
| SStr (s : string).

(** [typeof seg === "number"] *)
Definition is_number_segment (seg : segment) : bool :=
  match seg with
  | SNum _ => true
  | SStr _ => false
  end.

(** The property key a segment is used as: a number through [ToString]. *)
Definition key_of (seg : segment) : string :=
  match seg with
  | SNum n => num_to_string n
  | SStr s => s
  end.

(** Modelled from the spec: the row type of [types/graph], which is not
    part of the sources: "Node row: { key?: string, value: any, type:
    array | object | other }".  A missing key is [None]. *)
Record NodeRow : Type := {
  row_key : option string;
  row_value : value;
  row_type : string
}.

(** Modelled from the spec: the node type of [types/graph]; the fields the
    modal reads are the rows ([text]) and the optional [path]. *)
Record NodeData : Type := {
  node_id : string;
  node_text : list NodeRow;
  node_path : option (list segment)
}.

(** ** [normalizeNodeData] *)

(** [row.key] when it is truthy: a missing key and the empty key are not. *)
Definition truthy_key (row : NodeRow) : option string :=
  match row_key row with
  | Some k => if (k =? "")%string then None else Some k
  | None => None
  end.

(** [row.type !== "array" && row.type !== "object"] *)
Definition is_scalar_row (row : NodeRow) : bool :=
  negb (row_type row =? "array")%string && negb (row_type row =? "object")%string.

(** The body of the [forEach]: one row, on the object built so far. *)
Definition add_row (obj : list (string * value)) (row : NodeRow)
  : list (string * value) :=
  if is_scalar_row row then
    match truthy_key row with
    | Some k => obj_set k (row_value row) obj
    | None => obj
    end
  else obj.

(** The object [obj] after the [forEach]. *)
Definition flatten_rows (nodeRows : list NodeRow) : list (string * value) :=
  fold_left add_row nodeRows [].

(** [normalizeNodeData]; [None] would be the result [undefined] of
    [JSON.stringify], which an object never gives. *)
Definition normalizeNodeData (nodeRows : list NodeRow) : option string :=
  match nodeRows with
  | [] => Some "{}"
  | row :: others =>
      match others, truthy_key row with
      | [], None => Some (to_string (row_value row))
      | _, _ => JSON_stringify gap2 (VObj (flatten_rows nodeRows))
      end
  end.

(** ** [jsonPathToString] *)

Definition jsonPathToString (path : option (list segment)) : string :=
  match path with
  | None | Some [] => "$"
  | Some p =>
      let segments :=
        map (fun seg =>
               match seg with
               | SNum n => num_to_string n
               | SStr s => String dquote (s ++ String dquote EmptyString)
               end) p in
      ("$[" ++ String.concat "][" segments ++ "]")%string
  end.

(** ** [setAtPath] and [getAtPath] *)

(** The characters of a string under their indices: the own enumerable
    properties a spread copies from a string. *)
Fixpoint string_entries (i : N) (s : string) : list (string * value) :=
  match s with
  | EmptyString => []
  | String c r =>
      (N_to_string i, VStr (String c EmptyString)) :: string_entries (i + 1) r
  end.

(** [Array.isArray(obj) ? obj.slice() : { ...obj }]: [slice] copies the
    elements only; a spread of a primitive has no property, but for the
    characters of a string. *)
Definition shallow_copy (obj : value) : value :=
  match obj with
  | VArr items _ => VArr items []
  | VObj fields => VObj fields
  | VStr s => VObj (string_entries 0 s)
  | VUndefined | VNull | VBool _ | VNum _ => VObj []
  end.

(** [typeof nextSeg === "number" ? [] : {}] *)
Definition fresh_container (nextSeg : segment) : value :=
  if is_number_segment nextSeg then VArr [] [] else VObj [].

(** The loop of [setAtPath] from the segment [seg] on, and the last
    assignment: [cur] after the update.  The loop steps into [cur[seg]] and
    updates it in place; here the updated child is put back under its key
    (the child is then an object or an array that [cur] holds under that
    key: a write on anything else has thrown). *)
Fixpoint set_along (cur : value) (seg : segment) (rest : list segment)
  (v : value) {struct rest} : result value :=
  match rest with
  | [] => set_prop cur (key_of seg) v
  | nextSeg :: rest' =>
      old <- get_prop cur (key_of seg) ;;
      cur1 <- set_prop cur (key_of seg)
                (if is_nullish old then fresh_container nextSeg else old) ;;
      child <- get_prop cur1 (key_of seg) ;;
      child' <- set_along child nextSeg rest' v ;;
      set_prop cur1 (key_of seg) child'
  end.

Definition setAtPath (obj : value) (path : option (list segment)) (v : value)
  : result value :=
  match path with
  | None | Some [] => Ok v
  | Some (seg :: rest) => set_along (shallow_copy obj) seg rest v
  end.

(** The loop of [getAtPath]. *)
Fixpoint get_along (cur : value) (p : list segment) : result value :=
  match p with
  | [] => Ok cur
  | seg :: rest =>
      if is_nullish cur then Ok VUndefined
      else next <- get_prop cur (key_of seg) ;; get_along next rest
  end.

Definition getAtPath (obj : value) (path : option (list segment))
  : result value :=
  match path with
  | None | Some [] => Ok obj
  | Some p => get_along obj p
  end.

(** ** The stores and the save handler *)

(** Modelled from the spec: the stores [useFile], [useJson] and
    [useGraph], which are not part of the sources: the file store "owns
    the authoritative text buffer and exposes getContents/setContents", the
    JSON store "exposes setJson", the graph store "exposes
    selectedNode/setSelectedNode/nodes".  Each is a cell that holds what it
    was given ([None] is [undefined]); writing to them does not throw.  The
    console is kept with them. *)
Record stores : Type := {
  file_contents : option string;
  file_hasChanges : bool;
  json : option string;
  nodes : list NodeData;
  selectedNode : option NodeData;
  console : list (string * error)
}.

(** Modelled from the spec: [getContents] of the file store. *)
Definition getContents (st : stores) : option string := file_contents st.

(** Modelled from the spec: [setContents({ contents, hasChanges })] of the
    file store. *)
Definition setContents (contents : option string) (hasChanges : bool)
  (st : stores) : stores :=
  {| file_contents := contents; file_hasChanges := hasChanges;
     json := json st; nodes := nodes st; selectedNode := selectedNode st;
     console := console st |}.

(** Modelled from the spec: [setJson] of the JSON store, and the
    graph-construction store that "turns parsed JSON into node/edge
    lists": [build_nodes] is the list of nodes it builds from a text, and
    [setJson] hands the text to it. *)
Definition setJson (build_nodes : option string -> list NodeData)
  (text : option string) (st : stores) : stores :=
  {| file_contents := file_contents st; file_hasChanges := file_hasChanges st;
     json := text; nodes := build_nodes text; selectedNode := selectedNode st;
     console := console st |}.

(** Modelled from the spec: [setSelectedNode] of the graph store. *)
Definition setSelectedNode (n : NodeData) (st : stores) : stores :=
  {| file_contents := file_contents st; file_hasChanges := file_hasChanges st;
     json := json st; nodes := nodes st; selectedNode := Some n;
     console := console st |}.

(** [console.error(msg, error)] *)
Definition console_error (msg : string) (e : error) (st : stores) : stores :=
  {| file_contents := file_contents st; file_hasChanges := file_hasChanges st;
     json := json st; nodes := nodes st; selectedNode := selectedNode st;
     console := console st ++ [(msg, e)] |}.

(** The argument of [JSON.parse] as text. *)
Definition text_of (t : option string) : string :=
  match t with
  | Some s => s
  | None => "undefined"
  end.

(** [JSON.parse(text)], and the text itself when that throws. *)
Definition parse_or_string (text : string) : value :=
  match JSON_parse text with
  | Ok v => v
  | Throw _ => VStr text
  end.

(** [typeof v === "object"] *)
Definition typeof_object (v : value) : bool :=
  match v with
  | VNull | VArr _ _ | VObj _ => true
  | _ => false
  end.

Definition is_null (v : value) : bool :=
  match v with
  | VNull => true
  | _ => false
  end.

(** [if (existingValue.k && newValue.k === undefined) newValue.k =
    existingValue.k]: [newValue] after the statement. *)
Definition carry_over (k : string) (existingValue newValue : value)
  : result value :=
  d <- get_prop existingValue k ;;
  if truthy d then
    n <- get_prop newValue k ;;
    if is_undefined n then set_prop newValue k d else Ok newValue
  else Ok newValue.

(** The statement that preserves [details] and [nutrients]. *)
Definition preserve (existingValue newValue : value) : result value :=
  if truthy existingValue && typeof_object existingValue
     && negb (is_null existingValue)
     && typeof_object newValue && negb (is_null newValue)
  then
    nv <- carry_over "details" existingValue newValue ;;
    carry_over "nutrients" existingValue nv
  else Ok newValue.

(** The [try] block up to [JSON.stringify]: the document patched at the
    path, and its text. *)
Definition patched_document (current : option string)
  (path : option (list segment)) (newValue : value) : result value :=
  parsed <- JSON_parse (text_of current) ;;
  existingValue <- getAtPath parsed path ;;
  merged <- preserve existingValue newValue ;;
  setAtPath parsed path merged.

(** [p ? JSON.stringify(p) : ""] *)
Definition path_value (p : list segment) : value :=
  VArr (map (fun seg => match seg with SNum n => VNum n | SStr s => VStr s end) p) [].

Definition findPath (p : option (list segment)) : option string :=
  match p with
  | Some p => JSON_stringify EmptyString (path_value p)
  | None => Some EmptyString
  end.

Definition same_text (a b : option string) : bool :=
  match a, b with
  | Some x, Some y => (x =? y)%string
  | None, None => true
  | _, _ => false
  end.

(** The rest of the [try] block, from [JSON.stringify] to the selection of
    the node of the same path. *)
Definition publish (build_nodes : option string -> list NodeData)
  (nodeData : NodeData) (updated : value) (st : stores) : stores :=
  let newStr := JSON_stringify gap2 updated in
  let st1 := setContents newStr true st in
  let st2 := setJson build_nodes newStr st1 in
  let target :=
    find (fun n => same_text (findPath (node_path n))
                     (findPath (node_path nodeData))) (nodes st2) in
  match target with
  | Some t => setSelectedNode t st2
  | None => st2
  end.

Definition save_failed : string := "Failed to save node edit".

(** ** Entering edit mode *)

(** [nodeData?.text ?? []] *)
Definition selected_rows (st : stores) : list NodeRow :=
  match selectedNode st with
  | Some nodeData => node_text nodeData
  | None => []
  end.

(** [String(v ?? "")]: the text an input starts with. *)
Definition edit_text (v : value) : string :=
  to_string (if is_nullish v then VStr EmptyString else v).

(** The variant with one text area. *)
Module TextModal.

Record modal : Type := {
  editing : bool;
  editedText : string
}.

Definition handleCancel (m : modal) : modal :=
  {| editing := false; editedText := EmptyString |}.

(** The effect that runs when the modal opens or closes or another node
    is selected. *)
Definition reset (m : modal) : modal :=
  {| editing := false; editedText := EmptyString |}.

(** [handleEdit].  [normalizeNodeData] returns a text on every list of
    rows, so the text of [undefined] is never the one kept. *)
Definition handleEdit (st : stores) (m : modal) : modal :=
  {| editing := true;
     editedText := text_of (normalizeNodeData (selected_rows st)) |}.

(** [onChange] of the text area. *)
Definition change_text (text : string) (m : modal) : modal :=
  {| editing := editing m; editedText := text |}.

Definition handleSave (build_nodes : option string -> list NodeData)
  (st : stores) (m : modal) : stores * modal :=
  match selectedNode st with
  | None => (st, m)
  | Some nodeData =>
      let newValue := parse_or_string (editedText m) in
      match patched_document (getContents st) (node_path nodeData) newValue with
      | Ok updated =>
          (publish build_nodes nodeData updated st,
           {| editing := false; editedText := EmptyString |})
      | Throw e => (console_error save_failed e st, m)
      end
  end.

(** What the user does, and the effect. *)
Inductive event : Type :=
| Edit
| Cancel
| Save
| Type_text (text : string)
| Reset.

(** The component renders the [Edit] button when [editing] is false, and
    the [Cancel] and [Save] buttons and the text area when it is true. *)
Definition enabled (m : modal) (ev : event) : bool :=
  match ev with
  | Edit => negb (editing m)
  | Cancel | Save | Type_text _ => editing m
  | Reset => true
  end.

Definition run (build_nodes : option string -> list NodeData) (ev : event)
  (s : stores * modal) : stores * modal :=
  match ev with
  | Edit => (fst s, handleEdit (fst s) (snd s))
  | Cancel => (fst s, handleCancel (snd s))
  | Save => handleSave build_nodes (fst s) (snd s)
  | Type_text text => (fst s, change_text text (snd s))
  | Reset => (fst s, reset (snd s))
  end.

(** The states of the stores and the modal from the mounting of the
    component on: the handlers run when what is rendered allows it; the
    stores change under the modal as long as the selected node stays, and
    the effect runs when it does not. *)
Inductive reachable (build_nodes : option string -> list NodeData)
  : stores * modal -> Prop :=
| reach_mount st :
    reachable build_nodes (st, {| editing := false; editedText := EmptyString |})
| reach_run s ev :
    reachable build_nodes s -> enabled (snd s) ev = true ->
    reachable build_nodes (run build_nodes ev s)
| reach_stores s st' :
    reachable build_nodes s -> selectedNode st' = selectedNode (fst s) ->
    reachable build_nodes (st', snd s)
| reach_select s st' :
    reachable build_nodes s -> reachable build_nodes (st', reset (snd s)).

End TextModal.

(** The variant with one input per field. *)
Module FieldsModal.

Record modal : Type := {
  editing : bool;
  editedText : string;
  editedFields : list (string * string);
  editedSingleValue : option string
}.

Definition handleCancel (m : modal) : modal :=
  {| editing := false; editedText := EmptyString; editedFields := [];
     editedSingleValue := None |}.

(** The effect that runs when the modal opens or closes or another node
    is selected. *)
Definition reset (m : modal) : modal :=
  {| editing := false; editedText := EmptyString; editedFields := [];
     editedSingleValue := None |}.

(** The body of the [forEach] of [handleEdit]: one row, on the object
    [fields] built so far. *)
Definition add_field (fields : list (string * value)) (r : NodeRow)
  : list (string * value) :=
  if is_scalar_row r then
    match truthy_key r with
    | Some k => obj_set k (VStr (edit_text (row_value r))) fields
    | None => fields
    end
  else fields.

(** An object of strings as the state keeps it, and back. *)
Definition entries_text (fields : list (string * value)) : list (string * string) :=
  map (fun kv => (fst kv, to_string (snd kv))) fields.

Definition entries_value (fields : list (string * string)) : list (string * value) :=
  map (fun kv => (fst kv, VStr (snd kv))) fields.

(** [handleEdit]: the lone row without a key gives the single value, any
    other list of rows the fields. *)
Definition handleEdit (st : stores) (m : modal) : modal :=
  let rows := selected_rows st in
  let with_fields :=
    {| editing := true; editedText := editedText m;
       editedFields := entries_text (fold_left add_field rows []);
       editedSingleValue := editedSingleValue m |} in
  match rows with
  | [row] =>
      match truthy_key row with
      | None =>
          {| editing := true; editedText := editedText m;
             editedFields := editedFields m;
             editedSingleValue := Some (edit_text (row_value row)) |}
      | Some _ => with_fields
      end
  | _ => with_fields
  end.

(** [onChange] of the single input. *)
Definition change_single (text : string) (m : modal) : modal :=
  {| editing := editing m; editedText := editedText m;
     editedFields := editedFields m; editedSingleValue := Some text |}.

(** [onChange] of the input of the field [k]: [{ ...prev, [k]: text }]. *)
Definition change_field (k text : string) (m : modal) : modal :=
  {| editing := editing m; editedText := editedText m;
     editedFields :=
       entries_text (obj_set k (VStr text) (entries_value (editedFields m)));
     editedSingleValue := editedSingleValue m |}.

(** The object built from the entries of [editedFields]. *)
Definition fields_object (editedFields : list (string * string)) : value :=
  VObj (fold_left (fun obj kv => obj_set (fst kv) (parse_or_string (snd kv)) obj)
          editedFields []).

Definition new_value (m : modal) : value :=
  match editedSingleValue m with
  | Some text => parse_or_string text
  | None => fields_object (editedFields m)
  end.

Definition handleSave (build_nodes : option string -> list NodeData)
  (st : stores) (m : modal) : stores * modal :=
  match selectedNode st with
  | None => (st, m)
  | Some nodeData =>
      match patched_document (getContents st) (node_path nodeData) (new_value m) with
      | Ok updated =>
          (publish build_nodes nodeData updated st,
           {| editing := false; editedText := EmptyString; editedFields := [];
              editedSingleValue := None |})
      | Throw e => (console_error save_failed e st, m)
      end
  end.

(** What the user does, and the effect. *)
Inductive event : Type :=
| Edit
| Cancel
| Save
| Type_single (text : string)
| Type_field (k text : string)
| Reset.

(** The component renders the [Edit] button when [editing] is false, and
    the [Cancel] and [Save] buttons when it is true, with the single input
    when [editedSingleValue] is not [null] and one input per entry of
    [editedFields] when it is. *)
Definition enabled (m : modal) (ev : event) : bool :=
  match ev with
  | Edit => negb (editing m)
  | Cancel | Save => editing m
  | Type_single _ =>
      editing m && match editedSingleValue m with Some _ => true | None => false end
  | Type_field k _ =>
      editing m && match editedSingleValue m with Some _ => false | None => true end
      && existsb (fun kv => (fst kv =? k)%string) (editedFields m)
  | Reset => true
  end.

Definition run (build_nodes : option string -> list NodeData) (ev : event)
  (s : stores * modal) : stores * modal :=
  match ev with
  | Edit => (fst s, handleEdit (fst s) (snd s))
  | Cancel => (fst s, handleCancel (snd s))
  | Save => handleSave build_nodes (fst s) (snd s)
  | Type_single text => (fst s, change_single text (snd s))
  | Type_field k text => (fst s, change_field k text (snd s))
  | Reset => (fst s, reset (snd s))
  end.

(** The states of the stores and the modal from the mounting of the
    component on: the handlers run when what is rendered allows it; the
    stores change under the modal as long as the selected node stays, and
    the effect runs when it does not. *)
Inductive reachable (build_nodes : option string -> list NodeData)
  : stores * modal -> Prop :=
| reach_mount st :
    reachable build_nodes
      (st, {| editing := false; editedText := EmptyString; editedFields := [];
              editedSingleValue := None |})
| reach_run s ev :
    reachable build_nodes s -> enabled (snd s) ev = true ->
    reachable build_nodes (run build_nodes ev s)
| reach_stores s st' :
    reachable build_nodes s -> selectedNode st' = selectedNode (fst s) ->
    reachable build_nodes (st', snd s)
| reach_select s st' :
    reachable build_nodes s -> reachable build_nodes (st', reset (snd s)).

End FieldsModal.

(** * Specification vocabulary *)

(** What a position a path goes through may hold for the write to go on:
    nothing, or an object or an array. *)
Definition absent_or_container (x : result value) : bool :=
  match x with
  | Ok VUndefined => true
  | Ok v => is_container v
  | Throw _ => false
  end.

(** The positions a path goes through before its last segment (the values
    at its proper, non-empty prefixes) are each absent or a container. *)
Definition intermediates_ok (doc : value) (p : list segment) : bool :=
  forallb (fun i => absent_or_container (getAtPath doc (Some (firstn i p))))
    (seq 1 (List.length p - 1)).

(** The last segment of the path addresses the [length] of an array of the
    document. *)
Definition writes_array_length (doc : value) (p : list segment) : bool :=
  match getAtPath doc (Some (removelast p)) with
  | Ok (VArr _ _) => (key_of (last p (SStr EmptyString)) =? "length")%string
  | _ => false
  end.

(** The stores hold the same texts, nodes and selection. *)
Definition same_documents (a b : stores) : Prop :=
  file_contents a = file_contents b /\ file_hasChanges a = file_hasChanges b
  /\ json a = json b /\ nodes a = nodes b /\ selectedNode a = selectedNode b.

(** The first node of a list with the serialised path of [nodeData]. *)
Definition node_of_same_path (nodeData : NodeData) (ns : list NodeData)
  : option NodeData :=
  find (fun n => same_text (findPath (node_path n))
                   (findPath (node_path nodeData))) ns.

(** ** Vocabulary of the proofs *)

(** The text does not go on with a digit. *)
Definition no_digit_ahead (s : string) : bool :=
  match s with
  | String c _ => negb (is_digit c)
  | EmptyString => true
  end.

(** The text does not go on with a character of a number. *)
Definition number_ends (s : string) : bool :=
  match s with
  | String c _ =>
      negb (is_digit c || (c =? ".")%char || (c =? "e")%char || (c =? "E")%char)
  | EmptyString => true
  end.

Definition head_is (x : ascii) (s : string) : bool :=
  match s with
  | String c _ => (c =? x)%char
  | EmptyString => false
  end.

(** The integer part of a JSON number: [0], or digits that start with
    another digit. *)
Definition integer_part (ip : string) : Prop :=
  ip = "0"
  \/ (all_digits ip = true /\ exists c r, ip = String c r /\ c <> "0"%char).

(** The write of [set_along] goes through from [cur] on: [cur] is an
    object or an array; what it holds under the segment is [null],
    [undefined], or goes on the same way; and the last segment is not the
    [length] of an array. *)
Fixpoint walkable (cur : value) (seg : segment) (rest : list segment) : Prop :=
  is_container cur = true
  /\ match rest with
     | [] => ~ (is_array cur = true /\ key_of seg = "length")
     | next :: rest' =>
         exists c, get_prop cur (key_of seg) = Ok c
                   /\ (is_nullish c = true \/ walkable c next rest')
     end.

(** The [try] block throws [e] before anything is written: [JSON.parse]
    throws on the current text, or it returns and [setAtPath] throws
    ([getContents], [getAtPath] and the carrying over do not throw). *)
Definition throws_before_write (current : option string)
  (path : option (list segment)) (newValue : value) (e : error) : Prop :=
  JSON_parse (text_of current) = Throw e
  \/ exists parsed existingValue merged,
       JSON_parse (text_of current) = Ok parsed
       /\ getAtPath parsed path = Ok existingValue
       /\ preserve existingValue newValue = Ok merged
       /\ setAtPath parsed path merged = Throw e.

(** ** Examples *)

Definition example_node (p : option (list segment)) : NodeData :=
  {| node_id := "n"; node_text := []; node_path := p |}.

(** A graph with a node for the root and one for the key [a]. *)
Definition example_graph (text : option string) : list NodeData :=
  [example_node (Some [SStr "a"]); example_node (Some [])].

(** The stores around a document, with the node of a path selected. *)
Definition example_stores (contents : string) (p : option (list segment))
  : stores :=
  {| file_contents := Some contents; file_hasChanges := false;
     json := Some contents; nodes := example_graph (Some contents);
     selectedNode := Some (example_node p); console := [] |}.

Definition text_modal (text : string) : TextModal.modal :=
  {| TextModal.editing := true; TextModal.editedText := text |}.

Definition fields_modal (fields : list (string * string))
  (single : option string) : FieldsModal.modal :=
  {| FieldsModal.editing := true; FieldsModal.editedText := EmptyString;
     FieldsModal.editedFields := fields;
     FieldsModal.editedSingleValue := single |}.

Definition closed_text_modal : TextModal.modal :=
  {| TextModal.editing := false; TextModal.editedText := EmptyString |}.

Definition closed_fields_modal : FieldsModal.modal :=
  {| FieldsModal.editing := false; FieldsModal.editedText := EmptyString;
     FieldsModal.editedFields := []; FieldsModal.editedSingleValue := None |}.

Definition example_row (k : option string) (v : value) (t : string) : NodeRow :=
  {| row_key := k; row_value := v; row_type := t |}.

(** Text of JSON white space only. *)
Fixpoint ws_only (s : string) : bool :=
  match s with
  | EmptyString => true
  | String c r => is_json_ws c && ws_only r
  end.

(** The characters the text of a value starts with. *)
Definition value_start (c : ascii) : bool :=
  is_digit c || (c =? "-")%char || (c =? dquote)%char || (c =? "[")%char
  || (c =? "{")%char || (c =? "t")%char || (c =? "f")%char || (c =? "n")%char.

(** The text of one member of an object. *)
Definition member_text (gap ind : string) (kv : string * value) : string :=
  (quote (fst kv) ++ (if (gap =? "")%string then ":" else ": ")
     ++ ser gap ind (snd kv))%string.

Definition is_defined_member (kv : string * value) : bool :=
  negb (is_undefined (snd kv)).

(** The white space [ser_block] puts before each part, and before the
    closing bracket. *)
Definition block_pre (gap ind : string) : string :=
  if (gap =? "")%string then EmptyString else String newline (ind ++ gap).

Definition block_post (gap ind : string) : string :=
  if (gap =? "")%string then EmptyString else String newline ind.

(** Along the path from [cur] on, the last segment is not the [length] of
    an array that is there before the write. *)
Fixpoint length_free (cur : value) (seg : segment) (rest : list segment) : Prop :=
  match rest with
  | [] => ~ (is_array cur = true /\ key_of seg = "length")
  | next :: rest' =>
      forall c, get_prop cur (key_of seg) = Ok c -> is_nullish c = false ->
                length_free c next rest'
  end.

(** ** Vocabulary of the paths *)

(** The text of a segment in [jsonPathToString]: a number as it prints, a
    string between double quotes. *)
Definition segment_text (seg : segment) : string :=
  match seg with
  | SNum n => num_to_string n
  | SStr s => String dquote (s ++ String dquote EmptyString)
  end.

Definition bracketed (seg : segment) : string :=
  ("[" ++ segment_text seg ++ "]")%string.

(** Two segments of the same kind that address the same key. *)
Definition same_segment (a b : segment) : Prop :=
  match a, b with
  | SStr s, SStr t => s = t
  | SNum x, SNum y => num_to_string x = num_to_string y
  | _, _ => False
  end.

(** Two optional paths that are both missing, or go through the same
    segments. *)
Definition same_path (a b : option (list segment)) : Prop :=
  match a, b with
  | None, None => True
  | Some p, Some q => Forall2 same_segment p q
  | _, _ => False
  end.

(** The text of a segment in [JSON.stringify] of a path. *)
Definition segment_json (seg : segment) : string :=
  match seg with
  | SNum n => num_to_string n
  | SStr s => quote s
  end.

(** What follows a segment in the text of a path: the closing bracket, or
    a comma and the other segments. *)
Definition segments_tail (l : list segment) : string :=
  match l with
  | [] => "]"
  | _ => ("," ++ String.concat "," (map segment_json l) ++ "]")%string
  end.



(** An object, or an array with its elements only: what [setAtPath]
    copies in full. *)
Definition plain_root (doc : value) : bool :=
  match doc with
  | VObj _ | VArr _ [] => true
  | _ => false
  end.


(** ** Vocabulary of the rows and the inputs *)

(** The value of the lone row without a key, when the rows are that. *)
Definition lone_value (rows : list NodeRow) : option value :=
  match rows with
  | [row] =>
      match truthy_key row with
      | None => Some (row_value row)
      | Some _ => None
      end
  | _ => None
  end.

(** The row is written into the flattened object, under [k]. *)
Definition writes_key (k : string) (r : NodeRow) : bool :=
  is_scalar_row r
  && match truthy_key r with
     | Some k' => (k' =? k)%string
     | None => false
     end.

(** A value after it was shown in an input and read back by [handleSave]. *)
Definition through_input (v : value) : value := parse_or_string (edit_text v).

(** The keys [handleSave] carries over. *)
Definition carried_key (k : string) : bool :=
  ((k =? "details") || (k =? "nutrients"))%string.

(** The stores around a selected node with the given rows, at the root of
    an empty document. *)
Definition example_selection (rows : list NodeRow) : stores :=
  {| file_contents := Some "{}"; file_hasChanges := false; json := Some "{}";
     nodes := [];
     selectedNode :=
       Some {| node_id := "n"; node_text := rows; node_path := Some [] |};
     console := [] |}.

(** ** Invariants of the modal *)

(** Out of edit mode the state of the modal is the initial one. *)
Definition text_modal_ok (s : stores * TextModal.modal) : Prop :=
  TextModal.editing (snd s) = false -> snd s = closed_text_modal.

(** Out of edit mode the state of the modal is the initial one; in edit
    mode it holds a single value when the selected node has the lone row
    without a key, and else one field for each key of the flattened
    object, in its order. *)
Definition fields_modal_ok (s : stores * FieldsModal.modal) : Prop :=
  if FieldsModal.editing (snd s) then
    match FieldsModal.editedSingleValue (snd s) with
    | Some _ => lone_value (selected_rows (fst s)) <> None
    | None =>
        lone_value (selected_rows (fst s)) = None
        /\ map fst (FieldsModal.editedFields (snd s))
           = map fst (flatten_rows (selected_rows (fst s)))
    end
  else snd s = closed_fields_modal.

(** The row is written into the flattened object. *)
Definition is_written (r : NodeRow) : bool :=
  is_scalar_row r
  && match truthy_key r with
     | Some _ => true
     | None => false
     end.
(** * Properties *)

(** ** The model at work *)

Example num_to_string_examples :
  num_to_string (Dec 15 (-1)) = "1.5"
  /\ num_to_string (Dec (-1500) 0) = "-1500"
  /\ num_to_string (Dec 1 21) = "1e+21"
  /\ num_to_string (Dec 1 20) = "100000000000000000000"
  /\ num_to_string (Dec 123 (-8)) = "0.00000123"
  /\ num_to_string (Dec 123 (-9)) = "1.23e-7"
  /\ num_to_string (Dec 0 5) = "0".
Proof. repeat split; reflexivity. Qed.

Example JSON_parse_examples :
  JSON_parse (jq "{'b': [1, 2.5e1], 'a': 'x', '2': null, 'b': true}")
  = Ok (VObj [("2", VNull); ("b", VBool true); ("a", VStr "x")])
  /\ JSON_parse " [ ] " = Ok (VArr [] [])
  /\ JSON_parse "01" = Throw SyntaxError
  /\ JSON_parse "[1,]" = Throw SyntaxError
  /\ JSON_parse "" = Throw SyntaxError
  /\ JSON_parse "undefined" = Throw SyntaxError.
Proof. repeat split; reflexivity. Qed.

Example JSON_stringify_examples :
  JSON_stringify gap2 (VObj [("a", VArr [VNum (Dec 1 0); VUndefined] []);
                             ("b", VUndefined); ("c", VObj [])])
  = Some (jq ("{" ++ String newline "  'a': [" ++ String newline "    1,"
                ++ String newline "    null" ++ String newline "  ],"
                ++ String newline "  'c': {}" ++ String newline "}"))
  /\ JSON_stringify EmptyString (VArr [VStr "a"; VNum (Dec 0 0)] [])
     = Some (jq "['a',0]")
  /\ JSON_stringify gap2 VUndefined = None.
Proof. repeat split; reflexivity. Qed.

Example property_write_examples :
  set_prop (VArr [VNull] []) "3" (VBool true)
  = Ok (VArr [VNull; VUndefined; VUndefined; VBool true] [])
  /\ set_prop (VArr [VNull; VNull] []) "length" (VStr "1") = Ok (VArr [VNull] [])
  /\ set_prop (VArr [VNull] []) "length" (VStr "x") = Throw RangeError
  /\ set_prop (VArr [] []) "x" VNull = Ok (VArr [] [("x", VNull)])
  /\ set_prop (VStr "abc") "0" VNull = Throw TypeError
  /\ obj_set "10" VNull (obj_set "a" VNull (obj_set "2" VNull (obj_set "b" VNull [])))
     = [("2", VNull); ("10", VNull); ("b", VNull); ("a", VNull)].
Proof. repeat split; reflexivity. Qed.

Example setAtPath_examples :
  setAtPath (VObj [("a", VNull)]) (Some [SStr "a"; SNum (Dec 1 0); SStr "b"])
    (VBool true)
  = Ok (VObj [("a", VArr [VUndefined; VObj [("b", VBool true)]] [])])
  /\ setAtPath (VObj [("a", VNum (Dec 5 0))]) (Some [SStr "a"; SStr "b"]) VNull
     = Throw TypeError
  /\ setAtPath (VStr "ab") (Some [SStr "x"]) VNull
     = Ok (VObj [("0", VStr "a"); ("1", VStr "b"); ("x", VNull)]).
Proof. repeat split; reflexivity. Qed.

(** ** Text *)

Lemma append_nil_r (s : string) : (s ++ "")%string = s.
Proof. induction s as [|c s IH]; simpl; [reflexivity | now rewrite IH]. Qed.

Lemma append_assoc (a b c : string) :
  ((a ++ b) ++ c)%string = (a ++ (b ++ c))%string.
Proof. induction a as [|x a IH]; simpl; [reflexivity | now rewrite IH]. Qed.

Lemma length_append (a b : string) :
  String.length (a ++ b) = String.length a + String.length b.
Proof. induction a as [|x a IH]; simpl; [reflexivity | now rewrite IH]. Qed.

(** ** Own properties *)

Lemma lookup_replace_field k k' v f :
  lookup k f <> None ->
  lookup k' (replace_field k v f) = if (k =? k')%string then Some v else lookup k' f.
Proof.
  induction f as [|[k0 v0] f IH]; simpl; intros H; [congruence|].
  destruct (String.eqb_spec k0 k) as [->|Hne]; simpl.
  - destruct (String.eqb_spec k k'); reflexivity.
  - rewrite IH by exact H.
    destruct (String.eqb_spec k0 k') as [->|Hne'].
    + destruct (String.eqb_spec k k'); [congruence | reflexivity].
    + reflexivity.
Qed.

Lemma lookup_insert_index i k k' v f :
  lookup k f = None ->
  lookup k' (insert_index i k v f) = if (k =? k')%string then Some v else lookup k' f.
Proof.
  induction f as [|[k0 v0] f IH]; simpl; intros H.
  - reflexivity.
  - destruct (String.eqb_spec k0 k) as [->|Hne]; [discriminate|].
    destruct (array_index k0) as [j|]; [destruct (j <? i)%N|]; simpl;
      try reflexivity.
    rewrite IH by exact H.
    destruct (String.eqb_spec k0 k') as [->|Hne'].
    + destruct (String.eqb_spec k k'); [congruence | reflexivity].
    + reflexivity.
Qed.

Lemma lookup_app_last k k' v f :
  lookup k f = None ->
  lookup k' (f ++ [(k, v)]) = if (k =? k')%string then Some v else lookup k' f.
Proof.
  induction f as [|[k0 v0] f IH]; simpl; intros H.
  - reflexivity.
  - destruct (String.eqb_spec k0 k) as [->|Hne]; [discriminate|].
    rewrite IH by exact H.
    destruct (String.eqb_spec k0 k') as [->|Hne'].
    + destruct (String.eqb_spec k k'); [congruence | reflexivity].
    + reflexivity.
Qed.

(** A written property reads back; the others are untouched. *)
Lemma lookup_obj_set k k' v f :
  lookup k' (obj_set k v f) = if (k =? k')%string then Some v else lookup k' f.
Proof.
  unfold obj_set. destruct (lookup k f) eqn:E.
  - apply lookup_replace_field. congruence.
  - destruct (array_index k).
    + now apply lookup_insert_index.
    + now apply lookup_app_last.
Qed.

Lemma lookup_obj_set_same k v f : lookup k (obj_set k v f) = Some v.
Proof. rewrite lookup_obj_set. now rewrite String.eqb_refl. Qed.

Lemma nth_set_index i v items : nth i (set_index i v items) VUndefined = v.
Proof.
  revert items. induction i as [|i IH]; intros [|x r]; simpl; auto.
Qed.

(** ** Property reads and writes *)

Lemma get_prop_ok base k :
  is_nullish base = false -> exists v, get_prop base k = Ok v.
Proof.
  destruct base; simpl; intros H; try discriminate; eauto.
  - destruct (integer_index k); [destruct (String.get _ _)|destruct (k =? "length")%string]; eauto.
  - destruct (array_index k); [|destruct (k =? "length")%string]; eauto.
Qed.

(** A write on an object or an array reads back, but on the [length] of
    an array. *)
Lemma get_set_prop cur k v :
  is_container cur = true ->
  ~ (is_array cur = true /\ k = "length") ->
  exists out, set_prop cur k v = Ok out /\ is_container out = true
              /\ is_array out = is_array cur /\ get_prop out k = Ok v.
Proof.
  destruct cur; simpl; intros Hc Hl; try discriminate.
  - destruct (array_index k) as [i|] eqn:Ei.
    + eexists; repeat split; simpl. rewrite Ei. now rewrite nth_set_index.
    + destruct (String.eqb_spec k "length") as [->|Hne]; [tauto|].
      eexists; repeat split; simpl. rewrite Ei.
      destruct (String.eqb_spec k "length"); [contradiction|].
      unfold lookup_or_undefined. now rewrite lookup_obj_set_same.
  - eexists; repeat split; simpl.
    unfold lookup_or_undefined. now rewrite lookup_obj_set_same.
Qed.

(** ** [getAtPath] *)

Lemma get_along_ok p : forall cur, exists v, get_along cur p = Ok v.
Proof.
  induction p as [|seg rest IH]; intros cur; simpl.
  - eauto.
  - destruct (is_nullish cur) eqn:E; [eauto|].
    destruct (get_prop_ok cur (key_of seg) E) as [x ->]. simpl. apply IH.
Qed.



Lemma getAtPath_ok obj path : exists v, getAtPath obj path = Ok v.
Proof.
  destruct path as [[|seg rest]|]; simpl; eauto.
  change (exists v, get_along obj (seg :: rest) = Ok v). apply get_along_ok.
Qed.



(** ** Digits and the text of numbers *)

Lemma number_ends_no_digit s : number_ends s = true -> no_digit_ahead s = true.
Proof.
  destruct s as [|c s]; simpl; [reflexivity|].
  destruct (is_digit c); simpl; [discriminate | reflexivity].
Qed.

Lemma all_digits_app a b :
  all_digits (a ++ b) = all_digits a && all_digits b.
Proof.
  induction a as [|c a IH]; simpl; [reflexivity|].
  rewrite IH. now rewrite andb_assoc.
Qed.

Lemma all_digits_zeros n : all_digits (zeros n) = true.
Proof. induction n; simpl; auto. Qed.

Lemma span_digits_app a : forall rest,
  all_digits a = true -> no_digit_ahead rest = true ->
  span_digits (a ++ rest) = (a, rest).
Proof.
  induction a as [|c a IH]; simpl; intros rest Ha Hr.
  - destruct rest as [|c r]; simpl in *; [reflexivity|].
    destruct (is_digit c); [discriminate | reflexivity].
  - apply andb_prop in Ha as [Hc Ha]. rewrite Hc. now rewrite IH.
Qed.

Lemma split_at_app n : forall s a b,
  split_at n s = (a, b) -> s = (a ++ b)%string.
Proof.
  induction n as [|n IH]; intros s a b H; simpl in H.
  - destruct s; injection H as <- <-; reflexivity.
  - destruct s as [|c s]; [injection H as <- <-; reflexivity|].
    destruct (split_at n s) as [a' b'] eqn:E. injection H as <- <-.
    simpl. f_equal. now apply IH.
Qed.

Lemma split_at_length n : forall s a b,
  split_at n s = (a, b) -> n <= String.length s -> String.length a = n.
Proof.
  induction n as [|n IH]; intros s a b H Hl; simpl in H.
  - destruct s; injection H as <- <-; reflexivity.
  - destruct s as [|c s]; simpl in Hl; [lia|].
    destruct (split_at n s) as [a' b'] eqn:E. injection H as <- <-.
    simpl. f_equal. eapply IH; [eassumption | lia].
Qed.

Lemma digit_char_code d : (d < 10)%N -> N_of_ascii (digit_char d) = (48 + d)%N.
Proof. intros H. unfold digit_char. apply N_ascii_embedding. lia. Qed.

Lemma is_digit_digit_char d : (d < 10)%N -> is_digit (digit_char d) = true.
Proof.
  intros H. unfold is_digit. rewrite digit_char_code by exact H.
  apply andb_true_intro; split; apply N.leb_le; lia.
Qed.

Lemma digit_char_zero d : (d < 10)%N -> digit_char d = "0"%char -> d = 0%N.
Proof.
  intros H E. apply (f_equal N_of_ascii) in E.
  rewrite digit_char_code in E by exact H.
  change (N_of_ascii "0"%char) with 48%N in E. lia.
Qed.

Lemma mod10_lt n : (n mod 10 < 10)%N.
Proof. apply N.mod_lt. discriminate. Qed.

Lemma all_digits_N_digits fuel : forall n acc,
  all_digits (N_digits fuel n acc) = all_digits acc.
Proof.
  induction fuel as [|fuel IH]; intros n acc; simpl.
  - now rewrite is_digit_digit_char by apply mod10_lt.
  - destruct (n / 10 =? 0)%N; simpl.
    + now rewrite is_digit_digit_char by apply mod10_lt.
    + rewrite IH. simpl. now rewrite is_digit_digit_char by apply mod10_lt.
Qed.

Lemma all_digits_N_to_string n : all_digits (N_to_string n) = true.
Proof. unfold N_to_string. now rewrite all_digits_N_digits. Qed.

(** The digits are pushed in front of the accumulator, one at least. *)
Lemma N_digits_shape fuel : forall n acc,
  exists c r, N_digits fuel n EmptyString = String c r
              /\ N_digits fuel n acc = String c (r ++ acc).
Proof.
  induction fuel as [|fuel IH]; intros n acc; simpl.
  - eexists _, _; split; reflexivity.
  - destruct (n / 10 =? 0)%N.
    + eexists _, _; split; reflexivity.
    + destruct (IH (n / 10)%N (String (digit_char (n mod 10)) EmptyString))
        as (c & r & E0 & E1).
      destruct (IH (n / 10)%N (String (digit_char (n mod 10)) acc))
        as (c' & r' & E0' & E1').
      rewrite E0 in E0'. injection E0' as <- <-.
      exists c, (r ++ String (digit_char (n mod 10)) EmptyString)%string.
      split; [exact E1|]. rewrite E1'. now rewrite append_assoc.
Qed.

Lemma N_to_string_nonempty n : N_to_string n <> EmptyString.
Proof.
  unfold N_to_string.
  destruct (N_digits_shape (N.to_nat (N.size n)) n EmptyString)
    as (c & r & E & _).
  rewrite E. discriminate.
Qed.

(** The first digit of a positive number is not [0]. *)
Lemma N_digits_head fuel : forall n acc,
  n <> 0%N -> (n < 2 ^ N.of_nat fuel)%N ->
  exists c r, N_digits fuel n acc = String c r /\ c <> "0"%char.
Proof.
  induction fuel as [|fuel IH]; intros n acc Hn Hlt.
  - simpl in Hlt. lia.
  - simpl. destruct (N.eqb_spec (n / 10) 0) as [E|E].
    + eexists _, _; split; [reflexivity|].
      intros H. apply digit_char_zero in H; [|apply mod10_lt].
      assert (n = 10 * (n / 10) + n mod 10)%N by (apply N.div_mod; discriminate).
      lia.
    + apply IH; [exact E|].
      rewrite Nat2N.inj_succ, N.pow_succ_r' in Hlt.
      assert (n / 10 <= n / 2)%N.
      { apply N.div_le_compat_l. lia. }
      assert (n / 2 < 2 ^ N.of_nat fuel)%N.
      { apply N.Div0.div_lt_upper_bound. exact Hlt. }
      lia.
Qed.

Lemma N_to_string_head n :
  n <> 0%N -> exists c r, N_to_string n = String c r /\ c <> "0"%char.
Proof.
  intros Hn. apply N_digits_head; [exact Hn|].
  rewrite N2Nat.id. apply N.size_gt.
Qed.

Lemma strip_zeros_nonzero fuel : forall m e,
  m <> 0%N -> fst (strip_zeros fuel m e) <> 0%N.
Proof.
  induction fuel as [|fuel IH]; intros m e Hm; simpl; [exact Hm|].
  destruct (N.eqb_spec (m mod 10) 0) as [E|E]; simpl.
  - destruct (N.eqb_spec m 0) as [E'|E']; simpl; [contradiction|].
    apply IH. intros H.
    assert (m = 10 * (m / 10) + m mod 10)%N by (apply N.div_mod; discriminate).
    lia.
  - exact Hm.
Qed.

(** ** The text of a number is a JSON number *)


Lemma digit_differs c x :
  is_digit c = true -> is_digit x = false -> (c =? x)%char = false.
Proof.
  intros Hc Hx. destruct (Ascii.eqb_spec c x) as [->|]; [congruence | reflexivity].
Qed.

Lemma number_ends_heads t :
  number_ends t = true ->
  head_is "." t = false /\ head_is "e" t = false /\ head_is "E" t = false.
Proof.
  destruct t as [|c t]; simpl; [auto|].
  intros H. apply negb_true_iff in H.
  repeat (apply orb_false_elim in H as [H ?]). auto.
Qed.

Lemma lex_json_fraction_none t :
  head_is "." t = false -> lex_json_fraction t = Some (EmptyString, t).
Proof. destruct t as [|c t]; simpl; [reflexivity|]. now intros ->. Qed.

Lemma lex_json_fraction_digits b t :
  all_digits b = true -> b <> EmptyString -> no_digit_ahead t = true ->
  lex_json_fraction (String "." (b ++ t)) = Some (b, t).
Proof.
  intros Hb Hne Ht. unfold lex_json_fraction.
  change ("." =? ".")%char with true. cbv iota.
  rewrite span_digits_app by assumption.
  destruct b; [contradiction | reflexivity].
Qed.

Lemma lex_json_exponent_none t :
  head_is "e" t = false -> head_is "E" t = false ->
  lex_json_exponent t = Some (0%Z, t).
Proof. destruct t as [|c t]; simpl; [reflexivity|]. now intros -> ->. Qed.

Lemma lex_json_exponent_digits (neg : bool) ds t :
  all_digits ds = true -> ds <> EmptyString -> no_digit_ahead t = true ->
  exists ex,
    lex_json_exponent
      (String "e" (String (if neg then "-" else "+")%char (ds ++ t)))
    = Some (ex, t).
Proof.
  intros Hd Hne Ht. unfold lex_json_exponent.
  change (("e" =? "e")%char || ("e" =? "E")%char) with true. cbv iota.
  destruct neg.
  - change ("-" =? "-")%char with true. cbv iota.
    rewrite span_digits_app by assumption.
    destruct ds; [contradiction | eauto].
  - change ("+" =? "-")%char with false.
    change ("+" =? "+")%char with true. cbv iota.
    rewrite span_digits_app by assumption.
    destruct ds; [contradiction | eauto].
Qed.


Lemma lex_json_unsigned_parts neg ip t fp t2 ex t3 :
  integer_part ip -> no_digit_ahead t = true ->
  lex_json_fraction t = Some (fp, t2) ->
  lex_json_exponent t2 = Some (ex, t3) ->
  exists y, lex_json_unsigned neg (ip ++ t) = Some (y, t3).
Proof.
  intros [->|(Hd & c & r & -> & Hc)] Ht Hf He.
  - simpl. rewrite Hf, He. eauto.
  - pose proof Hd as Hd'. simpl in Hd'. apply andb_prop in Hd' as [Hdc _].
    unfold lex_json_unsigned. simpl append.
    cbv beta iota. rewrite Hdc.
    destruct (Ascii.eqb_spec c "0") as [E|_]; [contradiction|].
    change (String c (r ++ t)) with (String c r ++ t)%string.
    rewrite span_digits_app by assumption.
    rewrite Hf, He. eauto.
Qed.

Lemma lex_num_body neg ds e rest :
  all_digits ds = true ->
  (exists c r, ds = String c r /\ c <> "0"%char) ->
  number_ends rest = true ->
  exists y, lex_json_unsigned neg (num_body ds e ++ rest) = Some (y, rest).
Proof.
  intros Hd (c & r & Eds & Hc) Hr.
  destruct (number_ends_heads _ Hr) as (Hp & He1 & He2).
  pose proof (number_ends_no_digit _ Hr) as Hnd.
  unfold num_body.
  set (k := Z.of_nat (String.length ds)).
  set (n := (k + e)%Z).
  destruct ((k <=? n)%Z && (n <=? 21)%Z) eqn:C1.
  { (* the digits and zeros *)
    apply lex_json_unsigned_parts with (fp := EmptyString) (t2 := rest) (ex := 0%Z).
    - right. split.
      + rewrite all_digits_app, Hd. apply all_digits_zeros.
      + subst ds. simpl. eauto.
    - exact Hnd.
    - now apply lex_json_fraction_none.
    - now apply lex_json_exponent_none. }
  destruct ((0 <? n)%Z && (n <=? 21)%Z) eqn:C2.
  { (* digits, the point, digits *)
    apply andb_prop in C2 as [Hn0 Hn21]. apply Z.ltb_lt in Hn0.
    assert (Hnk : (n < k)%Z).
    { apply andb_false_iff in C1 as [C1|C1];
        [apply Z.leb_gt in C1; exact C1 | rewrite Hn21 in C1; discriminate]. }
    destruct (split_at (Z.to_nat n) ds) as [a b] eqn:Es.
    pose proof (split_at_app _ _ _ _ Es) as Eab.
    assert (Hla : String.length a = Z.to_nat n).
    { eapply split_at_length; [eassumption | subst k; lia]. }
    assert (Hlb : String.length b <> 0).
    { apply (f_equal String.length) in Eab. rewrite length_append in Eab.
      subst k. lia. }
    rewrite Eab in Hd. rewrite all_digits_app in Hd. apply andb_prop in Hd as [Ha Hb].
    rewrite append_assoc. 
    apply lex_json_unsigned_parts with (fp := b) (t2 := rest) (ex := 0%Z).
    - right. split; [exact Ha|].
      destruct a as [|ca ra]; [simpl in Hla; lia|].
      rewrite Eds in Eab. simpl in Eab. injection Eab as -> _. eauto.
    - reflexivity.
    - simpl. apply lex_json_fraction_digits; [exact Hb | | exact Hnd].
      intros ->. now apply Hlb.
    - now apply lex_json_exponent_none. }
  destruct ((-6 <? n)%Z && (n <=? 0)%Z) eqn:C3.
  { (* zero, the point, zeros and the digits *)
    change ("0." ++ zeros (Z.to_nat (- n)) ++ ds)%string
      with ("0" ++ String "." (zeros (Z.to_nat (- n)) ++ ds))%string.
    rewrite append_assoc. simpl append at 2.
    apply lex_json_unsigned_parts
      with (fp := (zeros (Z.to_nat (- n)) ++ ds)%string) (t2 := rest) (ex := 0%Z).
    - now left.
    - reflexivity.
    - apply lex_json_fraction_digits; [| | exact Hnd].
      + rewrite all_digits_app, all_digits_zeros. exact Hd.
      + subst ds. destruct (zeros (Z.to_nat (- n))); discriminate.
    - now apply lex_json_exponent_none. }
  (* the exponent form *)
  subst ds. simpl in Hd. apply andb_prop in Hd as [Hdc Hdr].
  set (ex := (n - 1)%Z).
  destruct (lex_json_exponent_digits (ex <? 0)%Z (N_to_string (Z.abs_N ex)) rest
              (all_digits_N_to_string _) (N_to_string_nonempty _) Hnd)
    as [x Hx].
  assert (Hsign : forall tl : string,
             ("e" ++ (if (ex <? 0)%Z then "-" else "+") ++ tl)%string
             = String "e" (String (if (ex <? 0)%Z then "-" else "+")%char tl)).
  { intros tl. destruct (ex <? 0)%Z; reflexivity. }
  destruct r as [|c2 r2].
  - change (String c ("e" ++ (if (ex <? 0)%Z then "-" else "+")
                        ++ N_to_string (Z.abs_N ex)) ++ rest)%string
      with (String c EmptyString
              ++ (("e" ++ (if (ex <? 0)%Z then "-" else "+")
                    ++ N_to_string (Z.abs_N ex)) ++ rest))%string.
    rewrite Hsign. simpl append at 2.
    apply lex_json_unsigned_parts
      with (fp := EmptyString)
           (t2 := String "e" (String (if (ex <? 0)%Z then "-" else "+")%char
                                (N_to_string (Z.abs_N ex) ++ rest)))
           (ex := x).
    + right. split; [simpl; now rewrite Hdc | eauto].
    + reflexivity.
    + reflexivity.
    + exact Hx.
  - change (String c ("." ++ String c2 r2 ++ "e"
                        ++ (if (ex <? 0)%Z then "-" else "+")
                        ++ N_to_string (Z.abs_N ex)) ++ rest)%string
      with (String c EmptyString
              ++ String "." ((String c2 r2
                   ++ ("e" ++ (if (ex <? 0)%Z then "-" else "+")
                         ++ N_to_string (Z.abs_N ex))) ++ rest))%string.
    rewrite Hsign. rewrite append_assoc. simpl append at 3.
    apply lex_json_unsigned_parts
      with (fp := String c2 r2)
           (t2 := String "e" (String (if (ex <? 0)%Z then "-" else "+")%char
                                (N_to_string (Z.abs_N ex) ++ rest)))
           (ex := x).
    + right. split; [simpl; now rewrite Hdc | eauto].
    + reflexivity.
    + apply lex_json_fraction_digits; [exact Hdr | discriminate | reflexivity].
    + exact Hx.
Qed.

Lemma lex_json_number_unsigned s y :
  lex_json_unsigned false s = Some y -> lex_json_number s = Some y.
Proof.
  destruct s as [|c s]; [discriminate|].
  unfold lex_json_number. intros H.
  destruct (Ascii.eqb_spec c "-") as [->|_]; [discriminate | exact H].
Qed.

(** The text of a number is read back as one number, up to the text that
    follows it. *)
Lemma lex_num_to_string x rest :
  number_ends rest = true ->
  exists y, lex_json_number (num_to_string x ++ rest) = Some (y, rest).
Proof.
  intros Hr. unfold num_to_string.
  destruct (Z.eqb_spec (mant x) 0) as [E|E].
  - destruct (number_ends_heads _ Hr) as (Hp & He1 & He2).
    destruct (@lex_json_unsigned_parts false "0" rest EmptyString rest 0%Z rest)
      as [y Hy]; auto using number_ends_no_digit, lex_json_fraction_none,
                            lex_json_exponent_none.
    + now left.
    + exists y. now apply lex_json_number_unsigned.
  - set (a := Z.abs_N (mant x)).
    assert (Ha : a <> 0%N) by (subst a; lia).
    pose proof (strip_zeros_nonzero (N.to_nat (N.size a)) a (expo x) Ha) as Hs.
    destruct (strip_zeros (N.to_nat (N.size a)) a (expo x)) as [s e].
    simpl in Hs.
    destruct (N_to_string_head _ Hs) as (c & r & Eds & Hc).
    destruct (mant x <? 0)%Z.
    + destruct (@lex_num_body true (N_to_string s) e rest) as [y Hy];
        [apply all_digits_N_to_string | eauto | exact Hr |].
      exists y. exact Hy.
    + destruct (@lex_num_body false (N_to_string s) e rest) as [y Hy];
        [apply all_digits_N_to_string | eauto | exact Hr |].
      exists y. now apply lex_json_number_unsigned.
Qed.

Lemma num_to_string_not_length x : num_to_string x <> "length".
Proof.
  intros E.
  destruct (@lex_num_to_string x EmptyString eq_refl) as [y Hy].
  rewrite append_nil_r, E in Hy. discriminate.
Qed.

(** ** Writing along a path, then reading *)

Lemma key_of_number_not_length seg :
  is_number_segment seg = true -> key_of seg <> "length".
Proof.
  destruct seg as [n|s]; simpl; [intros _ | discriminate].
  apply num_to_string_not_length.
Qed.

Lemma fresh_container_get next k :
  (is_number_segment next = true -> k <> "length") ->
  get_prop (fresh_container next) k = Ok VUndefined.
Proof.
  unfold fresh_container. destruct (is_number_segment next); simpl; [|reflexivity].
  intros H. destruct (array_index k) as [i|].
  - now destruct (N.to_nat i).
  - destruct (String.eqb_spec k "length") as [E|_]; [now apply H in E | reflexivity].
Qed.

(** A container made for a segment can be written along that segment and
    any further ones. *)
Lemma walkable_fresh rest : forall next,
  walkable (fresh_container next) next rest.
Proof.
  destruct rest as [|next2 rest']; intros next; simpl.
  - split.
    + unfold fresh_container. now destruct (is_number_segment next).
    + intros [Ha El]. unfold fresh_container in Ha.
      destruct (is_number_segment next) eqn:E; [|discriminate].
      now apply key_of_number_not_length in E.
  - split.
    + unfold fresh_container. now destruct (is_number_segment next).
    + exists VUndefined. split; [|now left].
      apply fresh_container_get. intros E. now apply key_of_number_not_length.
Qed.

Lemma container_not_nullish v : is_container v = true -> is_nullish v = false.
Proof. now destruct v. Qed.

Lemma walkable_container cur seg rest :
  walkable cur seg rest -> is_container cur = true.
Proof. destruct rest; intros [H _]; exact H. Qed.

(** What was written at the end of a walkable path is read there. *)
Lemma set_along_get_along rest : forall cur seg v,
  walkable cur seg rest ->
  exists out, set_along cur seg rest v = Ok out
              /\ is_container out = true /\ is_array out = is_array cur
              /\ get_along out (seg :: rest) = Ok v.
Proof.
  induction rest as [|next rest' IH]; intros cur seg v [Hc Hw].
  - destruct (get_set_prop cur (key_of seg) v Hc Hw) as (out & Hs & Hco & Ha & Hg).
    exists out. simpl. repeat split; try assumption.
    destruct out; try discriminate; simpl in *; now rewrite Hg.
  - destruct Hw as (c & Hgc & Hnext).
    assert (Hl : ~ (is_array cur = true /\ key_of seg = "length")).
    { intros [Ha El]. destruct cur; try discriminate. simpl in Hgc.
      rewrite El in Hgc. simpl in Hgc. injection Hgc as <-.
      destruct Hnext as [Hn | Hn]; [discriminate|].
      apply walkable_container in Hn. discriminate. }
    set (child0 := if is_nullish c then fresh_container next else c).
    assert (Hchild : walkable child0 next rest').
    { subst child0. destruct Hnext as [Hn | Hwk].
      - rewrite Hn. apply walkable_fresh.
      - pose proof (walkable_container _ _ _ Hwk) as Hcc.
        now rewrite (container_not_nullish _ Hcc). }
    destruct (get_set_prop cur (key_of seg) child0 Hc Hl)
      as (cur1 & Hs1 & Hc1 & Ha1 & Hg1).
    destruct (IH child0 next v Hchild) as (child' & Hs2 & Hc2 & _ & Hg2).
    assert (Hl1 : ~ (is_array cur1 = true /\ key_of seg = "length")).
    { rewrite Ha1. exact Hl. }
    destruct (get_set_prop cur1 (key_of seg) child' Hc1 Hl1)
      as (out & Hs3 & Hc3 & Ha3 & Hg3).
    exists out. split; [|split; [exact Hc3 | split; [congruence|]]].
    + change (set_along cur seg (next :: rest') v)
        with (old <- get_prop cur (key_of seg) ;;
              cur1 <- set_prop cur (key_of seg)
                        (if is_nullish old then fresh_container next else old) ;;
              child <- get_prop cur1 (key_of seg) ;;
              child' <- set_along child next rest' v ;;
              set_prop cur1 (key_of seg) child').
      rewrite Hgc. simpl bind. fold child0. rewrite Hs1. simpl bind.
      rewrite Hg1. simpl bind. rewrite Hs2. simpl bind. exact Hs3.
    + change (get_along out (seg :: next :: rest'))
        with (if is_nullish out then Ok VUndefined
              else x <- get_prop out (key_of seg) ;; get_along x (next :: rest')).
      destruct out; try discriminate; simpl is_nullish; cbv iota;
        rewrite Hg3; simpl bind; exact Hg2.
Qed.

(** *** From a path that is read to a path that is written *)

Lemma get_along_cons cur seg rest c :
  is_nullish cur = false -> get_prop cur (key_of seg) = Ok c ->
  get_along cur (seg :: rest) = get_along c rest.
Proof. intros Hn Hg. simpl. now rewrite Hn, Hg. Qed.


(** Reading below a value that is neither an object nor an array gives
    neither. *)
Lemma get_along_below_scalar p : forall cur c,
  p <> [] -> is_container cur = false ->
  get_along cur p = Ok c -> is_container c = false.
Proof.
  induction p as [|seg rest IH]; intros cur c Hp Hc H; [contradiction|].
  simpl in H. destruct (is_nullish cur) eqn:En.
  - now injection H as <-.
  - destruct (get_prop cur (key_of seg)) as [y|] eqn:Eg; [|discriminate].
    simpl in H.
    assert (Hy : is_container y = false).
    { destruct cur; try discriminate; simpl in Eg.
      - now injection Eg as <-.
      - now injection Eg as <-.
      - destruct (integer_index (key_of seg));
          [destruct (String.get _ _) | destruct (key_of seg =? "length")%string];
          now injection Eg as <-. }
    destruct rest as [|s2 rest]; [simpl in H; now injection H as <-|].
    eapply IH; [discriminate | exact Hy | exact H].
Qed.

(** A path at whose end an object or an array is read can be written. *)
Lemma walkable_of_read rest : forall cur seg c,
  is_container cur = true ->
  get_along cur (seg :: rest) = Ok c -> is_container c = true ->
  walkable cur seg rest.
Proof.
  induction rest as [|next rest' IH]; intros cur seg c Hc Hg Hcc.
  - split; [exact Hc|]. intros [Ha El].
    destruct cur; try discriminate. simpl in Hg. rewrite El in Hg.
    simpl in Hg. injection Hg as <-. discriminate.
  - split; [exact Hc|].
    destruct (get_prop_ok cur (key_of seg) (container_not_nullish _ Hc)) as [y Hy].
    exists y. split; [exact Hy|]. right.
    rewrite (get_along_cons cur seg (next :: rest') y
               (container_not_nullish _ Hc) Hy) in Hg.
    destruct (is_container y) eqn:Ey.
    + eapply IH; eassumption.
    + apply get_along_below_scalar in Hg; [congruence | discriminate | exact Ey].
Qed.

(** *** The copy of the document *)

Lemma digit_val_digit_char d : (d < 10)%N -> digit_val (digit_char d) = d.
Proof. intros H. unfold digit_val. rewrite digit_char_code by exact H. lia. Qed.

(** The digits of a number denote it. *)
Lemma digits_to_N_N_digits fuel : forall n acc,
  (n < 2 ^ N.of_nat fuel)%N ->
  exists ds, N_digits fuel n acc = (ds ++ acc)%string
             /\ forall a rest,
                 digits_to_N (ds ++ rest) a
                 = digits_to_N rest (a * 10 ^ N.of_nat (String.length ds) + n)%N.
Proof.
  induction fuel as [|fuel IH]; intros n acc Hlt.
  - simpl in Hlt. assert (n = 0%N) by lia. subst n.
    exists "0". split; [reflexivity|]. intros a rest.
    cbn [append digits_to_N]. f_equal.
    change (digit_val "0") with 0%N.
    change (N.of_nat (String.length "0")) with 1%N. rewrite N.pow_1_r. lia.
  - cbn [N_digits]. destruct (N.eqb_spec (n / 10) 0) as [E|E].
    + exists (String (digit_char (n mod 10)) EmptyString). split; [reflexivity|].
      intros a rest. cbn [append digits_to_N]. f_equal.
      rewrite digit_val_digit_char by apply mod10_lt.
      change (N.of_nat (String.length (String (digit_char (n mod 10)) EmptyString)))
        with 1%N.
      rewrite N.pow_1_r.
      assert (n = 10 * (n / 10) + n mod 10)%N by (apply N.div_mod; discriminate).
      lia.
    + assert (Hlt' : (n / 10 < 2 ^ N.of_nat fuel)%N).
      { rewrite Nat2N.inj_succ, N.pow_succ_r' in Hlt.
        assert (n / 10 <= n / 2)%N by (apply N.div_le_compat_l; lia).
        assert (n / 2 < 2 ^ N.of_nat fuel)%N
          by (apply N.Div0.div_lt_upper_bound; exact Hlt).
        lia. }
      destruct (IH (n / 10)%N (String (digit_char (n mod 10)) acc) Hlt')
        as (ds & Eds & Hds).
      exists (ds ++ String (digit_char (n mod 10)) EmptyString)%string.
      split; [rewrite Eds; now rewrite append_assoc|].
      intros a rest. rewrite append_assoc. rewrite Hds.
      cbn [append digits_to_N]. f_equal.
      rewrite digit_val_digit_char by apply mod10_lt.
      rewrite length_append. cbn [String.length].
      replace (N.of_nat (String.length ds + 1))
        with (N.succ (N.of_nat (String.length ds))) by lia.
      rewrite N.pow_succ_r'.
      assert (n = 10 * (n / 10) + n mod 10)%N by (apply N.div_mod; discriminate).
      lia.
Qed.

Lemma digits_to_N_N_to_string n : digits_to_N (N_to_string n) 0 = n.
Proof.
  unfold N_to_string.
  destruct (digits_to_N_N_digits (N.to_nat (N.size n)) n EmptyString)
    as (ds & E & H).
  - rewrite N2Nat.id. apply N.size_gt.
  - rewrite E. rewrite H. cbn [digits_to_N]. lia.
Qed.

Lemma integer_index_N_to_string n : integer_index (N_to_string n) = Some n.
Proof.
  unfold integer_index.
  destruct (N_to_string n) eqn:E; [now apply N_to_string_nonempty in E|].
  rewrite <- E. rewrite all_digits_N_to_string, digits_to_N_N_to_string.
  now rewrite String.eqb_refl.
Qed.

Lemma N_to_string_inj a b : N_to_string a = N_to_string b -> a = b.
Proof.
  intros E. apply (f_equal integer_index) in E.
  rewrite !integer_index_N_to_string in E. congruence.
Qed.

(** The entries of a string are its characters under their indices. *)
Lemma lookup_string_entries s : forall i k x,
  lookup k (string_entries i s) = Some x ->
  exists j c, k = N_to_string j /\ (i <= j)%N
              /\ String.get (N.to_nat (j - i)) s = Some c
              /\ x = VStr (String c EmptyString).
Proof.
  induction s as [|c s IH]; intros i k x H; simpl in H; [discriminate|].
  destruct (String.eqb_spec (N_to_string i) k) as [E|E].
  - injection H as <-. exists i, c. repeat split; [now symmetry | lia |].
    now rewrite N.sub_diag.
  - destruct (IH _ _ _ H) as (j & c' & -> & Hle & Hg & ->).
    exists j, c'. repeat split; [lia|].
    replace (N.to_nat (j - i)) with (S (N.to_nat (j - (i + 1)))) by lia.
    exact Hg.
Qed.

(** A property of the copy is a property of the document. *)
Lemma get_prop_shallow_copy doc k c :
  get_prop (shallow_copy doc) k = Ok c ->
  c = VUndefined \/ (is_nullish doc = false /\ get_prop doc k = Ok c).
Proof.
  destruct doc; simpl; intros H.
  - injection H as <-. now left.
  - injection H as <-. now left.
  - injection H as <-. now left.
  - injection H as <-. now left.
  - unfold lookup_or_undefined in H.
    destruct (lookup k (string_entries 0 s)) as [x|] eqn:E.
    + right. split; [reflexivity|]. injection H as <-.
      destruct (lookup_string_entries _ _ _ _ E) as (j & ch & -> & _ & Hg & ->).
      rewrite integer_index_N_to_string. rewrite N.sub_0_r in Hg. now rewrite Hg.
    + injection H as <-. now left.
  - destruct (array_index k); [now right|].
    destruct (k =? "length")%string; [now right|].
    injection H as <-. now left.
  - now right.
Qed.

Lemma shallow_copy_container doc : is_container (shallow_copy doc) = true.
Proof. now destruct doc. Qed.

Lemma shallow_copy_array doc : is_array (shallow_copy doc) = is_array doc.
Proof. now destruct doc. Qed.

(** *** The positions of the claim *)

Lemma getAtPath_get_along doc q : getAtPath doc (Some q) = get_along doc q.
Proof. now destruct q. Qed.

Lemma intermediates_ok_spec doc p :
  intermediates_ok doc p = true ->
  forall i, 1 <= i <= List.length p - 1 ->
            absent_or_container (get_along doc (firstn i p)) = true.
Proof.
  unfold intermediates_ok. intros H i Hi.
  rewrite forallb_forall in H. rewrite <- getAtPath_get_along.
  apply H. apply in_seq. lia.
Qed.

Lemma absent_or_container_cases y :
  absent_or_container (Ok y) = true -> y = VUndefined \/ is_container y = true.
Proof. destruct y; simpl; auto; discriminate. Qed.

Lemma walkable_of_positions rest : forall cur seg,
  is_container cur = true ->
  (forall i, 1 <= i <= List.length rest ->
             absent_or_container (get_along cur (firstn i (seg :: rest))) = true) ->
  (forall items props,
      get_along cur (removelast (seg :: rest)) = Ok (VArr items props) ->
      key_of (last (seg :: rest) (SStr EmptyString)) <> "length") ->
  walkable cur seg rest.
Proof.
  induction rest as [|next rest' IH]; intros cur seg Hc Hint Hlen.
  - split; [exact Hc|]. intros [Ha El].
    destruct cur; try discriminate.
    now apply (Hlen items props eq_refl).
  - split; [exact Hc|].
    pose proof (container_not_nullish _ Hc) as Hn.
    destruct (get_prop_ok cur (key_of seg) Hn) as [y Hy].
    exists y. split; [exact Hy|].
    assert (H1 : absent_or_container (Ok y) = true).
    { specialize (Hint 1). simpl in Hint. rewrite Hn, Hy in Hint.
      apply Hint. lia. }
    destruct (absent_or_container_cases _ H1) as [->|Hyc]; [now left|].
    right. apply IH; [exact Hyc | |].
    + intros i Hi. specialize (Hint (S i)).
      change (firstn (S i) (seg :: next :: rest'))
        with (seg :: firstn i (next :: rest')) in Hint.
      rewrite (get_along_cons cur seg _ y Hn Hy) in Hint.
      apply Hint. simpl. lia.
    + intros items props Hg.
      change (removelast (seg :: next :: rest'))
        with (seg :: removelast (next :: rest')) in Hlen.
      change (last (seg :: next :: rest') (SStr EmptyString))
        with (last (next :: rest') (SStr EmptyString)) in Hlen.
      apply (Hlen items props).
      now rewrite (get_along_cons cur seg _ y Hn Hy).
Qed.

(** The copy [setAtPath] starts from can be written along a path of the
    claim. *)
Lemma walkable_shallow_copy doc seg rest :
  intermediates_ok doc (seg :: rest) = true ->
  writes_array_length doc (seg :: rest) = false ->
  walkable (shallow_copy doc) seg rest.
Proof.
  intros Hint Hlen.
  pose proof (intermediates_ok_spec _ _ Hint) as Hpos. clear Hint.
  unfold writes_array_length in Hlen. rewrite getAtPath_get_along in Hlen.
  destruct rest as [|next rest'].
  - split; [apply shallow_copy_container|].
    rewrite shallow_copy_array. intros [Ha El].
    destruct doc; try discriminate. simpl in Hlen. rewrite El in Hlen. discriminate.
  - split; [apply shallow_copy_container|].
    destruct (get_prop_ok (shallow_copy doc) (key_of seg)
                (container_not_nullish _ (shallow_copy_container doc))) as [c Hc].
    exists c. split; [exact Hc|].
    destruct (get_prop_shallow_copy _ _ _ Hc) as [->|[Hn Hg]]; [now left|].
    assert (H1 : absent_or_container (Ok c) = true).
    { specialize (Hpos 1). simpl in Hpos. rewrite Hn, Hg in Hpos.
      apply Hpos. lia. }
    destruct (absent_or_container_cases _ H1) as [->|Hcc]; [now left|].
    right. apply walkable_of_positions; [exact Hcc | |].
    + intros i Hi. specialize (Hpos (S i)).
      change (firstn (S i) (seg :: next :: rest'))
        with (seg :: firstn i (next :: rest')) in Hpos.
      rewrite (get_along_cons doc seg _ c Hn Hg) in Hpos.
      apply Hpos. simpl. lia.
    + intros items props Hga E.
      change (removelast (seg :: next :: rest'))
        with (seg :: removelast (next :: rest')) in Hlen.
      change (last (seg :: next :: rest') (SStr EmptyString))
        with (last (next :: rest') (SStr EmptyString)) in Hlen.
      rewrite (get_along_cons doc seg _ c Hn Hg) in Hlen.
      rewrite Hga, E in Hlen. discriminate.
Qed.

(** Writing then reading, for a path of the claim. *)
Lemma setAtPath_getAtPath doc p v :
  p <> [] -> intermediates_ok doc p = true ->
  writes_array_length doc p = false ->
  exists out, setAtPath doc (Some p) v = Ok out
              /\ is_container out = true
              /\ getAtPath out (Some p) = Ok v.
Proof.
  destruct p as [|seg rest]; intros Hne Hint Hlen; [contradiction|].
  destruct (set_along_get_along rest (shallow_copy doc) seg v
              (walkable_shallow_copy _ _ _ Hint Hlen))
    as (out & Hs & Hc & _ & Hg).
  exists out. repeat split; assumption.
Qed.

(** C8, as the code has it: for a document, a non-empty path whose
    intermediate positions in the document are each absent or a container
    and whose last segment does not address the [length] of an array, and a
    value [v], [setAtPath] returns and [getAtPath] reads [v] at that path in
    the result; for the empty (or missing) path [setAtPath] returns [v]
    itself. *)
Theorem setAtPath_then_getAtPath (doc v : value) :
  (forall p,
      p <> [] -> intermediates_ok doc p = true ->
      writes_array_length doc p = false ->
      exists out, setAtPath doc (Some p) v = Ok out
                  /\ getAtPath out (Some p) = Ok v)
  /\ setAtPath doc (Some []) v = Ok v
  /\ setAtPath doc None v = Ok v.
Proof.
  split; [|split; reflexivity].
  intros p Hne Hint Hlen.
  destruct (setAtPath_getAtPath doc p v Hne Hint Hlen) as (out & Hs & _ & Hg).
  exists out. split; assumption.
Qed.

Lemma setAtPath_then_getAtPath_witness :
  exists out,
    setAtPath (VObj [("a", VArr [VNull] [])])
      (Some [SStr "a"; SNum (Dec 2 0); SStr "b"]) (VBool true) = Ok out
    /\ getAtPath out (Some [SStr "a"; SNum (Dec 2 0); SStr "b"]) = Ok (VBool true).
Proof.
  apply (proj1 (setAtPath_then_getAtPath (VObj [("a", VArr [VNull] [])]) (VBool true)));
    [discriminate | reflexivity | reflexivity].
Defined.

(** C8 as stated fails where the last segment is the [length] of an
    array: the written value is turned into a length. *)
Lemma setAtPath_then_getAtPath_counterexample :
  [SStr "length"] <> []
  /\ intermediates_ok (VArr [VNull; VNull] []) [SStr "length"] = true
  /\ setAtPath (VArr [VNull; VNull] []) (Some [SStr "length"]) (VBool true)
     = Ok (VArr [VNull] [])
  /\ getAtPath (VArr [VNull] []) (Some [SStr "length"]) = Ok (VNum (Dec 1 0))
  /\ ~ (forall doc p v,
           p <> [] -> intermediates_ok doc p = true ->
           exists out, setAtPath doc (Some p) v = Ok out
                       /\ getAtPath out (Some p) = Ok v).
Proof.
  repeat split; try discriminate.
  intros H.
  destruct (H (VArr [VNull; VNull] []) [SStr "length"] (VBool true))
    as (out & Hs & Hg); [discriminate | reflexivity |].
  vm_compute in Hs. injection Hs as <-. vm_compute in Hg. discriminate.
Qed.

(** *** Reading after a write that returned *)


(** A write below a value that is neither an object nor an array throws. *)
Lemma set_along_scalar rest c seg v :
  is_container c = false -> set_along c seg rest v = Throw TypeError.
Proof.
  intros Hc. destruct rest as [|next rest']; cbn [set_along].
  - destruct c; try discriminate; reflexivity.
  - destruct (is_nullish c) eqn:En.
    + destruct c; try discriminate; reflexivity.
    + destruct (get_prop_ok c (key_of seg) En) as [old ->].
      destruct c; try discriminate; reflexivity.
Qed.

Lemma length_free_fresh rest : forall next,
  length_free (fresh_container next) next rest.
Proof.
  destruct rest as [|next2 rest']; intros next; simpl.
  - intros [Ha El]. unfold fresh_container in Ha.
    destruct (is_number_segment next) eqn:E; [|discriminate].
    now apply key_of_number_not_length in E.
  - intros c Hc Hn. rewrite fresh_container_get in Hc.
    + injection Hc as <-. discriminate.
    + intros E. now apply key_of_number_not_length.
Qed.


Lemma length_free_of_positions rest : forall cur seg,
  (forall items props,
      get_along cur (removelast (seg :: rest)) = Ok (VArr items props) ->
      key_of (last (seg :: rest) (SStr EmptyString)) <> "length") ->
  length_free cur seg rest.
Proof.
  induction rest as [|next rest' IH]; intros cur seg Hlen.
  - intros [Ha El]. destruct cur; try discriminate.
    now apply (Hlen items props eq_refl).
  - intros c Hc Hn. apply IH. intros items props Hg.
    change (removelast (seg :: next :: rest'))
      with (seg :: removelast (next :: rest')) in Hlen.
    change (last (seg :: next :: rest') (SStr EmptyString))
      with (last (next :: rest') (SStr EmptyString)) in Hlen.
    apply (Hlen items props).
    assert (Hcur : is_nullish cur = false) by (destruct cur; auto; discriminate).
    now rewrite (get_along_cons cur seg _ c Hcur Hc).
Qed.

Lemma length_free_shallow_copy doc seg rest :
  writes_array_length doc (seg :: rest) = false ->
  length_free (shallow_copy doc) seg rest.
Proof.
  intros Hlen. unfold writes_array_length in Hlen.
  rewrite getAtPath_get_along in Hlen.
  destruct rest as [|next rest'].
  - simpl. intros [Ha El]. rewrite shallow_copy_array in Ha.
    destruct doc; try discriminate. simpl in Hlen. rewrite El in Hlen. discriminate.
  - intros c Hc Hn.
    destruct (get_prop_shallow_copy _ _ _ Hc) as [->|[Hdoc Hg]]; [discriminate|].
    apply length_free_of_positions. intros items props Hga E.
    change (removelast (seg :: next :: rest'))
      with (seg :: removelast (next :: rest')) in Hlen.
    change (last (seg :: next :: rest') (SStr EmptyString))
      with (last (next :: rest') (SStr EmptyString)) in Hlen.
    rewrite (get_along_cons doc seg _ c Hdoc Hg) in Hlen.
    rewrite Hga, E in Hlen. discriminate.
Qed.


(** ** The text of [JSON.stringify] is JSON *)

Lemma skip_ws_app w s : ws_only w = true -> skip_ws (w ++ s) = skip_ws s.
Proof.
  induction w as [|c w IH]; simpl; [reflexivity|].
  intros H. apply andb_prop in H as [Hc Hw]. rewrite Hc. now apply IH.
Qed.

Lemma skip_ws_start c r : is_json_ws c = false -> skip_ws (String c r) = String c r.
Proof. simpl. now intros ->. Qed.

Lemma parse_value_skip fuel w s :
  ws_only w = true -> parse_value fuel (w ++ s) = parse_value fuel s.
Proof.
  intros H. destruct fuel as [|fuel]; [reflexivity|].
  cbn [parse_value]. now rewrite skip_ws_app.
Qed.

Lemma ws_only_app a b : ws_only (a ++ b) = ws_only a && ws_only b.
Proof.
  induction a as [|c a IH]; simpl; [reflexivity|].
  rewrite IH. now rewrite andb_assoc.
Qed.

Lemma value_start_not_ws c : value_start c = true -> is_json_ws c = false.
Proof.
  destruct (is_json_ws c) eqn:E; [|reflexivity].
  unfold is_json_ws in E. intros H.
  assert (Hc : c = " "%char \/ c = "009"%char \/ c = "010"%char \/ c = "013"%char).
  { repeat (apply orb_prop in E as [E|E]); apply N.eqb_eq in E;
      apply (f_equal ascii_of_N) in E; rewrite ascii_N_embedding in E; auto. }
  destruct Hc as [-> | [-> | [-> | ->]]]; discriminate.
Qed.

(** *** Strings *)

Lemma parse_chars_quote_char c s :
  parse_chars (quote_char c ++ s)
  = match parse_chars s with
    | Some (t, rest) => Some (String c t, rest)
    | None => None
    end.
Proof.
  destruct c as [b0 b1 b2 b3 b4 b5 b6 b7].
  destruct b0, b1, b2, b3, b4, b5, b6, b7; reflexivity.
Qed.

Lemma parse_chars_quote s : forall rest,
  parse_chars (quote_chars s ++ String dquote rest) = Some (s, rest).
Proof.
  induction s as [|c s IH]; intros rest.
  - reflexivity.
  - cbn [quote_chars]. rewrite append_assoc, parse_chars_quote_char.
    now rewrite IH.
Qed.

Lemma quote_append s rest :
  (quote s ++ rest)%string = String dquote (quote_chars s ++ String dquote rest).
Proof. unfold quote. simpl. now rewrite append_assoc. Qed.

(** *** The shape of the text *)

Lemma ser_arr gap ind items props :
  ser gap ind (VArr items props)
  = ser_block gap ind "[" "]" (map (ser gap (ind ++ gap)) items).
Proof. reflexivity. Qed.

Lemma ser_obj gap ind fields :
  ser gap ind (VObj fields)
  = ser_block gap ind "{" "}"
      (map (member_text gap (ind ++ gap)) (filter is_defined_member fields)).
Proof.
  cbn [ser]. f_equal.
  induction fields as [|[k x] fields IH]; [reflexivity|].
  unfold is_defined_member at 1. cbn [filter snd].
  destruct (is_undefined x); cbn [negb]; [exact IH|].
  cbn [map]. f_equal. exact IH.
Qed.

Lemma ser_block_nonempty gap ind opn cls parts :
  parts <> [] ->
  ser_block gap ind opn cls parts
  = (opn ++ block_pre gap ind
       ++ String.concat ("," ++ block_pre gap ind) parts
       ++ block_post gap ind ++ cls)%string.
Proof.
  intros Hne. unfold ser_block, block_pre, block_post.
  destruct parts as [|p parts]; [contradiction|].
  destruct (gap =? "")%string; reflexivity.
Qed.

Lemma ws_only_block_pre gap ind :
  ws_only gap = true -> ws_only ind = true -> ws_only (block_pre gap ind) = true.
Proof.
  intros Hg Hi. unfold block_pre. destruct (gap =? "")%string; [reflexivity|].
  cbn [ws_only]. rewrite ws_only_app, Hg, Hi. reflexivity.
Qed.

Lemma ws_only_block_post gap ind :
  ws_only ind = true -> ws_only (block_post gap ind) = true.
Proof.
  intros Hi. unfold block_post. destruct (gap =? "")%string; [reflexivity|].
  cbn [ws_only]. now rewrite Hi.
Qed.

Lemma concat_cons2 sep p q l :
  String.concat sep (p :: q :: l) = (p ++ sep ++ String.concat sep (q :: l))%string.
Proof. reflexivity. Qed.

Lemma length_concat_part sep parts p :
  In p parts -> String.length p <= String.length (String.concat sep parts).
Proof.
  induction parts as [|q [|q2 parts] IH]; intros Hin.
  - contradiction.
  - destruct Hin as [->|[]]. simpl. lia.
  - rewrite concat_cons2, !length_append.
    destruct Hin as [->|Hin]; [lia|]. specialize (IH Hin). lia.
Qed.

Lemma length_concat_count sep parts :
  (forall p, In p parts -> p <> EmptyString) ->
  List.length parts <= String.length (String.concat sep parts).
Proof.
  induction parts as [|q [|q2 parts] IH]; intros Hne.
  - simpl. lia.
  - assert (q <> EmptyString) by (apply Hne; now left).
    destruct q; [contradiction | simpl; lia].
  - rewrite concat_cons2, !length_append.
    assert (q <> EmptyString) by (apply Hne; now left).
    assert (List.length (q2 :: parts) <= String.length (String.concat sep (q2 :: parts))).
    { apply IH. intros p Hp. apply Hne. now right. }
    destruct q; [contradiction|]. simpl in *. lia.
Qed.

(** *** The first character of the text of a value *)

Lemma lex_json_number_head s y :
  lex_json_number s = Some y ->
  exists c r, s = String c r /\ (is_digit c = true \/ c = "-"%char).
Proof.
  destruct s as [|c r]; [discriminate|]. intros H. exists c, r. split; [reflexivity|].
  unfold lex_json_number in H.
  destruct (Ascii.eqb_spec c "-") as [->|_]; [now right|].
  unfold lex_json_unsigned in H. destruct (is_digit c); [now left | discriminate].
Qed.

Lemma ser_head gap ind v :
  exists c r, ser gap ind v = String c r /\ value_start c = true.
Proof.
  destruct v.
  - exists "n"%char, "ull". now split.
  - exists "n"%char, "ull". now split.
  - destruct b; [exists "t"%char, "rue" | exists "f"%char, "alse"]; now split.
  - destruct (lex_num_to_string n EmptyString eq_refl) as [y Hy].
    rewrite append_nil_r in Hy.
    destruct (lex_json_number_head _ _ Hy) as (c & r & E & Hc).
    exists c, r. split; [exact E|]. unfold value_start.
    destruct Hc as [-> | ->]; reflexivity.
  - eexists _, _. split; [reflexivity | reflexivity].
  - rewrite ser_arr. unfold ser_block.
    destruct (map _ items); [|destruct (gap =? "")%string];
      eexists _, _; (split; [reflexivity | reflexivity]).
  - rewrite ser_obj. unfold ser_block.
    destruct (map _ _); [|destruct (gap =? "")%string];
      eexists _, _; (split; [reflexivity | reflexivity]).
Qed.

Lemma ser_nonempty gap ind v : ser gap ind v <> EmptyString.
Proof. destruct (ser_head gap ind v) as (c & r & -> & _). discriminate. Qed.

Lemma value_start_facts c :
  value_start c = true ->
  (c =? "]")%char = false /\ (c =? "}")%char = false
  /\ (c =? ",")%char = false /\ (c =? ":")%char = false.
Proof.
  intros H. repeat split;
    match goal with
    | |- (c =? ?x)%char = false =>
        destruct (Ascii.eqb_spec c x) as [->|_]; [discriminate H | reflexivity]
    end.
Qed.

(** *** Elements and members *)

Lemma number_ends_comma s : number_ends (String "," s) = true.
Proof. reflexivity. Qed.

Lemma number_ends_post gap ind cls rest :
  ws_only ind = true -> cls = "]"%char \/ cls = "}"%char ->
  number_ends (block_post gap ind ++ String cls rest) = true.
Proof.
  intros _ Hc. unfold block_post.
  destruct (gap =? "")%string; [|reflexivity].
  destruct Hc as [-> | ->]; reflexivity.
Qed.

Lemma skip_ws_post gap ind cls rest :
  ws_only ind = true -> is_json_ws cls = false ->
  skip_ws (block_post gap ind ++ String cls rest) = String cls rest.
Proof.
  intros Hi Hc. rewrite skip_ws_app by now apply ws_only_block_post.
  now apply skip_ws_start.
Qed.

Lemma parse_elements_texts pv pre post rest :
  ws_only pre = true ->
  skip_ws (post ++ String "]" rest) = String "]" rest ->
  number_ends (post ++ String "]" rest) = true ->
  (forall s, pv (pre ++ s)%string = pv s) ->
  forall parts n,
    parts <> [] -> List.length parts <= n ->
    (forall p, In p parts ->
               forall rest', number_ends rest' = true ->
                             exists w, pv (p ++ rest')%string = Some (w, rest')) ->
    exists ws,
      parse_elements pv n
        (pre ++ String.concat ("," ++ pre) parts ++ post ++ String "]" rest)
      = Some (ws, rest).
Proof.
  intros Hpre Hskip Hend Hpv parts.
  induction parts as [|p [|q parts] IH]; intros n Hne Hn Hparts.
  - contradiction.
  - destruct n as [|n]; [simpl in Hn; lia|].
    cbn [parse_elements String.concat]. rewrite Hpv.
    destruct (Hparts p (or_introl eq_refl) _ Hend) as [w Hw].
    rewrite Hw, Hskip. cbn. eauto.
  - destruct n as [|n]; [simpl in Hn; lia|].
    cbn [parse_elements]. rewrite Hpv, concat_cons2.
    rewrite !append_assoc. cbn [append].
    destruct (Hparts p (or_introl eq_refl)
                (String ","
                   (pre ++ String.concat (String "," pre) (q :: parts)
                        ++ post ++ String "]" rest))
                (number_ends_comma _)) as [w Hw].
    rewrite Hw. cbn [skip_ws].
    change (is_json_ws ",") with false. cbv iota.
    change ("," =? ",")%char with true. cbv iota.
    destruct (IH n) as [ws Hws].
    + discriminate.
    + simpl in Hn |- *. lia.
    + intros p' Hp'. apply Hparts. now right.
    + change (String "," pre) with ("," ++ pre)%string. rewrite Hws. eauto.
Qed.

Lemma parse_members_texts pv gap ind' pre post rest :
  ws_only pre = true ->
  skip_ws (post ++ String "}" rest) = String "}" rest ->
  number_ends (post ++ String "}" rest) = true ->
  (forall w s, ws_only w = true -> pv (w ++ s)%string = pv s) ->
  forall kvs n acc,
    kvs <> [] -> List.length kvs <= n ->
    (forall kv, In kv kvs ->
                forall rest', number_ends rest' = true ->
                              exists w, pv (ser gap ind' (snd kv) ++ rest')%string
                                        = Some (w, rest')) ->
    exists fs,
      parse_members pv n
        (pre ++ String.concat ("," ++ pre) (map (member_text gap ind') kvs)
             ++ post ++ String "}" rest) acc
      = Some (fs, rest).
Proof.
  intros Hpre Hskip Hend Hpv kvs.
  assert (Hmember : forall kv tail,
             skip_ws (pre ++ member_text gap ind' kv ++ tail)
             = String dquote (quote_chars (fst kv)
                 ++ String dquote ((if (gap =? "")%string then ":" else ": ")
                                     ++ ser gap ind' (snd kv) ++ tail))).
  { intros kv tail. rewrite skip_ws_app by exact Hpre.
    unfold member_text. rewrite !append_assoc. rewrite quote_append.
    apply skip_ws_start. reflexivity. }
  assert (Hcolon : forall s,
             exists r2, skip_ws ((if (gap =? "")%string then ":" else ": ") ++ s)
                        = String ":" r2 /\ pv r2 = pv s).
  { intros s. destruct (gap =? "")%string.
    - exists s. split; reflexivity.
    - exists (" " ++ s)%string. split; [reflexivity|]. now apply Hpv. }
  induction kvs as [|kv [|kv2 kvs] IH]; intros n acc Hne Hn Hkvs.
  - contradiction.
  - destruct n as [|n]; [simpl in Hn; lia|].
    cbn [parse_members map String.concat].
    rewrite Hmember. cbv iota. change (dquote =? dquote)%char with true. cbv iota.
    rewrite parse_chars_quote.
    destruct (Hcolon (ser gap ind' (snd kv) ++ post ++ String "}" rest)%string)
      as (r2 & -> & Hr2).
    change (":" =? ":")%char with true. cbv iota. rewrite Hr2.
    destruct (Hkvs kv (or_introl eq_refl) _ Hend) as [w Hw].
    rewrite Hw, Hskip. cbn. eauto.
  - destruct n as [|n]; [simpl in Hn; lia|].
    cbn [parse_members map]. rewrite concat_cons2.
    change (member_text gap ind' kv2 :: map (member_text gap ind') kvs)
      with (map (member_text gap ind') (kv2 :: kvs)).
    rewrite !append_assoc. rewrite Hmember. cbv iota.
    change (dquote =? dquote)%char with true. cbv iota.
    rewrite parse_chars_quote.
    match goal with
    | |- context [skip_ws ((if (gap =? "")%string then ":" else ": ") ++ ?s)] =>
        destruct (Hcolon s) as (r2 & -> & Hr2)
    end.
    change (":" =? ":")%char with true. cbv iota. rewrite Hr2.
    cbn [append].
    destruct (Hkvs kv (or_introl eq_refl)
                (String ","
                   (pre ++ String.concat (String "," pre)
                             (map (member_text gap ind') (kv2 :: kvs))
                        ++ post ++ String "}" rest))
                (number_ends_comma _)) as [w Hw].
    rewrite Hw. cbn [skip_ws].
    change (is_json_ws ",") with false. cbv iota.
    change ("," =? ",")%char with true. cbv iota.
    destruct (IH n (obj_set (fst kv) w acc)) as [fs Hfs].
    + discriminate.
    + simpl in Hn |- *. lia.
    + intros kv' Hkv'. apply Hkvs. now right.
    + change (String "," pre) with ("," ++ pre)%string. rewrite Hfs. eauto.
Qed.

(** *** Values *)

Lemma prefix_nil s : String.prefix EmptyString s = true.
Proof. now destruct s. Qed.

Lemma prefix_digit_false a p c r :
  is_digit c = true -> is_digit a = false ->
  starts_with (String a p) (String c r) = false.
Proof.
  intros Hc Ha. unfold starts_with. cbn [String.prefix].
  destruct (ascii_dec a c) as [->|_]; [congruence | reflexivity].
Qed.

Lemma parse_value_number fuel s y rest :
  lex_json_number s = Some (y, rest) ->
  parse_value (S fuel) s = Some (VNum y, rest).
Proof.
  intros H. destruct (lex_json_number_head _ _ H) as (c & r & -> & Hc).
  cbn [parse_value].
  destruct Hc as [Hd | ->].
  - rewrite skip_ws_start
      by (apply value_start_not_ws; unfold value_start; now rewrite Hd).
    rewrite !(digit_differs c _ Hd) by reflexivity.
    rewrite !(prefix_digit_false _ _ _ _ Hd) by reflexivity.
    now rewrite H.
  - cbn. cbn in H. now rewrite H.
Qed.

Lemma concat_head sep p l c r0 tail :
  p = String c r0 ->
  exists r1, (String.concat sep (p :: l) ++ tail)%string = String c r1.
Proof.
  intros ->. destruct l as [|q l]; cbn [String.concat append]; eauto.
Qed.

Lemma length_ser_block_part gap ind opn cls parts p :
  In p parts ->
  String.length p + String.length opn + String.length cls
  <= String.length (ser_block gap ind opn cls parts).
Proof.
  intros Hin. rewrite ser_block_nonempty by (intros ->; contradiction).
  rewrite !length_append.
  pose proof (length_concat_part ("," ++ block_pre gap ind) parts p Hin). lia.
Qed.

(** The text of a value is read back as one value, up to the text that
    follows it. *)
Lemma parse_value_ser v : forall gap ind rest fuel,
  ws_only gap = true -> ws_only ind = true ->
  String.length (ser gap ind v) < fuel ->
  number_ends rest = true ->
  exists w, parse_value fuel (ser gap ind v ++ rest) = Some (w, rest).
Proof.
  induction v as [ | | b | n | s | items props IHitems _ | fields IHfields]
    using value_nested_ind;
    intros gap ind rest fuel Hgap Hind Hfuel Hrest;
    (destruct fuel as [|fuel]; [lia|]).
  - exists VNull. cbn. now rewrite prefix_nil.
  - exists VNull. cbn. now rewrite prefix_nil.
  - exists (VBool b). destruct b; cbn; now rewrite prefix_nil.
  - destruct (lex_num_to_string n rest Hrest) as [y Hy].
    exists (VNum y). now apply parse_value_number.
  - exists (VStr s). cbn [ser]. rewrite quote_append.
    cbn [parse_value]. rewrite skip_ws_start by reflexivity.
    change (dquote =? "{")%char with false. change (dquote =? "[")%char with false.
    change (dquote =? dquote)%char with true. cbv iota.
    now rewrite parse_chars_quote.
  - (* arrays *)
    rewrite ser_arr in *.
    destruct items as [|x xs]; [exists (VArr [] []); reflexivity|].
    set (ind' := (ind ++ gap)%string) in *.
    set (parts := map (ser gap ind') (x :: xs)) in *.
    assert (Hparts_ne : parts <> []) by discriminate.
    assert (Hind' : ws_only ind' = true)
      by (subst ind'; rewrite ws_only_app, Hind, Hgap; reflexivity).
    rewrite (ser_block_nonempty gap ind "[" "]" parts Hparts_ne) in *.
    rewrite !append_assoc. cbn [append].
    set (pre := block_pre gap ind) in *. set (post := block_post gap ind) in *.
    set (r := (pre ++ String.concat (String "," pre) parts
                   ++ post ++ String "]" rest)%string).
    cbn [parse_value]. rewrite skip_ws_start by reflexivity.
    change ("[" =? "{")%char with false. change ("[" =? "[")%char with true.
    cbv iota.
    destruct (ser_head gap ind' x) as (c & r0 & Ex & Hc).
    destruct (concat_head (String "," pre) (ser gap ind' x) (map (ser gap ind') xs)
                c r0 (post ++ String "]" rest) Ex) as [r1 Er1].
    assert (Hskip : skip_ws r = String c r1).
    { subst r. rewrite skip_ws_app by (apply ws_only_block_pre; assumption).
      subst parts. cbn [map]. fold pre. rewrite Er1.
      apply skip_ws_start. now apply value_start_not_ws. }
    rewrite Hskip. destruct (value_start_facts c Hc) as (-> & _).
    assert (Hpre : ws_only pre = true) by (apply ws_only_block_pre; assumption).
    destruct (parse_elements_texts (parse_value fuel) pre post rest Hpre
                (skip_ws_post gap ind "]" rest Hind eq_refl)
                (number_ends_post gap ind "]" rest Hind (or_introl eq_refl))
                (fun s => parse_value_skip fuel pre s Hpre)
                parts (String.length r) Hparts_ne) as [ws Hws].
    + subst r. rewrite !length_append.
      pose proof (length_concat_count (String "," pre) parts) as Hcount.
      assert (List.length parts
              <= String.length (String.concat (String "," pre) parts)).
      { apply Hcount. intros p Hp. unfold parts in Hp.
        apply in_map_iff in Hp as (y & <- & _). apply ser_nonempty. }
      lia.
    + intros p Hp rest' Hrest'.
      pose proof (length_ser_block_part gap ind "[" "]" parts p Hp) as Hlen.
      unfold parts in Hp. apply in_map_iff in Hp as (y & <- & Hy).
      rewrite Forall_forall in IHitems.
      apply (IHitems y Hy gap ind' rest' fuel Hgap Hind'); [|exact Hrest'].
      rewrite (ser_block_nonempty gap ind "[" "]" parts Hparts_ne) in Hlen.
      fold pre post in Hlen. simpl String.length in Hlen at 2 3. lia.
    + change (parse_elements (parse_value fuel) (String.length r) r
              = Some (ws, rest)) in Hws.
      rewrite Hws. eauto.
  - (* objects *)
    rewrite ser_obj in *.
    set (ind' := (ind ++ gap)%string) in *.
    destruct (filter is_defined_member fields) as [|kv kvs] eqn:Ef;
      [exists (VObj []); reflexivity|].
    set (parts := map (member_text gap ind') (kv :: kvs)) in *.
    assert (Hparts_ne : parts <> []) by discriminate.
    assert (Hind' : ws_only ind' = true)
      by (subst ind'; rewrite ws_only_app, Hind, Hgap; reflexivity).
    rewrite (ser_block_nonempty gap ind "{" "}" parts Hparts_ne) in *.
    rewrite !append_assoc. cbn [append].
    set (pre := block_pre gap ind) in *. set (post := block_post gap ind) in *.
    set (r := (pre ++ String.concat (String "," pre) parts
                   ++ post ++ String "}" rest)%string).
    cbn [parse_value]. rewrite skip_ws_start by reflexivity.
    change ("{" =? "{")%char with true. cbv iota.
    assert (Hskip : exists r1, skip_ws r = String dquote r1).
    { subst r. rewrite skip_ws_app by (apply ws_only_block_pre; assumption).
      subst parts. cbn [map].
      destruct (concat_head (String "," pre) (member_text gap ind' kv)
                  (map (member_text gap ind') kvs) dquote
                  (quote_chars (fst kv) ++ String dquote
                     ((if (gap =? "")%string then ":" else ": ")
                        ++ ser gap ind' (snd kv)))%string
                  (post ++ String "}" rest))
        as [r1 Er1].
      { unfold member_text. now rewrite quote_append. }
      exists r1. rewrite Er1. now apply skip_ws_start. }
    destruct Hskip as [r1 ->].
    change (dquote =? "}")%char with false. cbv iota.
    assert (Hpre : ws_only pre = true) by (apply ws_only_block_pre; assumption).
    assert (Hkvs_ne : kv :: kvs <> []) by discriminate.
    destruct (parse_members_texts (parse_value fuel) gap ind' pre post rest Hpre
                (skip_ws_post gap ind "}" rest Hind eq_refl)
                (number_ends_post gap ind "}" rest Hind (or_intror eq_refl))
                (fun w s Hw => parse_value_skip fuel w s Hw)
                (kv :: kvs) (String.length r) [] Hkvs_ne) as [fs Hfs].
    + subst r. rewrite !length_append.
      pose proof (length_concat_count (String "," pre) parts) as Hcount.
      assert (List.length parts
              <= String.length (String.concat (String "," pre) parts)).
      { apply Hcount. intros p Hp. unfold parts in Hp.
        apply in_map_iff in Hp as (y & <- & _). unfold member_text, quote.
        discriminate. }
      unfold parts in H at 1. rewrite length_map in H. lia.
    + intros kv' Hkv' rest' Hrest'.
      assert (Hin : In kv' fields).
      { assert (In kv' (filter is_defined_member fields)) by (rewrite Ef; exact Hkv').
        now apply filter_In in H. }
      rewrite Forall_forall in IHfields.
      apply (IHfields kv' Hin gap ind' rest' fuel Hgap Hind'); [|exact Hrest'].
      pose proof (length_ser_block_part gap ind "{" "}" parts
                    (member_text gap ind' kv') (in_map _ _ _ Hkv')) as Hlen.
      rewrite (ser_block_nonempty gap ind "{" "}" parts Hparts_ne) in Hlen.
      fold pre post in Hlen. simpl String.length in Hlen at 2 3.
      assert (String.length (ser gap ind' (snd kv'))
              <= String.length (member_text gap ind' kv'))
        by (unfold member_text; rewrite !length_append; lia).
      lia.
    + change (parse_members (parse_value fuel) (String.length r) r []
              = Some (fs, rest)) in Hfs.
      rewrite Hfs. eauto.
Qed.

(** The text [JSON.stringify] gives for a value parses. *)
Lemma JSON_parse_stringify gap v text :
  ws_only gap = true -> JSON_stringify gap v = Some text ->
  exists w, JSON_parse text = Ok w.
Proof.
  unfold JSON_stringify. intros Hgap H.
  destruct (is_undefined v); [discriminate|]. injection H as <-.
  destruct (parse_value_ser v gap EmptyString EmptyString
              (S (String.length (ser gap EmptyString v))) Hgap eq_refl)
    as [w Hw]; [lia | reflexivity |].
  rewrite append_nil_r in Hw.
  exists w. unfold JSON_parse. now rewrite Hw.
Qed.

(** ** The save handler *)

(** *** What [JSON.parse] returns *)

Lemma parse_value_defined fuel s v rest :
  parse_value fuel s = Some (v, rest) -> is_undefined v = false.
Proof.
  destruct fuel as [|fuel]; [discriminate|]. cbn [parse_value].
  destruct (skip_ws s) as [|c r]; [discriminate|].
  repeat match goal with
         | |- context [if ?b then _ else _] => destruct b
         | |- context [match ?x with _ => _ end] => destruct x
         end;
    intros H; try discriminate; now injection H as <- _.
Qed.

Lemma JSON_parse_defined text v : JSON_parse text = Ok v -> is_undefined v = false.
Proof.
  unfold JSON_parse.
  destruct (parse_value _ text) as [[w rest]|] eqn:E; [|discriminate].
  destruct (skip_ws rest); [|discriminate].
  intros H. injection H as <-. eapply parse_value_defined; eassumption.
Qed.

Lemma parse_or_string_defined text : is_undefined (parse_or_string text) = false.
Proof.
  unfold parse_or_string. destruct (JSON_parse text) eqn:E; [|reflexivity].
  eapply JSON_parse_defined; eassumption.
Qed.

Lemma parse_or_string_throw text e :
  JSON_parse text = Throw e -> parse_or_string text = VStr text.
Proof. unfold parse_or_string. now intros ->. Qed.

Lemma parse_or_string_ok text v :
  JSON_parse text = Ok v -> parse_or_string text = v.
Proof. unfold parse_or_string. now intros ->. Qed.

(** *** Carrying [details] and [nutrients] over *)

(** A key that is neither an array index nor [length]. *)
Lemma get_prop_set_prop_other cur k k' v out :
  is_container cur = true ->
  array_index k = None -> k <> "length" ->
  array_index k' = None -> k' <> "length" -> k <> k' ->
  set_prop cur k v = Ok out -> get_prop out k' = get_prop cur k'.
Proof.
  intros Hc Hk Hl Hk' Hl' Hne.
  destruct cur; try discriminate; simpl.
  - rewrite Hk. destruct (String.eqb_spec k "length"); [contradiction|].
    intros H. injection H as <-. simpl. rewrite Hk'.
    destruct (String.eqb_spec k' "length"); [contradiction|].
    unfold lookup_or_undefined. rewrite lookup_obj_set.
    destruct (String.eqb_spec k k'); [contradiction | reflexivity].
  - intros H. injection H as <-. simpl.
    unfold lookup_or_undefined. rewrite lookup_obj_set.
    destruct (String.eqb_spec k k'); [contradiction | reflexivity].
Qed.

Lemma carry_over_spec k existingValue newValue :
  is_container existingValue = true -> is_container newValue = true ->
  array_index k = None -> k <> "length" ->
  exists d n nv,
    get_prop existingValue k = Ok d /\ get_prop newValue k = Ok n
    /\ carry_over k existingValue newValue = Ok nv
    /\ is_container nv = true
    /\ get_prop nv k = Ok (if truthy d && is_undefined n then d else n)
    /\ (truthy d && is_undefined n = false -> nv = newValue)
    /\ forall k', array_index k' = None -> k' <> "length" -> k <> k' ->
                  get_prop nv k' = get_prop newValue k'.
Proof.
  intros He Hn Hk Hl.
  destruct (get_prop_ok existingValue k (container_not_nullish _ He)) as [d Hd].
  destruct (get_prop_ok newValue k (container_not_nullish _ Hn)) as [n Hnk].
  exists d, n. unfold carry_over. rewrite Hd. simpl bind.
  destruct (truthy d) eqn:Et; simpl andb.
  - rewrite Hnk. simpl bind. destruct (is_undefined n) eqn:Eu.
    + destruct (get_set_prop newValue k d Hn) as (nv & Hs & Hc & _ & Hg);
        [intros [_ E]; contradiction|].
      exists nv. repeat split; try assumption; try discriminate.
      intros k' Hk' Hl' Hne.
      eapply get_prop_set_prop_other with (k := k); eassumption.
    + exists newValue. repeat split; auto.
  - exists newValue. repeat split; auto.
Qed.

Lemma preserve_ok existingValue newValue :
  exists merged, preserve existingValue newValue = Ok merged
                 /\ (is_undefined newValue = false -> is_undefined merged = false).
Proof.
  unfold preserve.
  destruct (truthy existingValue && typeof_object existingValue
            && negb (is_null existingValue)
            && typeof_object newValue && negb (is_null newValue)) eqn:C;
    [|eauto].
  repeat (apply andb_prop in C as [C ?]).
  assert (He : is_container existingValue = true) by (destruct existingValue; auto; discriminate).
  assert (Hn : is_container newValue = true) by (destruct newValue; auto; discriminate).
  destruct (carry_over_spec "details" existingValue newValue He Hn eq_refl)
    as (d & n & nv & _ & _ & Hco & Hc & _); [discriminate|].
  rewrite Hco. simpl bind.
  destruct (carry_over_spec "nutrients" existingValue nv He Hc eq_refl)
    as (d2 & n2 & nv2 & _ & _ & Hco2 & Hc2 & _); [discriminate|].
  exists nv2. split; [exact Hco2|]. intros _. now destruct nv2.
Qed.


Lemma setAtPath_defined doc path v out :
  setAtPath doc path v = Ok out -> is_undefined v = false ->
  is_undefined out = false.
Proof.
  destruct path as [[|seg rest]|]; simpl.
  - intros H. now injection H as <-.
  - intros H _. destruct rest as [|next rest'].
    + simpl in H. destruct (shallow_copy doc); try discriminate; simpl in H.
      * repeat match type of H with
               | context [match ?x with _ => _ end] => destruct x
               | context [if ?x then _ else _] => destruct x
               end; try discriminate; now injection H as <-.
      * now injection H as <-.
    + cbn [set_along] in H.
      destruct (get_prop (shallow_copy doc) (key_of seg)) as [old|]; [|discriminate].
      simpl bind in H.
      destruct (set_prop (shallow_copy doc) (key_of seg) _) as [cur1|]; [|discriminate].
      simpl bind in H.
      destruct (get_prop cur1 (key_of seg)) as [child|]; [|discriminate].
      simpl bind in H.
      destruct (set_along child next rest' v) as [child'|]; [|discriminate].
      simpl bind in H.
      destruct cur1; try discriminate; simpl in H.
      * repeat match type of H with
               | context [match ?x with _ => _ end] => destruct x
               | context [if ?x then _ else _] => destruct x
               end; try discriminate; now injection H as <-.
      * now injection H as <-.
  - intros H. now injection H as <-.
Qed.

(** The [try] block throws where [JSON.parse] or [setAtPath] does. *)
Lemma patched_document_cases current path newValue :
  (exists e, JSON_parse (text_of current) = Throw e
             /\ patched_document current path newValue = Throw e)
  \/ exists parsed existingValue merged,
       JSON_parse (text_of current) = Ok parsed
       /\ getAtPath parsed path = Ok existingValue
       /\ preserve existingValue newValue = Ok merged
       /\ patched_document current path newValue = setAtPath parsed path merged.
Proof.
  unfold patched_document.
  destruct (JSON_parse (text_of current)) as [parsed|e] eqn:Ep.
  - right. simpl bind.
    destruct (getAtPath_ok parsed path) as [existingValue Hg].
    destruct (preserve_ok existingValue newValue) as (merged & Hm & _).
    exists parsed, existingValue, merged.
    rewrite Hg. simpl bind. rewrite Hm. simpl bind.
    repeat split; assumption || reflexivity.
  - left. exists e. auto.
Qed.

(** *** The two outcomes of a save *)

Lemma text_save_throw build_nodes st nodeData m e :
  selectedNode st = Some nodeData ->
  patched_document (getContents st) (node_path nodeData)
    (parse_or_string (TextModal.editedText m)) = Throw e ->
  TextModal.handleSave build_nodes st m = (console_error save_failed e st, m).
Proof. intros Hs Hp. unfold TextModal.handleSave. now rewrite Hs, Hp. Qed.

Lemma fields_save_throw build_nodes st nodeData m e :
  selectedNode st = Some nodeData ->
  patched_document (getContents st) (node_path nodeData)
    (FieldsModal.new_value m) = Throw e ->
  FieldsModal.handleSave build_nodes st m = (console_error save_failed e st, m).
Proof. intros Hs Hp. unfold FieldsModal.handleSave. now rewrite Hs, Hp. Qed.

Lemma text_save_ok build_nodes st nodeData m updated :
  selectedNode st = Some nodeData ->
  patched_document (getContents st) (node_path nodeData)
    (parse_or_string (TextModal.editedText m)) = Ok updated ->
  TextModal.handleSave build_nodes st m
  = (publish build_nodes nodeData updated st, closed_text_modal).
Proof. intros Hs Hp. unfold TextModal.handleSave. now rewrite Hs, Hp. Qed.

Lemma fields_save_ok build_nodes st nodeData m updated :
  selectedNode st = Some nodeData ->
  patched_document (getContents st) (node_path nodeData)
    (FieldsModal.new_value m) = Ok updated ->
  FieldsModal.handleSave build_nodes st m
  = (publish build_nodes nodeData updated st, closed_fields_modal).
Proof. intros Hs Hp. unfold FieldsModal.handleSave. now rewrite Hs, Hp. Qed.

Lemma throws_before_write_patched current path newValue e :
  throws_before_write current path newValue e ->
  patched_document current path newValue = Throw e.
Proof.
  unfold patched_document.
  intros [H | (parsed & existingValue & merged & Hp & Hg & Hm & Hs)].
  - now rewrite H.
  - rewrite Hp. simpl bind. rewrite Hg. simpl bind. rewrite Hm. exact Hs.
Qed.

Lemma patched_document_ok current path newValue parsed existingValue merged :
  JSON_parse (text_of current) = Ok parsed ->
  getAtPath parsed path = Ok existingValue ->
  preserve existingValue newValue = Ok merged ->
  patched_document current path newValue = setAtPath parsed path merged.
Proof.
  intros Hp Hg Hm. unfold patched_document.
  rewrite Hp. simpl bind. rewrite Hg. simpl bind. now rewrite Hm.
Qed.

Lemma publish_stores build_nodes nodeData updated st :
  let newStr := JSON_stringify gap2 updated in
  let st' := publish build_nodes nodeData updated st in
  file_contents st' = newStr /\ file_hasChanges st' = true
  /\ json st' = newStr /\ nodes st' = build_nodes newStr
  /\ selectedNode st'
     = match node_of_same_path nodeData (build_nodes newStr) with
       | Some t => Some t
       | None => selectedNode st
       end
  /\ console st' = console st.
Proof.
  unfold publish, node_of_same_path. simpl.
  destruct (find _ (build_nodes (JSON_stringify gap2 updated)));
    repeat split; reflexivity.
Qed.

(** C10: when the [try] block throws before the write ([JSON.parse] of
    the current text or [setAtPath] throws), the save leaves the file
    store, the JSON store and the graph store as they were, in both
    variants of the modal. *)
Theorem save_failure_leaves_stores
  (build_nodes : option string -> list NodeData) (st : stores)
  (nodeData : NodeData) (e : error) :
  selectedNode st = Some nodeData ->
  (forall m,
      throws_before_write (getContents st) (node_path nodeData)
        (parse_or_string (TextModal.editedText m)) e ->
      same_documents (fst (TextModal.handleSave build_nodes st m)) st)
  /\ (forall m,
         throws_before_write (getContents st) (node_path nodeData)
           (FieldsModal.new_value m) e ->
         same_documents (fst (FieldsModal.handleSave build_nodes st m)) st).
Proof.
  intros Hs. split; intros m Ht; apply throws_before_write_patched in Ht.
  - rewrite (text_save_throw build_nodes st nodeData m e Hs Ht).
    repeat split.
  - rewrite (fields_save_throw build_nodes st nodeData m e Hs Ht).
    repeat split.
Qed.

Lemma save_failure_leaves_stores_witness :
  same_documents
    (fst (TextModal.handleSave example_graph
            (example_stores (jq "{'a': 5}") (Some [SStr "a"; SStr "b"]))
            (text_modal "7")))
    (example_stores (jq "{'a': 5}") (Some [SStr "a"; SStr "b"])).
Proof.
  apply (proj1 (save_failure_leaves_stores example_graph
                  (example_stores (jq "{'a': 5}") (Some [SStr "a"; SStr "b"]))
                  (example_node (Some [SStr "a"; SStr "b"])) TypeError eq_refl)).
  right.
  exists (VObj [("a", VNum (Dec 5 0))]), VUndefined, (VNum (Dec 7 0)).
  repeat split; reflexivity.
Defined.

(** C2: at a document that does not parse, the save logs the error and
    stays in edit mode with the edited text, in both variants: the modal is
    as it was, where the claim and the comment of the [catch] block have it
    leave edit mode. *)
Theorem save_failure_stays_in_edit_mode :
  let st := example_stores "{" (Some [SStr "a"]) in
  TextModal.handleSave example_graph st (text_modal "1")
  = (console_error save_failed SyntaxError st, text_modal "1")
  /\ TextModal.editing (snd (TextModal.handleSave example_graph st (text_modal "1")))
     = true
  /\ FieldsModal.handleSave example_graph st (fields_modal [("a", "1")] None)
     = (console_error save_failed SyntaxError st, fields_modal [("a", "1")] None)
  /\ FieldsModal.editing
       (snd (FieldsModal.handleSave example_graph st (fields_modal [("a", "1")] None)))
     = true.
Proof. repeat split; reflexivity. Qed.

(** The modal stays as it was on every failure of a save. *)
Lemma save_failure_keeps_modal build_nodes st nodeData e :
  selectedNode st = Some nodeData ->
  (forall m,
      patched_document (getContents st) (node_path nodeData)
        (parse_or_string (TextModal.editedText m)) = Throw e ->
      snd (TextModal.handleSave build_nodes st m) = m)
  /\ (forall m,
         patched_document (getContents st) (node_path nodeData)
           (FieldsModal.new_value m) = Throw e ->
         snd (FieldsModal.handleSave build_nodes st m) = m).
Proof.
  intros Hs. split; intros m Hp.
  - now rewrite (text_save_throw build_nodes st nodeData m e Hs Hp).
  - now rewrite (fields_save_throw build_nodes st nodeData m e Hs Hp).
Qed.

(** *** The object built from the fields *)

Lemma lookup_fold_fields fs : forall acc k,
  ~ In k (map fst fs) ->
  lookup k (fold_left (fun obj kv => obj_set (fst kv) (parse_or_string (snd kv)) obj)
              fs acc)
  = lookup k acc.
Proof.
  induction fs as [|[k0 t0] fs IH]; intros acc k Hk; simpl; [reflexivity|].
  simpl in Hk. rewrite IH by tauto. rewrite lookup_obj_set.
  destruct (String.eqb_spec k0 k); [tauto | reflexivity].
Qed.

(** Each field is in the object under its key, parsed, or as the string
    it is when it does not parse. *)
Lemma fields_object_get fs k t :
  NoDup (map fst fs) -> In (k, t) fs ->
  get_prop (FieldsModal.fields_object fs) k = Ok (parse_or_string t).
Proof.
  unfold FieldsModal.fields_object. simpl. unfold lookup_or_undefined.
  generalize (@nil (string * value)) as acc.
  induction fs as [|[k0 t0] fs IH]; intros acc Hnd Hin; [contradiction|].
  simpl in Hnd. apply NoDup_cons_iff in Hnd as [Hk0 Hnd].
  destruct Hin as [E|Hin].
  - injection E as -> ->. simpl.
    rewrite lookup_fold_fields by exact Hk0.
    now rewrite lookup_obj_set_same.
  - simpl. now apply IH.
Qed.

(** *** Saving text that is not JSON *)



(** *** Saving text that is JSON *)

Lemma same_text_eq a b : same_text a b = true -> a = b.
Proof.
  destruct a as [x|], b as [y|]; simpl; intros H; try discriminate; auto.
  apply String.eqb_eq in H. now subst.
Qed.




(** *** [details] and [nutrients] *)

(** The copy can be written along a path at whose end the document holds
    an object or an array. *)
Lemma walkable_shallow_copy_of_read doc seg rest c :
  get_along doc (seg :: rest) = Ok c -> is_container c = true ->
  walkable (shallow_copy doc) seg rest.
Proof.
  intros Hg Hc.
  assert (Hd : is_container doc = true).
  { destruct (is_container doc) eqn:E; [reflexivity|].
    apply get_along_below_scalar in Hg; [congruence | discriminate | exact E]. }
  pose proof (container_not_nullish _ Hd) as Hn.
  destruct rest as [|next rest'].
  - split; [apply shallow_copy_container|].
    rewrite shallow_copy_array. intros [Ha El].
    destruct doc; try discriminate. simpl in Hg. rewrite El in Hg.
    simpl in Hg. injection Hg as <-. discriminate.
  - split; [apply shallow_copy_container|].
    destruct (get_prop_ok (shallow_copy doc) (key_of seg)
                (container_not_nullish _ (shallow_copy_container doc))) as [y Hy].
    exists y. split; [exact Hy|].
    destruct (get_prop_shallow_copy _ _ _ Hy) as [->|[_ Hgy]]; [now left|].
    right. rewrite (get_along_cons doc seg _ y Hn Hgy) in Hg.
    destruct (is_container y) eqn:Ey.
    + eapply walkable_of_read; eassumption.
    + apply get_along_below_scalar in Hg; [congruence | discriminate | exact Ey].
Qed.

(** A value set where the document holds an object or an array is read
    back there. *)
Lemma setAtPath_over_container doc path c v :
  getAtPath doc path = Ok c -> is_container c = true ->
  exists out, setAtPath doc path v = Ok out /\ getAtPath out path = Ok v.
Proof.
  destruct path as [[|seg rest]|]; intros Hg Hc.
  - exists v. split; reflexivity.
  - rewrite getAtPath_get_along in Hg.
    destruct (set_along_get_along rest (shallow_copy doc) seg v
                (walkable_shallow_copy_of_read _ _ _ _ Hg Hc))
      as (out & Hs & _ & _ & Hr).
    exists out. split; [exact Hs | exact Hr].
  - exists v. split; reflexivity.
Qed.

Lemma preserve_containers existingValue newValue :
  is_container existingValue = true -> is_container newValue = true ->
  preserve existingValue newValue
  = (nv <- carry_over "details" existingValue newValue ;;
     carry_over "nutrients" existingValue nv).
Proof.
  intros He Hn. unfold preserve.
  destruct existingValue; try discriminate;
    destruct newValue; try discriminate; reflexivity.
Qed.





(** *** The saved text *)

Lemma patched_document_defined current path newValue updated :
  is_undefined newValue = false ->
  patched_document current path newValue = Ok updated ->
  is_undefined updated = false.
Proof.
  intros Hn H.
  destruct (patched_document_cases current path newValue)
    as [(e & _ & He) | (parsed & existingValue & merged & _ & _ & Hm & Hp)].
  - congruence.
  - rewrite Hp in H.
    destruct (preserve_ok existingValue newValue) as (merged' & Hm' & Hd).
    rewrite Hm in Hm'. injection Hm' as <-.
    eapply setAtPath_defined; [exact H | now apply Hd].
Qed.

Lemma new_value_defined m : is_undefined (FieldsModal.new_value m) = false.
Proof.
  unfold FieldsModal.new_value.
  destruct (FieldsModal.editedSingleValue m); [apply parse_or_string_defined|].
  reflexivity.
Qed.

Lemma published_text_is_json build_nodes nodeData updated st :
  is_undefined updated = false ->
  exists text w,
    file_contents (publish build_nodes nodeData updated st) = Some text
    /\ json (publish build_nodes nodeData updated st) = Some text
    /\ JSON_parse text = Ok w.
Proof.
  intros Hu.
  destruct (publish_stores build_nodes nodeData updated st) as (Hc & _ & Hj & _).
  assert (Hs : JSON_stringify gap2 updated = Some (ser gap2 EmptyString updated))
    by (unfold JSON_stringify; now rewrite Hu).
  destruct (JSON_parse_stringify gap2 updated _ eq_refl Hs) as [w Hw].
  exists (ser gap2 EmptyString updated), w.
  rewrite Hc, Hj, Hs. auto.
Qed.

(** C5: after a save that goes through, in both variants of the modal,
    the file store and the JSON store hold one and the same text, and
    [JSON.parse] returns on it. *)
Theorem saved_text_is_json
  (build_nodes : option string -> list NodeData) (st : stores)
  (nodeData : NodeData) :
  selectedNode st = Some nodeData ->
  (forall m updated,
      patched_document (getContents st) (node_path nodeData)
        (parse_or_string (TextModal.editedText m)) = Ok updated ->
      exists text w,
        file_contents (fst (TextModal.handleSave build_nodes st m)) = Some text
        /\ json (fst (TextModal.handleSave build_nodes st m)) = Some text
        /\ JSON_parse text = Ok w)
  /\ (forall m updated,
         patched_document (getContents st) (node_path nodeData)
           (FieldsModal.new_value m) = Ok updated ->
         exists text w,
           file_contents (fst (FieldsModal.handleSave build_nodes st m)) = Some text
           /\ json (fst (FieldsModal.handleSave build_nodes st m)) = Some text
           /\ JSON_parse text = Ok w).
Proof.
  intros Hs. split; intros m updated Hp.
  - rewrite (text_save_ok build_nodes st nodeData m updated Hs Hp).
    apply published_text_is_json.
    eapply patched_document_defined; [apply parse_or_string_defined | exact Hp].
  - rewrite (fields_save_ok build_nodes st nodeData m updated Hs Hp).
    apply published_text_is_json.
    eapply patched_document_defined; [apply new_value_defined | exact Hp].
Qed.

Lemma saved_text_is_json_witness :
  exists text w,
    file_contents
      (fst (FieldsModal.handleSave example_graph
              (example_stores (jq "{'a': [1, {'b': 'x'}]}")
                 (Some [SStr "a"; SNum (Dec 1 0)]))
              (fields_modal [("b", "y"); ("c", "[1.5e3, null]")] None)))
    = Some text
    /\ json
         (fst (FieldsModal.handleSave example_graph
                 (example_stores (jq "{'a': [1, {'b': 'x'}]}")
                    (Some [SStr "a"; SNum (Dec 1 0)]))
                 (fields_modal [("b", "y"); ("c", "[1.5e3, null]")] None)))
       = Some text
    /\ JSON_parse text = Ok w.
Proof.
  apply (proj2 (saved_text_is_json example_graph
                  (example_stores (jq "{'a': [1, {'b': 'x'}]}")
                     (Some [SStr "a"; SNum (Dec 1 0)]))
                  (example_node (Some [SStr "a"; SNum (Dec 1 0)])) eq_refl)
           (fields_modal [("b", "y"); ("c", "[1.5e3, null]")] None)
           (VObj [("a", VArr [VNum (Dec 1 0);
                              VObj [("b", VStr "y");
                                    ("c", VArr [VNum (Dec 15 2); VNull] [])]] [])])).
  reflexivity.
Defined.

(** ** [normalizeNodeData] and [jsonPathToString] *)

Example jsonPathToString_examples :
  jsonPathToString (Some []) = "$"
  /\ jsonPathToString None = "$"
  /\ jsonPathToString (Some [SStr "a"; SNum (Dec 0 0)]) = jq "$['a'][0]".
Proof. repeat split; reflexivity. Qed.

(** C7: a list of one row that has no key flattens to the text of the
    value of the row (an empty key counts as none). *)
Theorem single_keyless_row (row : NodeRow) :
  (row_key row = None ->
   normalizeNodeData [row] = Some (to_string (row_value row)))
  /\ (row_key row = Some EmptyString ->
      normalizeNodeData [row] = Some (to_string (row_value row))).
Proof.
  split; intros H; unfold normalizeNodeData, truthy_key; now rewrite H.
Qed.

Lemma single_keyless_row_witness :
  normalizeNodeData [example_row None (VNum (Dec 15 (-1))) "number"] = Some "1.5".
Proof.
  apply (proj1 (single_keyless_row (example_row None (VNum (Dec 15 (-1))) "number"))).
  reflexivity.
Defined.

Lemma is_scalar_row_false row :
  is_scalar_row row = false <->
  row_type row = "array" \/ row_type row = "object".
Proof.
  unfold is_scalar_row.
  destruct (String.eqb_spec (row_type row) "array") as [E|E];
    destruct (String.eqb_spec (row_type row) "object") as [E'|E']; simpl;
    split; auto; intros H; try discriminate; destruct H; contradiction.
Qed.

Lemma fold_add_row_filter rows : forall acc,
  fold_left add_row rows acc = fold_left add_row (filter is_scalar_row rows) acc.
Proof.
  induction rows as [|row rows IH]; intros acc; simpl; [reflexivity|].
  destruct (is_scalar_row row) eqn:E; simpl.
  - apply IH.
  - unfold add_row at 2. rewrite E. apply IH.
Qed.

Lemma lookup_fold_add_row rows : forall acc k v,
  lookup k (fold_left add_row rows acc) = Some v ->
  lookup k acc = Some v
  \/ exists r, In r rows /\ is_scalar_row r = true
               /\ truthy_key r = Some k /\ row_value r = v.
Proof.
  induction rows as [|row rows IH]; intros acc k v H; simpl in H; [now left|].
  destruct (IH _ _ _ H) as [Hacc | (r & Hin & Hr)].
  - unfold add_row in Hacc.
    destruct (is_scalar_row row) eqn:Es; [|now left].
    destruct (truthy_key row) as [k0|] eqn:Ek; [|now left].
    rewrite lookup_obj_set in Hacc.
    destruct (String.eqb_spec k0 k) as [->|_]; [|now left].
    injection Hacc as <-. right. exists row. simpl. auto.
  - right. exists r. simpl. auto.
Qed.

Lemma truthy_key_row_key r k : truthy_key r = Some k -> row_key r = Some k.
Proof.
  unfold truthy_key. destruct (row_key r) as [k0|]; [|discriminate].
  destruct (k0 =? "")%string; [discriminate | congruence].
Qed.

(** C6, as the code has it: a row of type [array] or [object] adds
    nothing to the object: the object is the one of the list without these
    rows, each of its entries comes from a row of another type, and the key
    of a row of type [array] or [object] is in it only when a row of
    another type has the same key. *)
Theorem flatten_excludes_containers (rows : list NodeRow) :
  flatten_rows rows = flatten_rows (filter is_scalar_row rows)
  /\ (forall k v,
         lookup k (flatten_rows rows) = Some v ->
         exists r, In r rows /\ row_type r <> "array" /\ row_type r <> "object"
                   /\ row_key r = Some k /\ row_value r = v)
  /\ (forall r k,
         In r rows -> row_type r = "array" \/ row_type r = "object" ->
         row_key r = Some k ->
         (forall r', In r' rows -> row_key r' = Some k ->
                     row_type r' = "array" \/ row_type r' = "object") ->
         lookup k (flatten_rows rows) = None)
  /\ (forall row others,
         rows = row :: others -> others <> [] \/ truthy_key row <> None ->
         normalizeNodeData rows
         = JSON_stringify gap2 (VObj (flatten_rows (filter is_scalar_row rows)))).
Proof.
  assert (Hentry : forall k v,
             lookup k (flatten_rows rows) = Some v ->
             exists r, In r rows /\ is_scalar_row r = true
                       /\ row_key r = Some k /\ row_value r = v).
  { intros k v H. unfold flatten_rows in H.
    destruct (lookup_fold_add_row _ _ _ _ H) as [Hn | (r & Hin & Hs & Hk & Hv)];
      [discriminate|].
    exists r. repeat split; auto using truthy_key_row_key. }
  assert (Hfilter : flatten_rows rows = flatten_rows (filter is_scalar_row rows))
    by apply fold_add_row_filter.
  repeat split.
  - exact Hfilter.
  - intros k v H. destruct (Hentry k v H) as (r & Hin & Hs & Hk & Hv).
    exists r. repeat split; auto; intros E;
      assert (Hf : is_scalar_row r = false) by (apply is_scalar_row_false; auto);
      congruence.
  - intros r k Hin Ht Hk Hothers.
    destruct (lookup k (flatten_rows rows)) as [v|] eqn:E; [|reflexivity].
    destruct (Hentry k v E) as (r' & Hin' & Hs' & Hk' & _).
    apply Hothers in Hk'; [|exact Hin'].
    apply is_scalar_row_false in Hk'. congruence.
  - intros row others E Hne. rewrite <- Hfilter. subst rows.
    unfold normalizeNodeData.
    destruct others as [|r2 others]; [|reflexivity].
    destruct (truthy_key row); [reflexivity|].
    destruct Hne; contradiction.
Qed.

Lemma flatten_excludes_containers_witness :
  lookup "b"
    (flatten_rows [example_row (Some "a") (VNum (Dec 1 0)) "number";
                   example_row (Some "b") VNull "array"]) = None.
Proof.
  apply (proj1 (proj2 (proj2 (flatten_excludes_containers
                  [example_row (Some "a") (VNum (Dec 1 0)) "number";
                   example_row (Some "b") VNull "array"])))
           (example_row (Some "b") VNull "array") "b").
  - right. now left.
  - now left.
  - reflexivity.
  - intros r' [<-|[<-|[]]] E; [discriminate | now left].
Defined.

(** C6 as stated fails: the key of a row of type [array] is in the object
    when a row of another type has the same key. *)
Lemma flatten_excludes_containers_counterexample :
  ~ (forall rows r k,
        In r rows -> row_type r = "array" \/ row_type r = "object" ->
        row_key r = Some k -> lookup k (flatten_rows rows) = None).
Proof.
  intros H.
  specialize (H [example_row (Some "a") (VNum (Dec 1 0)) "number";
                 example_row (Some "a") VNull "array"]
                (example_row (Some "a") VNull "array") "a").
  discriminate H; [right; now left | now left | reflexivity].
Qed.

(** ** The text of a path *)

Lemma concat_brackets l : forall x,
  ("[" ++ String.concat "][" (x :: l) ++ "]")%string
  = String.concat "" (map (fun t => "[" ++ t ++ "]")%string (x :: l)).
Proof.
  induction l as [|y l IH]; intro x; [reflexivity|].
  cbn [map]. rewrite !concat_cons2.
  change (("[" ++ y ++ "]")%string :: map (fun t => "[" ++ t ++ "]")%string l)
    with (map (fun t => "[" ++ t ++ "]")%string (y :: l)).
  rewrite <- IH. cbn [append]. rewrite !append_assoc. reflexivity.
Qed.

Lemma concat_bracketed p seg :
  ("[" ++ String.concat "][" (map segment_text (seg :: p)) ++ "]")%string
  = String.concat "" (map bracketed (seg :: p)).
Proof.
  cbn [map]. rewrite concat_brackets.
  change (segment_text seg :: map segment_text p)
    with (map segment_text (seg :: p)).
  rewrite map_map. reflexivity.
Qed.

Lemma jsonPathToString_concat p :
  jsonPathToString (Some p) = ("$" ++ String.concat "" (map bracketed p))%string.
Proof.
  destruct p as [|seg p]; [reflexivity|].
  rewrite <- concat_bracketed. reflexivity.
Qed.

Lemma concat_empty_app (a b : list string) :
  String.concat "" (a ++ b) = (String.concat "" a ++ String.concat "" b)%string.
Proof.
  induction a as [|x a IH]; [reflexivity|].
  destruct a as [|y a].
  - destruct b as [|z b]; cbn [app String.concat].
    + now rewrite append_nil_r.
    + reflexivity.
  - change ((x :: y :: a) ++ b) with (x :: y :: (a ++ b)).
    rewrite !concat_cons2. change (y :: a ++ b) with ((y :: a) ++ b).
    rewrite IH. cbn [append]. now rewrite append_assoc.
Qed.

(** X1 (jsonPathToString): the text of a path is [$] followed by each
    segment between brackets, a string segment between double quotes
    inside them; so the text of a longer path continues the text of its
    prefix; and the text is [$] alone for the missing and the empty path
    only. *)
Theorem jsonPathToString_brackets (p q : list segment) :
  jsonPathToString (Some p) = ("$" ++ String.concat "" (map bracketed p))%string
  /\ jsonPathToString (Some (p ++ q))
     = (jsonPathToString (Some p) ++ String.concat "" (map bracketed q))%string
  /\ (jsonPathToString (Some p) = "$" <-> p = [])
  /\ jsonPathToString None = "$".
Proof.
  split; [apply jsonPathToString_concat|].
  split.
  - rewrite !jsonPathToString_concat, map_app, concat_empty_app.
    cbn [append]. reflexivity.
  - split; [|reflexivity]. split.
    + destruct p as [|seg p]; [reflexivity|]. intro H. discriminate H.
    + intros ->. reflexivity.
Qed.

(** X2 (jsonPathToString): the key of a string segment is written as it
    is, without escaping: a key that holds the text between two
    neighbouring keys gives the text of the two keys, so two different
    paths can have the same text. *)
Theorem jsonPathToString_no_escape (pre post : list segment) (a b : string) :
  let glue := String dquote ("][" ++ String dquote EmptyString) in
  jsonPathToString (Some (pre ++ [SStr (a ++ glue ++ b)] ++ post))
  = jsonPathToString (Some (pre ++ [SStr a; SStr b] ++ post))
  /\ List.length (pre ++ [SStr (a ++ glue ++ b)] ++ post)
     <> List.length (pre ++ [SStr a; SStr b] ++ post).
Proof.
  intro glue. split.
  - rewrite !jsonPathToString_concat, !map_app, !concat_empty_app.
    f_equal. f_equal. f_equal. subst glue.
    cbn [map String.concat bracketed segment_text append].
    rewrite !append_assoc. cbn [append]. rewrite ?append_assoc.
    cbn [append]. reflexivity.
  - rewrite !length_app. cbn [List.length]. lia.
Qed.

(** ** The serialised path of the selection *)

Lemma append_cancel_r a : forall b t, (a ++ t)%string = (b ++ t)%string -> a = b.
Proof.
  assert (Hlen : forall x c t, t <> String c (x ++ t)).
  { intros x c t H. apply (f_equal String.length) in H.
    cbn [String.length] in H. rewrite length_append in H. lia. }
  induction a as [|c a IH]; intros [|d b] t H; cbn [append] in H.
  - reflexivity.
  - now apply Hlen in H.
  - symmetry in H. now apply Hlen in H.
  - injection H as -> H. f_equal. now apply IH with t.
Qed.

Lemma segments_tail_ends l : number_ends (segments_tail l) = true.
Proof. now destruct l. Qed.

Lemma segment_json_head seg :
  exists c r, segment_json seg = String c r /\ value_start c = true.
Proof.
  destruct seg as [n|s].
  - exact (ser_head EmptyString EmptyString (VNum n)).
  - exact (ser_head EmptyString EmptyString (VStr s)).
Qed.

Lemma segment_json_split a b t1 t2 :
  number_ends t1 = true -> number_ends t2 = true ->
  (segment_json a ++ t1)%string = (segment_json b ++ t2)%string ->
  same_segment a b /\ t1 = t2.
Proof.
  intros H1 H2 H.
  destruct a as [x|s]; destruct b as [y|t]; cbn [segment_json same_segment] in *.
  - destruct (lex_num_to_string x t1 H1) as [u Hu].
    destruct (lex_num_to_string y t2 H2) as [w Hw].
    rewrite H, Hw in Hu. injection Hu as _ ->.
    split; [|reflexivity]. now apply append_cancel_r with t1.
  - destruct (lex_num_to_string x t1 H1) as [u Hu].
    apply lex_json_number_head in Hu. destruct Hu as (c & r & Hc & Hd).
    rewrite H, quote_append in Hc. injection Hc as <- _.
    now destruct Hd as [Hd|Hd]; [vm_compute in Hd | discriminate Hd].
  - destruct (lex_num_to_string y t2 H2) as [u Hu].
    apply lex_json_number_head in Hu. destruct Hu as (c & r & Hc & Hd).
    rewrite <- H, quote_append in Hc. injection Hc as <- _.
    now destruct Hd as [Hd|Hd]; [vm_compute in Hd | discriminate Hd].
  - rewrite !quote_append in H. injection H as H.
    pose proof (parse_chars_quote s t1) as Hs.
    rewrite H, parse_chars_quote in Hs. now injection Hs as -> ->.
Qed.

Lemma concat_segments_tail seg l :
  (String.concat "," (map segment_json (seg :: l)) ++ "]")%string
  = (segment_json seg ++ segments_tail l)%string.
Proof.
  destruct l as [|s l]; [reflexivity|].
  cbn [map]. rewrite concat_cons2. unfold segments_tail.
  cbn [map]. now rewrite !append_assoc.
Qed.

Lemma segments_tail_cons seg l :
  segments_tail (seg :: l) = String "," (segment_json seg ++ segments_tail l).
Proof.
  rewrite <- concat_segments_tail. reflexivity.
Qed.

Lemma segments_text_inj p : forall q,
  segments_tail p = segments_tail q -> Forall2 same_segment p q.
Proof.
  induction p as [|a p IH]; intros [|b q] H.
  - constructor.
  - discriminate H.
  - discriminate H.
  - rewrite !segments_tail_cons in H. injection H as H.
    apply segment_json_split in H; try apply segments_tail_ends.
    destruct H as [Hab Ht]. constructor; [exact Hab | now apply IH].
Qed.

Lemma findPath_text p :
  findPath (Some p)
  = Some (String "["
            match p with
            | [] => "]"
            | seg :: l => segment_json seg ++ segments_tail l
            end).
Proof.
  unfold findPath, JSON_stringify, path_value. cbn [is_undefined].
  rewrite ser_arr, map_map. f_equal.
  rewrite (map_ext _ segment_json) by (now intros [n|s]).
  destruct p as [|seg p]; [reflexivity|].
  rewrite <- concat_segments_tail. reflexivity.
Qed.

Lemma findPath_inj a b : findPath a = findPath b -> same_path a b.
Proof.
  destruct a as [p|]; destruct b as [q|]; rewrite ?findPath_text;
    cbn [same_path findPath]; intro H.
  - apply segments_text_inj.
    destruct p as [|x p]; destruct q as [|y q];
      [reflexivity | injection H as H ..].
    + destruct (segment_json_head y) as (c & r & Hc & Hv).
      rewrite Hc in H. injection H as <- _. discriminate Hv.
    + destruct (segment_json_head x) as (c & r & Hc & Hv).
      rewrite Hc in H. injection H as -> _. discriminate Hv.
    + rewrite !segments_tail_cons. now rewrite H.
  - discriminate H.
  - discriminate H.
  - exact I.
Qed.

Lemma same_segment_key a b :
  same_segment a b ->
  key_of a = key_of b /\ is_number_segment a = is_number_segment b.
Proof.
  destruct a, b; cbn [same_segment key_of is_number_segment];
    intro H; try contradiction; now subst.
Qed.

(** X3 (findPath in handleSave): two paths have the same serialised text
    only when both are missing or both go through the same segments, of
    the same kind and for the same key; so the node [handleSave] selects
    again has the path of the edited node, and a missing path is not taken
    for the empty one. *)
Theorem findPath_same_path (a b : option (list segment)) :
  findPath a = findPath b ->
  same_path a b
  /\ (forall p q, a = Some p -> b = Some q ->
                  map key_of p = map key_of q
                  /\ map is_number_segment p = map is_number_segment q)
  /\ (forall nodeData ns t,
         node_path nodeData = b ->
         node_of_same_path nodeData ns = Some t -> same_path (node_path t) b).
Proof.
  intro H. split; [now apply findPath_inj|]. split.
  - intros p q -> ->. apply findPath_inj in H. cbn [same_path] in H.
    induction H as [|x y p q Hxy _ [IH1 IH2]]; [now split|].
    apply same_segment_key in Hxy. destruct Hxy as [Hk Hn].
    cbn [map]. now rewrite Hk, Hn, IH1, IH2.
  - intros nodeData ns t <- Ht. unfold node_of_same_path in Ht.
    apply find_some in Ht. destruct Ht as [_ Ht].
    apply same_text_eq in Ht. now apply findPath_inj.
Qed.

Lemma findPath_same_path_witness :
  same_path (Some [SStr "a"; SNum (Dec 10 (-1))]) (Some [SStr "a"; SNum (Dec 1 0)]).
Proof.
  apply (findPath_same_path (Some [SStr "a"; SNum (Dec 10 (-1))])
           (Some [SStr "a"; SNum (Dec 1 0)])).
  reflexivity.
Defined.

(** ** Reading along a path *)

Lemma get_along_app p : forall cur q,
  get_along cur (p ++ q) = (x <- get_along cur p ;; get_along x q).
Proof.
  induction p as [|seg p IH]; intros cur q; [reflexivity|].
  cbn [app get_along]. destruct (is_nullish cur) eqn:Hn.
  - cbn [bind]. now destruct q.
  - destruct (get_prop cur (key_of seg)) as [next|e]; cbn [bind]; [apply IH | reflexivity].
Qed.

(** X4 (getAtPath): reading along a path that is made of two parts is
    reading along the first part and then, from what was found, along the
    second. *)
Theorem getAtPath_app (obj : value) (p q : list segment) :
  getAtPath obj (Some (p ++ q))
  = (x <- getAtPath obj (Some p) ;; getAtPath x (Some q)).
Proof.
  rewrite !getAtPath_get_along, get_along_app.
  destruct (get_along obj p) as [x|e]; cbn [bind]; [|reflexivity].
  now rewrite getAtPath_get_along.
Qed.

(** ** Writing along a path *)

(** *** One property *)

Lemma integer_index_canon k n : integer_index k = Some n -> k = N_to_string n.
Proof.
  unfold integer_index. destruct k as [|c k]; [discriminate|].
  destruct (all_digits (String c k)); [|discriminate].
  destruct (String.eqb_spec (N_to_string (digits_to_N (String c k) 0)) (String c k))
    as [E|_]; [|discriminate].
  intro H. injection H as <-. now symmetry.
Qed.

Lemma array_index_canon k i : array_index k = Some i -> k = N_to_string i.
Proof.
  unfold array_index. destruct (integer_index k) as [n|] eqn:E; [|discriminate].
  destruct (n <? 4294967295)%N; [|discriminate].
  intro H. injection H as <-. now apply integer_index_canon.
Qed.

Lemma array_index_length : array_index "length" = None.
Proof. reflexivity. Qed.

Lemma nth_set_index_other i : forall j v items,
  i <> j -> nth j (set_index i v items) VUndefined = nth j items VUndefined.
Proof.
  induction i as [|i IH]; intros [|j] v [|x r] H; cbn [set_index nth];
    try reflexivity; try contradiction.
  - now destruct j.
  - rewrite IH by lia. now destruct j.
  - apply IH. lia.
Qed.

Lemma set_index_twice i : forall a b items,
  set_index i b (set_index i a items) = set_index i b items.
Proof.
  induction i as [|i IH]; intros a b [|x r]; cbn [set_index];
    try reflexivity; now rewrite IH.
Qed.

Lemma set_index_same i : forall x items,
  nth i items VUndefined = x -> is_undefined x = false ->
  set_index i x items = items.
Proof.
  induction i as [|i IH]; intros x [|y r] H Hx; cbn [nth] in H; cbn [set_index].
  - now subst x.
  - now subst.
  - now subst x.
  - f_equal. now apply IH.
Qed.

Lemma replace_field_twice k a b f :
  replace_field k b (replace_field k a f) = replace_field k b f.
Proof.
  induction f as [|[k' v'] f IH]; [reflexivity|]. cbn [replace_field].
  destruct (String.eqb_spec k' k) as [->|Hne]; cbn [replace_field].
  - now rewrite String.eqb_refl.
  - destruct (String.eqb_spec k' k); [contradiction|]. now rewrite IH.
Qed.

Lemma replace_field_insert_index i k a b f :
  lookup k f = None ->
  replace_field k b (insert_index i k a f) = insert_index i k b f.
Proof.
  induction f as [|[k' v'] f IH]; intro H; cbn [insert_index replace_field].
  - now rewrite String.eqb_refl.
  - cbn [lookup] in H. destruct (String.eqb_spec k' k) as [->|Hne]; [discriminate|].
    destruct (array_index k') as [j|]; [destruct (j <? i)%N|];
      cbn [replace_field]; rewrite ?String.eqb_refl; try reflexivity.
    destruct (String.eqb_spec k' k); [contradiction|]. now rewrite IH.
Qed.

Lemma replace_field_app_last k a b f :
  lookup k f = None ->
  replace_field k b (f ++ [(k, a)]) = f ++ [(k, b)].
Proof.
  induction f as [|[k' v'] f IH]; intro H; cbn [app replace_field].
  - now rewrite String.eqb_refl.
  - cbn [lookup] in H. destruct (String.eqb_spec k' k) as [->|Hne]; [discriminate|].
    now rewrite IH.
Qed.

Lemma obj_set_twice k a b f : obj_set k b (obj_set k a f) = obj_set k b f.
Proof.
  unfold obj_set at 1. rewrite lookup_obj_set_same. unfold obj_set.
  destruct (lookup k f) eqn:E.
  - apply replace_field_twice.
  - destruct (array_index k).
    + now apply replace_field_insert_index.
    + now apply replace_field_app_last.
Qed.

Lemma replace_field_same k x f :
  lookup k f = Some x -> replace_field k x f = f.
Proof.
  induction f as [|[k' v'] f IH]; intro H; [discriminate|].
  cbn [lookup] in H. cbn [replace_field].
  destruct (String.eqb_spec k' k) as [->|Hne].
  - now injection H as ->.
  - now rewrite IH.
Qed.

Lemma obj_set_same k x f :
  lookup_or_undefined k f = x -> is_undefined x = false -> obj_set k x f = f.
Proof.
  unfold lookup_or_undefined, obj_set. destruct (lookup k f) as [y|] eqn:E.
  - intros -> _. now apply replace_field_same.
  - now intros <-.
Qed.

(** A write that returns was on an object or an array, and leaves one of
    the same kind. *)
Lemma set_prop_kind cur k v out :
  set_prop cur k v = Ok out ->
  is_container cur = true /\ is_container out = true
  /\ is_array out = is_array cur.
Proof.
  destruct cur; cbn [set_prop]; try discriminate.
  - destruct (array_index k); [|destruct (k =? "length")%string;
                                 [destruct (to_length v)|]];
      intro H; try discriminate; now injection H as <-.
  - intro H. now injection H as <-.
Qed.

Lemma get_prop_set_prop cur k v out :
  set_prop cur k v = Ok out ->
  ~ (is_array cur = true /\ k = "length") ->
  get_prop out k = Ok v.
Proof.
  intros H Hl. pose proof (set_prop_kind _ _ _ _ H) as (Hc & _).
  destruct (get_set_prop cur k v Hc Hl) as (out' & Ho & _ & _ & Hg).
  rewrite H in Ho. now injection Ho as <-.
Qed.

(** A write leaves the other properties alone, but for the [length] of an
    array. *)
Lemma get_prop_set_prop_frame cur k k' v out :
  set_prop cur k v = Ok out -> k <> k' ->
  ~ (is_array cur = true /\ (k = "length" \/ k' = "length")) ->
  get_prop out k' = get_prop cur k'.
Proof.
  destruct cur; cbn [set_prop]; try discriminate; intros H Hk Hl.
  - cbn [is_array] in Hl.
    destruct (String.eqb_spec k' "length") as [->|Hl']; [tauto|].
    destruct (array_index k) as [i|] eqn:Ei.
    + injection H as <-. cbn [get_prop].
      destruct (array_index k') as [j|] eqn:Ej;
        [|now destruct (String.eqb_spec k' "length")].
      rewrite nth_set_index_other; [reflexivity|].
      intro E. apply Hk. apply array_index_canon in Ei, Ej.
      rewrite Ei, Ej. f_equal. lia.
    + destruct (String.eqb_spec k "length") as [->|Hl'']; [tauto|].
      injection H as <-. cbn [get_prop].
      destruct (array_index k'); [reflexivity|].
      destruct (String.eqb_spec k' "length"); [contradiction|].
      unfold lookup_or_undefined. rewrite lookup_obj_set.
      now destruct (String.eqb_spec k k').
  - injection H as <-. cbn [get_prop].
    unfold lookup_or_undefined. rewrite lookup_obj_set.
    now destruct (String.eqb_spec k k').
Qed.

Lemma set_prop_twice cur k a b o1 :
  set_prop cur k a = Ok o1 ->
  ~ (is_array cur = true /\ k = "length") ->
  set_prop o1 k b = set_prop cur k b.
Proof.
  destruct cur; cbn [set_prop]; try discriminate; intros H Hl.
  - cbn [is_array] in Hl.
    destruct (array_index k) as [i|] eqn:Ei.
    + injection H as <-. cbn [set_prop]. rewrite Ei. now rewrite set_index_twice.
    + destruct (String.eqb_spec k "length") as [->|Hl']; [tauto|].
      injection H as <-. cbn [set_prop]. rewrite Ei.
      destruct (String.eqb_spec k "length"); [contradiction|].
      now rewrite obj_set_twice.
  - injection H as <-. cbn [set_prop]. now rewrite obj_set_twice.
Qed.

Lemma set_prop_same_value cur k x :
  get_prop cur k = Ok x -> is_undefined x = false ->
  is_container cur = true ->
  ~ (is_array cur = true /\ k = "length") ->
  set_prop cur k x = Ok cur.
Proof.
  destruct cur; cbn [is_container]; try discriminate;
    cbn [get_prop set_prop]; intros H Hx _ Hl.
  - cbn [is_array] in Hl.
    destruct (array_index k) as [i|].
    + injection H as H. now rewrite set_index_same.
    + destruct (String.eqb_spec k "length") as [->|Hl']; [tauto|].
      injection H as H. now rewrite obj_set_same.
  - injection H as H. now rewrite obj_set_same.
Qed.

(** What an object or an array holds under a key after a value that is
    neither was written there is neither. *)
Lemma get_prop_after_scalar cur k c cur1 :
  set_prop cur k c = Ok cur1 -> is_container c = false ->
  exists child, get_prop cur1 k = Ok child /\ is_container child = false.
Proof.
  intros H Hc.
  destruct (is_array cur) eqn:Ha; [destruct (String.eqb_spec k "length") as [->|Hl]|].
  - destruct cur; try discriminate Ha. cbn [set_prop] in H.
    rewrite array_index_length in H. cbn [String.eqb Ascii.eqb Bool.eqb] in H.
    destruct (to_length c); [|discriminate]. injection H as <-.
    eexists. split; [reflexivity|reflexivity].
  - exists c. split; [|exact Hc].
    apply (get_prop_set_prop _ _ _ _ H). now intros [_ Hk].
  - exists c. split; [|exact Hc].
    apply (get_prop_set_prop _ _ _ _ H). intros [Ha' _]. congruence.
Qed.

Lemma container_not_length cur k y :
  get_prop cur k = Ok y -> is_container y = true ->
  ~ (is_array cur = true /\ k = "length").
Proof.
  intros H Hy [Ha ->]. destruct cur; try discriminate Ha.
  cbn [get_prop] in H. rewrite array_index_length in H.
  cbn [String.eqb Ascii.eqb Bool.eqb] in H. injection H as <-. discriminate Hy.
Qed.

(** *** The loop *)

(** The steps of [set_along] when it returns. *)
Lemma set_along_step cur seg next rest v out :
  set_along cur seg (next :: rest) v = Ok out ->
  exists old cur1 child',
    get_prop cur (key_of seg) = Ok old
    /\ ~ (is_array cur = true /\ key_of seg = "length")
    /\ set_prop cur (key_of seg)
         (if is_nullish old then fresh_container next else old) = Ok cur1
    /\ set_along (if is_nullish old then fresh_container next else old)
         next rest v = Ok child'
    /\ set_prop cur1 (key_of seg) child' = Ok out.
Proof.
  cbn [set_along]. intro H.
  destruct (get_prop cur (key_of seg)) as [old|] eqn:Eo; [|discriminate].
  cbn [bind] in H.
  set (child := if is_nullish old then fresh_container next else old) in *.
  destruct (set_prop cur (key_of seg) child) as [cur1|] eqn:E1; [|discriminate].
  cbn [bind] in H.
  destruct (is_container child) eqn:Hc.
  - assert (Hl : ~ (is_array cur = true /\ key_of seg = "length")).
    { intros [Ha Hk]. destruct (is_nullish old) eqn:Hn; subst child.
      - destruct cur; try discriminate Ha. rewrite Hk in Eo.
        cbn [get_prop] in Eo. rewrite array_index_length in Eo.
        cbn [String.eqb Ascii.eqb Bool.eqb] in Eo. injection Eo as <-.
        discriminate Hn.
      - now apply (container_not_length _ _ _ Eo Hc). }
    rewrite (get_prop_set_prop _ _ _ _ E1 Hl) in H. cbn [bind] in H.
    destruct (set_along child next rest v) as [child'|] eqn:E2; [|discriminate].
    cbn [bind] in H. now exists old, cur1, child'.
  - destruct (get_prop_after_scalar _ _ _ _ E1 Hc) as (c & Eg & Hs).
    rewrite Eg in H. cbn [bind] in H.
    now rewrite (set_along_scalar rest c next v Hs) in H.
Qed.

Lemma set_along_kind rest cur seg v out :
  set_along cur seg rest v = Ok out ->
  is_container cur = true /\ is_container out = true
  /\ is_array out = is_array cur.
Proof.
  destruct rest as [|next rest].
  - apply set_prop_kind.
  - intro H. apply set_along_step in H.
    destruct H as (old & cur1 & child' & _ & _ & H1 & _ & H2).
    apply set_prop_kind in H1, H2.
    destruct H1 as (Hc & _ & Ha1). destruct H2 as (_ & Hc2 & Ha2).
    repeat split; try assumption. congruence.
Qed.


Lemma plain_root_copy doc : plain_root doc = true -> shallow_copy doc = doc.
Proof. destruct doc as [| | | | |items [|kv props]|fields]; now try discriminate. Qed.

Lemma parse_value_plain fuel s v rest :
  parse_value fuel s = Some (v, rest) ->
  is_container v = true -> plain_root v = true.
Proof.
  destruct fuel as [|fuel]; [discriminate|]. cbn [parse_value].
  destruct (skip_ws s) as [|c r]; [discriminate|].
  repeat match goal with
         | |- context [if ?b then _ else _] => destruct b
         | |- context [match ?x with _ => _ end] => destruct x
         end;
    intros H; try discriminate; now injection H as <- _.
Qed.

Lemma JSON_parse_plain text v :
  JSON_parse text = Ok v -> is_container v = true -> plain_root v = true.
Proof.
  unfold JSON_parse.
  destruct (parse_value _ text) as [[w rest]|] eqn:E; [|discriminate].
  destruct (skip_ws rest); [|discriminate].
  intros H. injection H as <-. eapply parse_value_plain; eassumption.
Qed.

(** *** A primitive on the way *)







(** *** What a write leaves alone *)






(** *** Writing twice, and writing back *)

Lemma length_free_child cur seg next rest old :
  length_free cur seg (next :: rest) ->
  get_prop cur (key_of seg) = Ok old ->
  length_free (if is_nullish old then fresh_container next else old) next rest.
Proof.
  intros Hf Ho. destruct (is_nullish old) eqn:Hn.
  - apply length_free_fresh.
  - now apply (Hf old).
Qed.

Lemma set_along_twice rest : forall cur seg v w o1,
  set_along cur seg rest v = Ok o1 -> length_free cur seg rest ->
  set_along o1 seg rest w = set_along cur seg rest w.
Proof.
  induction rest as [|next rest IH]; intros cur seg v w o1 H Hf.
  - cbn [set_along length_free] in *. now apply set_prop_twice with v.
  - pose proof (fun old => length_free_child cur seg next rest old Hf) as Hfc.
    apply set_along_step in H.
    destruct H as (old & cur1 & child' & Ho & Hnl & H1 & H2 & H3).
    specialize (Hfc old Ho).
    set (child := if is_nullish old then fresh_container next else old) in *.
    pose proof (set_prop_kind _ _ _ _ H1) as (_ & _ & Ha1).
    assert (Hnl1 : ~ (is_array cur1 = true /\ key_of seg = "length"))
      by (now rewrite Ha1).
    pose proof (set_along_kind _ _ _ _ _ H2) as (_ & Hcc & _).
    cbn [set_along].
    rewrite (get_prop_set_prop _ _ _ _ H3 Hnl1), Ho. cbn [bind].
    rewrite (container_not_nullish _ Hcc). fold child.
    rewrite (set_prop_twice _ _ _ child' _ H3 Hnl1), H3, H1. cbn [bind].
    rewrite (get_prop_set_prop _ _ _ _ H3 Hnl1).
    rewrite (get_prop_set_prop _ _ _ _ H1 Hnl). cbn [bind].
    rewrite (IH _ _ _ w _ H2 Hfc).
    destruct (set_along child next rest w) as [c2|e]; cbn [bind]; [|reflexivity].
    now apply set_prop_twice with child'.
Qed.

Lemma set_prop_array its ps k x o :
  set_prop (VArr its ps) k x = Ok o -> k <> "length" ->
  exists its' ps',
    o = VArr its' ps'
    /\ match array_index k with
       | Some _ => ps' = ps
       | None => its' = its
       end.
Proof.
  cbn [set_prop]. intros H Hl. destruct (array_index k).
  - injection H as <-. now eexists _, _.
  - destruct (String.eqb_spec k "length"); [contradiction|].
    injection H as <-. now eexists _, _.
Qed.

(** After a write on the copy of a document, the copy of the result is
    the result, or the copy that was written to. *)
Lemma set_along_copy_again rest doc seg v o1 :
  set_along (shallow_copy doc) seg rest v = Ok o1 ->
  length_free (shallow_copy doc) seg rest ->
  shallow_copy o1 = o1 \/ shallow_copy o1 = shallow_copy doc.
Proof.
  intros H Hf.
  pose proof (set_along_kind _ _ _ _ _ H) as (_ & Hc & Ha).
  destruct (is_array (shallow_copy doc)) eqn:Hd.
  - destruct (shallow_copy doc) as [| | | | |items props|] eqn:Ed;
      try discriminate Hd.
    assert (props = []) as -> by (destruct doc; now inversion Ed).
    destruct rest as [|next rest].
    + cbn [set_along length_free] in H, Hf.
      apply set_prop_array in H; [|tauto].
      destruct H as (its' & ps' & -> & Hk).
      destruct (array_index (key_of seg)); subst; cbn; auto.
    + apply set_along_step in H.
      destruct H as (old & cur1 & child' & _ & Hnl & H1 & _ & H2).
      apply set_prop_array in H1; [|tauto].
      destruct H1 as (i1 & p1 & -> & Hk1).
      apply set_prop_array in H2; [|tauto].
      destruct H2 as (i2 & p2 & -> & Hk2).
      destruct (array_index (key_of seg)); subst; cbn; auto.
  - left. destruct o1; try discriminate Hc; [discriminate Ha | reflexivity].
Qed.

(** X7 (setAtPath): of two writes at the same path, one after the other,
    the second alone decides the result: it is the document the second
    write gives on the document before the first. *)
Theorem setAtPath_twice (doc v w o1 : value) (p : list segment) :
  setAtPath doc (Some p) v = Ok o1 ->
  writes_array_length doc p = false ->
  setAtPath o1 (Some p) w = setAtPath doc (Some p) w.
Proof.
  intros H Hw. destruct p as [|seg rest]; [reflexivity|].
  cbn [setAtPath] in *.
  pose proof (length_free_shallow_copy _ _ _ Hw) as Hf.
  destruct (set_along_copy_again _ _ _ _ _ H Hf) as [E|E]; rewrite E.
  - now apply set_along_twice with v.
  - reflexivity.
Qed.

Lemma setAtPath_twice_witness :
  setAtPath
    (VObj [("a", VArr [VNum (Dec 1 0); VUndefined; VObj [("b", VNull)]] [])])
    (Some [SStr "a"; SNum (Dec 2 0); SStr "b"]) (VBool false)
  = setAtPath (VObj [("a", VArr [VNum (Dec 1 0)] [])])
      (Some [SStr "a"; SNum (Dec 2 0); SStr "b"]) (VBool false).
Proof.
  apply (setAtPath_twice (VObj [("a", VArr [VNum (Dec 1 0)] [])]) VNull
           (VBool false)
           (VObj [("a", VArr [VNum (Dec 1 0); VUndefined; VObj [("b", VNull)]] [])])
           [SStr "a"; SNum (Dec 2 0); SStr "b"]).
  - reflexivity.
  - reflexivity.
Defined.

(** The value read at a path, written back there. *)
Lemma set_along_write_back rest : forall cur seg x out,
  get_along cur (seg :: rest) = Ok x -> is_undefined x = false ->
  set_along cur seg rest x = Ok out -> length_free cur seg rest ->
  out = cur.
Proof.
  induction rest as [|next rest IH]; intros cur seg x out Hg Hx H Hf.
  - cbn [set_along length_free] in *.
    pose proof (set_prop_kind _ _ _ _ H) as (Hc & _).
    cbn [get_along] in Hg. rewrite (container_not_nullish _ Hc) in Hg.
    destruct (get_prop cur (key_of seg)) as [y|] eqn:Ey; [|discriminate].
    injection Hg as ->.
    rewrite (set_prop_same_value _ _ _ Ey Hx Hc Hf) in H. now injection H.
  - pose proof (fun old => length_free_child cur seg next rest old Hf) as Hfc.
    pose proof (set_along_kind _ _ _ _ _ H) as (Hc & _).
    apply set_along_step in H.
    destruct H as (old & cur1 & child' & Ho & Hnl & H1 & H2 & H3).
    specialize (Hfc old Ho).
    cbn [get_along] in Hg. rewrite (container_not_nullish _ Hc), Ho in Hg.
    cbn [bind] in Hg.
    destruct (is_nullish old) eqn:Hn.
    { injection Hg as <-. discriminate Hx. }
    assert (Hg' : get_along old (next :: rest) = Ok x).
    { cbn [get_along]. now rewrite Hn. }
    assert (Hou : is_undefined old = false) by (now destruct old).
    rewrite (set_prop_same_value _ _ _ Ho Hou Hc Hnl) in H1.
    injection H1 as <-.
    rewrite (IH _ _ _ _ Hg' Hx H2 Hfc) in H3.
    rewrite (set_prop_same_value _ _ _ Ho Hou Hc Hnl) in H3. now injection H3.
Qed.

(** X8 (setAtPath): on a document that is an object or an array, writing
    back at a path the value that [getAtPath] reads there, when there is
    one and the positions on the way hold objects or arrays, returns the
    document as it was. *)
Theorem setAtPath_write_back (doc x : value) (p : list segment) :
  plain_root doc = true ->
  getAtPath doc (Some p) = Ok x -> is_undefined x = false ->
  intermediates_ok doc p = true ->
  writes_array_length doc p = false ->
  setAtPath doc (Some p) x = Ok doc.
Proof.
  intros Hroot Hg Hx Hi Hw. destruct p as [|seg rest].
  - cbn in Hg |- *. congruence.
  - destruct (setAtPath_getAtPath doc (seg :: rest) x) as (out & H & _);
      try assumption; [discriminate|].
    rewrite H. f_equal.
    pose proof (length_free_shallow_copy _ _ _ Hw) as Hf.
    cbn [setAtPath] in H. rewrite getAtPath_get_along in Hg.
    rewrite (plain_root_copy _ Hroot) in H, Hf.
    now apply (set_along_write_back _ _ _ _ _ Hg Hx H Hf).
Qed.

Lemma setAtPath_write_back_witness :
  setAtPath (VObj [("a", VArr [VNull; VObj [("b", VStr "x")]] [])])
    (Some [SStr "a"; SNum (Dec 1 0); SStr "b"]) (VStr "x")
  = Ok (VObj [("a", VArr [VNull; VObj [("b", VStr "x")]] [])]).
Proof.
  apply (setAtPath_write_back
           (VObj [("a", VArr [VNull; VObj [("b", VStr "x")]] [])])
           (VStr "x") [SStr "a"; SNum (Dec 1 0); SStr "b"]).
  - reflexivity.
  - reflexivity.
  - reflexivity.
  - reflexivity.
  - reflexivity.
Defined.

(** *** The containers a write creates *)






(** X10 (setAtPath): along a path that is not empty the result is an
    object or an array, whatever is written: an array when the document
    is one, an object otherwise, also when the document is a primitive or
    [null]. *)
Theorem setAtPath_result_kind (doc v out : value) (p : list segment) :
  p <> [] -> setAtPath doc (Some p) v = Ok out ->
  is_container out = true /\ is_array out = is_array doc.
Proof.
  intros Hp H. destruct p as [|seg rest]; [contradiction|].
  cbn [setAtPath] in H.
  pose proof (set_along_kind _ _ _ _ _ H) as (_ & Hc & Ha).
  split; [exact Hc|]. now rewrite Ha, shallow_copy_array.
Qed.

Lemma setAtPath_result_kind_witness :
  is_container (VObj [("a", VBool true)]) = true
  /\ is_array (VObj [("a", VBool true)]) = is_array (VNum (Dec 5 0)).
Proof.
  apply (setAtPath_result_kind (VNum (Dec 5 0)) (VBool true)
           (VObj [("a", VBool true)]) [SStr "a"]).
  - discriminate.
  - reflexivity.
Defined.

(** ** The flattened rows *)

Lemma lookup_None_not_In k f : lookup k f = None <-> ~ In k (map fst f).
Proof.
  induction f as [|[k' v] f IH]; cbn [lookup map In fst]; [tauto|].
  destruct (String.eqb_spec k' k) as [->|Hne].
  - split; [discriminate | tauto].
  - rewrite IH. tauto.
Qed.

Lemma lookup_In k v f : lookup k f = Some v -> In (k, v) f.
Proof.
  induction f as [|[k' v'] f IH]; cbn [lookup In]; [discriminate|].
  destruct (String.eqb_spec k' k) as [->|Hne].
  - intro H. injection H as ->. now left.
  - intro H. right. now apply IH.
Qed.

Lemma map_fst_replace_field k v f : map fst (replace_field k v f) = map fst f.
Proof.
  induction f as [|[k' v'] f IH]; [reflexivity|]. cbn [replace_field].
  destruct (String.eqb_spec k' k) as [->|Hne]; cbn [map fst]; [reflexivity|].
  now rewrite IH.
Qed.

Lemma insert_index_split i k v f :
  exists l1 l2, f = l1 ++ l2 /\ insert_index i k v f = l1 ++ (k, v) :: l2.
Proof.
  induction f as [|[k' v'] f (l1 & l2 & E1 & E2)].
  - now exists [], [].
  - cbn [insert_index].
    destruct (array_index k') as [j|]; [destruct (j <? i)%N|].
    + exists ((k', v') :: l1), l2. cbn [app]. now rewrite <- E1, E2.
    + now exists [], ((k', v') :: f).
    + now exists [], ((k', v') :: f).
Qed.

Lemma NoDup_obj_set k v f :
  NoDup (map fst f) -> NoDup (map fst (obj_set k v f)).
Proof.
  intro H. unfold obj_set. destruct (lookup k f) eqn:E.
  - now rewrite map_fst_replace_field.
  - apply lookup_None_not_In in E.
    assert (Hadd : forall l1 l2 : list (string * value),
               f = l1 ++ l2 -> NoDup (map fst (l1 ++ (k, v) :: l2))).
    { intros l1 l2 ->. rewrite map_app in *. cbn [map fst].
      apply (NoDup_Add (Add_app k (map fst l1) (map fst l2))). now split. }
    destruct (array_index k) as [i|].
    + destruct (insert_index_split i k v f) as (l1 & l2 & E1 & ->).
      now apply Hadd.
    + apply Hadd. now rewrite app_nil_r.
Qed.

Lemma NoDup_fold_add_row rows : forall acc,
  NoDup (map fst acc) -> NoDup (map fst (fold_left add_row rows acc)).
Proof.
  induction rows as [|r rows IH]; intros acc H; [exact H|].
  cbn [fold_left]. apply IH. unfold add_row.
  destruct (is_scalar_row r); [|exact H].
  destruct (truthy_key r); [|exact H]. now apply NoDup_obj_set.
Qed.

Lemma lookup_add_row k r acc :
  lookup k (add_row acc r)
  = if writes_key k r then Some (row_value r) else lookup k acc.
Proof.
  unfold add_row, writes_key. destruct (is_scalar_row r); [|reflexivity].
  destruct (truthy_key r) as [k'|]; [|reflexivity].
  cbn [andb]. apply lookup_obj_set.
Qed.

Lemma lookup_fold_add_row_skip k rows : forall acc,
  forallb (fun r => negb (writes_key k r)) rows = true ->
  lookup k (fold_left add_row rows acc) = lookup k acc.
Proof.
  induction rows as [|r rows IH]; intros acc H; [reflexivity|].
  cbn [forallb] in H. apply andb_prop in H. destruct H as [Hr H].
  cbn [fold_left]. rewrite (IH _ H), lookup_add_row.
  now destruct (writes_key k r).
Qed.



(** ** The text shown *)

Lemma normalizeNodeData_cases rows :
  normalizeNodeData rows
  = Some match lone_value rows with
         | Some v => to_string v
         | None => ser gap2 EmptyString (VObj (flatten_rows rows))
         end.
Proof.
  destruct rows as [|row [|r2 others]]; cbn [normalizeNodeData lone_value];
    try reflexivity.
  now destruct (truthy_key row).
Qed.

Lemma ser_obj_head gap ind fields :
  exists r, ser gap ind (VObj fields) = String "{" r.
Proof.
  rewrite ser_obj. unfold ser_block.
  destruct (map _ _); [now eexists|].
  destruct (gap =? "")%string; now eexists.
Qed.

Lemma parse_value_brace fuel r w rest :
  parse_value fuel (String "{" r) = Some (w, rest) -> exists fs, w = VObj fs.
Proof.
  destruct fuel as [|fuel]; [discriminate|].
  cbn [parse_value]. change (skip_ws (String "{" r)) with (String "{" r).
  cbn [Ascii.eqb Bool.eqb].
  destruct (skip_ws r) as [|c' r']; [discriminate|].
  destruct (c' =? "}")%char.
  - intro H. injection H as <- _. now eexists.
  - destruct (parse_members _ _ _ _) as [[fs rest']|]; [|discriminate].
    intro H. injection H as <- _. now eexists.
Qed.

Lemma JSON_parse_object_text fields :
  exists fs, JSON_parse (ser gap2 EmptyString (VObj fields)) = Ok (VObj fs).
Proof.
  destruct (JSON_parse_stringify gap2 (VObj fields)
              (ser gap2 EmptyString (VObj fields))) as [w Hw];
    [reflexivity | reflexivity |].
  destruct (ser_obj_head gap2 EmptyString fields) as [r Hr].
  rewrite Hr in *. unfold JSON_parse in *.
  destruct (parse_value _ _) as [[v rest]|] eqn:E; [|discriminate].
  destruct (parse_value_brace _ _ _ _ E) as [fs ->].
  exists fs. now destruct (skip_ws rest).
Qed.

(** X12 (normalizeNodeData, handleEdit of the text variant): the text
    shown is the value of the lone row without a key as a template
    literal writes it, and for any other rows, none too, the text of the
    flattened object, which [JSON.parse] reads as an object; the text
    area starts with the text shown, so saving it as it is writes an
    object unless the rows are the lone row. *)
Theorem normalizeNodeData_text (rows : list NodeRow) :
  normalizeNodeData rows
  = Some match lone_value rows with
         | Some v => to_string v
         | None => ser gap2 EmptyString (VObj (flatten_rows rows))
         end
  /\ normalizeNodeData [] = JSON_stringify gap2 (VObj [])
  /\ (lone_value rows = None ->
      exists text fs,
        normalizeNodeData rows = Some text /\ JSON_parse text = Ok (VObj fs))
  /\ (forall st m,
         selected_rows st = rows ->
         TextModal.editing (TextModal.handleEdit st m) = true
         /\ normalizeNodeData rows
            = Some (TextModal.editedText (TextModal.handleEdit st m))
         /\ (lone_value rows = None ->
             exists fs,
               parse_or_string (TextModal.editedText (TextModal.handleEdit st m))
               = VObj fs)).
Proof.
  split; [apply normalizeNodeData_cases|]. split; [reflexivity|].
  assert (Hobj : lone_value rows = None ->
                 exists text fs,
                   normalizeNodeData rows = Some text
                   /\ JSON_parse text = Ok (VObj fs)).
  { intro H. rewrite normalizeNodeData_cases, H.
    destruct (JSON_parse_object_text (flatten_rows rows)) as [fs Hfs].
    now eexists _, fs. }
  split; [exact Hobj|].
  intros st m <-. unfold TextModal.handleEdit.
  cbn [TextModal.editing TextModal.editedText].
  split; [reflexivity|]. split.
  - now rewrite normalizeNodeData_cases.
  - intro H. destruct (Hobj H) as (text & fs & Ht & Hp).
    rewrite Ht. cbn [text_of]. exists fs. now apply parse_or_string_ok.
Qed.

Lemma normalizeNodeData_text_witness :
  exists text fs,
    normalizeNodeData [example_row (Some "a") (VNum (Dec 1 0)) "number";
                       example_row (Some "b") (VStr "x") "string"]
    = Some text
    /\ JSON_parse text = Ok (VObj fs).
Proof.
  apply (normalizeNodeData_text
           [example_row (Some "a") (VNum (Dec 1 0)) "number";
            example_row (Some "b") (VStr "x") "string"]).
  reflexivity.
Defined.

(** ** Entering edit mode, variant with one input per field *)

Lemma lookup_map_values (h : value -> value) k f :
  lookup k (map (fun kv => (fst kv, h (snd kv))) f) = option_map h (lookup k f).
Proof.
  induction f as [|[k' v] f IH]; [reflexivity|]. cbn [map lookup fst snd].
  now destruct (k' =? k)%string.
Qed.

Lemma replace_field_map_values (h : value -> value) k v f :
  map (fun kv => (fst kv, h (snd kv))) (replace_field k v f)
  = replace_field k (h v) (map (fun kv => (fst kv, h (snd kv))) f).
Proof.
  induction f as [|[k' v'] f IH]; [reflexivity|].
  cbn [map replace_field fst snd].
  destruct (k' =? k)%string; [reflexivity|]. cbn [map fst snd]. now f_equal.
Qed.

Lemma insert_index_map_values (h : value -> value) i k v f :
  map (fun kv => (fst kv, h (snd kv))) (insert_index i k v f)
  = insert_index i k (h v) (map (fun kv => (fst kv, h (snd kv))) f).
Proof.
  induction f as [|[k' v'] f IH]; [reflexivity|].
  cbn [map insert_index fst snd].
  destruct (array_index k') as [j|]; [destruct (j <? i)%N|];
    cbn [map fst snd]; try reflexivity. now f_equal.
Qed.

Lemma obj_set_map_values (h : value -> value) k v f :
  map (fun kv => (fst kv, h (snd kv))) (obj_set k v f)
  = obj_set k (h v) (map (fun kv => (fst kv, h (snd kv))) f).
Proof.
  unfold obj_set. rewrite lookup_map_values.
  destruct (lookup k f); cbn [option_map].
  - apply replace_field_map_values.
  - destruct (array_index k).
    + apply insert_index_map_values.
    + now rewrite map_app.
Qed.

Lemma fold_add_field rows : forall acc,
  fold_left FieldsModal.add_field rows
    (map (fun kv => (fst kv, VStr (edit_text (snd kv)))) acc)
  = map (fun kv => (fst kv, VStr (edit_text (snd kv))))
      (fold_left add_row rows acc).
Proof.
  induction rows as [|r rows IH]; intro acc; [reflexivity|].
  cbn [fold_left]. rewrite <- IH. f_equal.
  unfold FieldsModal.add_field, add_row.
  destruct (is_scalar_row r); [|reflexivity].
  destruct (truthy_key r); [|reflexivity].
  symmetry. apply (obj_set_map_values (fun v => VStr (edit_text v))).
Qed.

Lemma entries_text_add_field rows :
  FieldsModal.entries_text (fold_left FieldsModal.add_field rows [])
  = map (fun kv => (fst kv, edit_text (snd kv))) (flatten_rows rows).
Proof.
  change (@nil (string * value))
    with (map (fun kv : string * value => (fst kv, VStr (edit_text (snd kv)))) [])
    at 1.
  rewrite fold_add_field. unfold FieldsModal.entries_text.
  rewrite map_map. reflexivity.
Qed.

Lemma handleEdit_cases st m :
  FieldsModal.handleEdit st m
  = match lone_value (selected_rows st) with
    | Some v =>
        {| FieldsModal.editing := true;
           FieldsModal.editedText := FieldsModal.editedText m;
           FieldsModal.editedFields := FieldsModal.editedFields m;
           FieldsModal.editedSingleValue := Some (edit_text v) |}
    | None =>
        {| FieldsModal.editing := true;
           FieldsModal.editedText := FieldsModal.editedText m;
           FieldsModal.editedFields :=
             map (fun kv => (fst kv, edit_text (snd kv)))
               (flatten_rows (selected_rows st));
           FieldsModal.editedSingleValue := FieldsModal.editedSingleValue m |}
    end.
Proof.
  unfold FieldsModal.handleEdit. rewrite entries_text_add_field.
  destruct (selected_rows st) as [|row [|r2 others]]; cbn [lone_value];
    try reflexivity.
  now destruct (truthy_key row).
Qed.

(** X13 (handleEdit of the variant with one input per field): edit mode
    starts with the single input on the lone row without a key, holding
    its value as text ([null] and nothing as the empty text), the fields
    being left as they are; and for any other rows with one field for
    each key of the flattened object that is shown, in the same order,
    holding the value under that key as text, the single value being left
    as it is. *)
Theorem handleEdit_fields (st : stores) (m : FieldsModal.modal) :
  let rows := selected_rows st in
  let m' := FieldsModal.handleEdit st m in
  FieldsModal.editing m' = true
  /\ FieldsModal.editedText m' = FieldsModal.editedText m
  /\ match lone_value rows with
     | Some v =>
         FieldsModal.editedSingleValue m' = Some (edit_text v)
         /\ FieldsModal.editedFields m' = FieldsModal.editedFields m
     | None =>
         FieldsModal.editedSingleValue m' = FieldsModal.editedSingleValue m
         /\ FieldsModal.editedFields m'
            = map (fun kv => (fst kv, edit_text (snd kv))) (flatten_rows rows)
         /\ map fst (FieldsModal.editedFields m') = map fst (flatten_rows rows)
     end.
Proof.
  intros rows m'. subst m'. rewrite handleEdit_cases. fold rows.
  destruct (lone_value rows); cbn; repeat split.
  rewrite map_map. reflexivity.
Qed.

(** ** A value through an input *)

Lemma JSON_parse_number n : exists y, JSON_parse (num_to_string n) = Ok (VNum y).
Proof.
  destruct (lex_num_to_string n EmptyString eq_refl) as [y Hy].
  rewrite append_nil_r in Hy. exists y. unfold JSON_parse.
  now rewrite (parse_value_number _ _ _ _ Hy).
Qed.

(** X14 (handleEdit, handleSave): what a value of a row is after it was
    put into an input as text and read back on save, the text untouched:
    a boolean is itself and a number is a number; [null] and nothing are
    the empty string; a string that is the text of a JSON value is that
    value, and is itself otherwise. *)
Theorem value_through_input (v : value) :
  (forall b, v = VBool b -> through_input v = VBool b)
  /\ (forall n, v = VNum n -> exists y, through_input v = VNum y)
  /\ (is_nullish v = true -> through_input v = VStr EmptyString)
  /\ (forall s w, v = VStr s -> JSON_parse s = Ok w -> through_input v = w)
  /\ (forall s e, v = VStr s -> JSON_parse s = Throw e -> through_input v = VStr s).
Proof.
  unfold through_input, edit_text. repeat split.
  - intros [|] ->; reflexivity.
  - intros n ->. cbn [is_nullish to_string].
    destruct (JSON_parse_number n) as [y Hy]. exists y.
    now apply parse_or_string_ok.
  - intros H. rewrite H. reflexivity.
  - intros s w -> H. now apply parse_or_string_ok.
  - intros s e -> H. now apply parse_or_string_throw with e.
Qed.

Lemma value_through_input_witness :
  through_input (VStr "5") = VNum (Dec 5 0).
Proof.
  apply (proj1 (proj2 (proj2 (proj2 (value_through_input (VStr "5")))))
           "5" (VNum (Dec 5 0))).
  - reflexivity.
  - reflexivity.
Defined.

(** ** From the inputs to the new value *)

Lemma fields_object_entries F k :
  NoDup (map fst F) ->
  get_prop (FieldsModal.fields_object (FieldsModal.entries_text F)) k
  = Ok match lookup k F with
       | Some x => parse_or_string (to_string x)
       | None => VUndefined
       end.
Proof.
  intro Hnd.
  assert (Hk : map fst (FieldsModal.entries_text F) = map fst F).
  { unfold FieldsModal.entries_text. now rewrite map_map. }
  destruct (lookup k F) as [x|] eqn:E.
  - apply fields_object_get; [now rewrite Hk|].
    apply lookup_In in E. unfold FieldsModal.entries_text.
    now apply (in_map (fun kv => (fst kv, to_string (snd kv))) _ _ E).
  - unfold FieldsModal.fields_object. cbn [get_prop]. f_equal.
    unfold lookup_or_undefined. rewrite lookup_fold_fields; [reflexivity|].
    rewrite Hk. now apply lookup_None_not_In.
Qed.

Lemma NoDup_map_values (h : value -> value) (f : list (string * value)) :
  NoDup (map fst f) -> NoDup (map fst (map (fun kv => (fst kv, h (snd kv))) f)).
Proof. now rewrite map_map. Qed.

Lemma edited_fields_after_edit st m :
  lone_value (selected_rows st) = None ->
  FieldsModal.editedSingleValue m = None ->
  let F := map (fun kv : string * value => (fst kv, VStr (edit_text (snd kv))))
             (flatten_rows (selected_rows st)) in
  NoDup (map fst F)
  /\ FieldsModal.editedFields (FieldsModal.handleEdit st m)
     = FieldsModal.entries_text F
  /\ FieldsModal.editedSingleValue (FieldsModal.handleEdit st m) = None.
Proof.
  intros Hlone Hsingle F. split; [|split].
  - unfold F. apply (NoDup_map_values (fun v => VStr (edit_text v))).
    apply NoDup_fold_add_row. constructor.
  - rewrite handleEdit_cases, Hlone. cbn [FieldsModal.editedFields].
    unfold FieldsModal.entries_text, F. now rewrite map_map.
  - now rewrite handleEdit_cases, Hlone.
Qed.

Lemma new_value_after_edit st m k :
  lone_value (selected_rows st) = None ->
  FieldsModal.editedSingleValue m = None ->
  get_prop (FieldsModal.new_value (FieldsModal.handleEdit st m)) k
  = Ok match lookup k (flatten_rows (selected_rows st)) with
       | Some v => through_input v
       | None => VUndefined
       end.
Proof.
  intros Hlone Hsingle.
  destruct (edited_fields_after_edit st m Hlone Hsingle) as (Hnd & Hfields & Hs1).
  unfold FieldsModal.new_value. rewrite Hs1, Hfields.
  rewrite (fields_object_entries _ k Hnd).
  rewrite (lookup_map_values (fun v => VStr (edit_text v))).
  now destruct (lookup k (flatten_rows (selected_rows st))).
Qed.

(** X15 (handleEdit, the inputs, handleSave): from a modal with no single
    value, on rows that are not the lone row without a key, the object
    [handleSave] builds after [handleEdit] holds under each key of the
    flattened object its value gone through an input, and nothing under
    any other key; after the text of one field was changed it holds what
    that text parses to, or the text, under that key, and the same as
    before under every other key. *)
Theorem edit_then_save_fields (st : stores) (m : FieldsModal.modal) (k : string) :
  lone_value (selected_rows st) = None ->
  FieldsModal.editedSingleValue m = None ->
  get_prop (FieldsModal.new_value (FieldsModal.handleEdit st m)) k
  = Ok match lookup k (flatten_rows (selected_rows st)) with
       | Some v => through_input v
       | None => VUndefined
       end
  /\ (forall k0 text,
         get_prop
           (FieldsModal.new_value
              (FieldsModal.change_field k0 text (FieldsModal.handleEdit st m))) k
         = if (k0 =? k)%string then Ok (parse_or_string text)
           else get_prop (FieldsModal.new_value (FieldsModal.handleEdit st m)) k).
Proof.
  intros Hlone Hsingle.
  pose proof (new_value_after_edit st m k Hlone Hsingle) as Hnew.
  split; [exact Hnew|].
  intros k0 text. rewrite Hnew.
  destruct (edited_fields_after_edit st m Hlone Hsingle) as (Hnd & Hfields & Hs1).
  set (F := map (fun kv : string * value => (fst kv, VStr (edit_text (snd kv))))
              (flatten_rows (selected_rows st))) in *.
  unfold FieldsModal.new_value, FieldsModal.change_field.
  cbn [FieldsModal.editedSingleValue FieldsModal.editedFields].
  rewrite Hs1, Hfields.
  assert (Hback : FieldsModal.entries_value (FieldsModal.entries_text F) = F).
  { unfold FieldsModal.entries_value, FieldsModal.entries_text, F.
    rewrite !map_map. reflexivity. }
  rewrite Hback.
  rewrite (fields_object_entries _ k (NoDup_obj_set k0 (VStr text) F Hnd)).
  rewrite lookup_obj_set. destruct (k0 =? k)%string; [reflexivity|].
  unfold F. rewrite (lookup_map_values (fun v => VStr (edit_text v))).
  now destruct (lookup k (flatten_rows (selected_rows st))).
Qed.

Lemma edit_then_save_fields_witness :
  get_prop
    (FieldsModal.new_value
       (FieldsModal.handleEdit
          (example_selection [example_row (Some "a") VNull "null";
                              example_row (Some "b") (VStr "7") "string";
                              example_row (Some "c") VNull "object"])
          closed_fields_modal)) "b"
  = Ok (VNum (Dec 7 0)).
Proof.
  apply (edit_then_save_fields
           (example_selection [example_row (Some "a") VNull "null";
                               example_row (Some "b") (VStr "7") "string";
                               example_row (Some "c") VNull "object"])
           closed_fields_modal "b").
  - reflexivity.
  - reflexivity.
Defined.

(** ** What is carried over, and what is not *)

Lemma carry_over_get k0 e n :
  is_container e = true -> is_container n = true ->
  array_index k0 = None -> k0 <> "length" ->
  exists d n0 nv,
    get_prop e k0 = Ok d /\ get_prop n k0 = Ok n0
    /\ carry_over k0 e n = Ok nv
    /\ is_container nv = true /\ is_array nv = is_array n
    /\ forall k, ~ (is_array n = true /\ k = "length") ->
                 get_prop nv k
                 = if (k0 =? k)%string && truthy d && is_undefined n0
                   then Ok d else get_prop n k.
Proof.
  intros He Hn Hi Hl.
  destruct (get_prop_ok e k0 (container_not_nullish _ He)) as [d Hd].
  destruct (get_prop_ok n k0 (container_not_nullish _ Hn)) as [n0 Hn0].
  unfold carry_over. rewrite Hd, Hn0. cbn [bind].
  destruct (truthy d) eqn:Ht; [destruct (is_undefined n0) eqn:Hu|].
  - destruct (get_set_prop n k0 d Hn) as (nv & Hs & Hc & Ha & Hg); [tauto|].
    exists d, n0, nv. repeat split; try assumption.
    intros k Hk. rewrite Ht, Hu.
    destruct (String.eqb_spec k0 k) as [<-|Hne]; cbn [andb].
    + exact Hg.
    + apply (get_prop_set_prop_frame _ _ _ _ _ Hs Hne). tauto.
  - exists d, n0, n. repeat split; try assumption.
    intros k _. now rewrite Hu, andb_false_r.
  - exists d, n0, n. repeat split; try assumption.
    intros k _. now rewrite Ht, andb_false_r.
Qed.

Lemma preserve_other_key existingValue newValue k :
  is_container existingValue = true -> is_container newValue = true ->
  carried_key k = false ->
  ~ (is_array newValue = true /\ k = "length") ->
  exists merged,
    preserve existingValue newValue = Ok merged
    /\ get_prop merged k = get_prop newValue k.
Proof.
  intros He Hn Hk Hl. rewrite (preserve_containers _ _ He Hn).
  destruct (carry_over_get "details" existingValue newValue He Hn)
    as (d1 & n1 & nv1 & _ & _ & Hc1 & Hk1 & Ha1 & Hg1);
    [reflexivity | discriminate |].
  destruct (carry_over_get "nutrients" existingValue nv1 He Hk1)
    as (d2 & n2 & nv2 & _ & _ & Hc2 & _ & _ & Hg2);
    [reflexivity | discriminate |].
  rewrite Hc1. cbn [bind]. exists nv2. split; [exact Hc2|].
  unfold carried_key in Hk. apply orb_false_elim in Hk. destruct Hk as [Hk1' Hk2'].
  rewrite Hg2 by (now rewrite Ha1). rewrite Hg1 by exact Hl.
  rewrite (String.eqb_sym "nutrients" k), Hk2'.
  rewrite (String.eqb_sym "details" k), Hk1'. reflexivity.
Qed.

(** X16 (handleSave): what the value to write holds after [details] and
    [nutrients] were carried over, when it and the value at the path are
    objects or arrays: under one of the two keys the old value when that
    is truthy and the new value has none of its own, and the new value's
    in every other case; so a key of the old value other than these two
    is kept only if the new value has it. *)
Theorem preserve_merges (existingValue newValue : value) :
  is_container existingValue = true -> is_container newValue = true ->
  exists merged,
    preserve existingValue newValue = Ok merged
    /\ is_container merged = true /\ is_array merged = is_array newValue
    /\ forall k old new,
         get_prop existingValue k = Ok old -> get_prop newValue k = Ok new ->
         ~ (is_array newValue = true /\ k = "length") ->
         get_prop merged k
         = Ok (if carried_key k && truthy old && is_undefined new
               then old else new).
Proof.
  intros He Hn. rewrite (preserve_containers _ _ He Hn).
  destruct (carry_over_get "details" existingValue newValue He Hn)
    as (d1 & n1 & nv1 & Hd1 & Hn1 & Hc1 & Hk1 & Ha1 & Hg1);
    [reflexivity | discriminate |].
  destruct (carry_over_get "nutrients" existingValue nv1 He Hk1)
    as (d2 & n2 & nv2 & Hd2 & Hn2 & Hc2 & Hk2 & Ha2 & Hg2);
    [reflexivity | discriminate |].
  rewrite Hc1. cbn [bind]. exists nv2.
  split; [exact Hc2|]. split; [exact Hk2|]. split; [congruence|].
  intros k old new Ho Hnw Hl. unfold carried_key.
  rewrite Hg2 by (now rewrite Ha1).
  rewrite Hg1 in Hn2 by (intros [_ H]; discriminate H).
  cbn [String.eqb Ascii.eqb Bool.eqb andb] in Hn2.
  rewrite Hg1 by exact Hl.
  destruct (String.eqb_spec "nutrients" k) as [<-|Hk2'].
  - cbn [String.eqb Ascii.eqb Bool.eqb andb orb].
    assert (d2 = old) by congruence. assert (n2 = new) by congruence.
    subst. destruct (truthy old && is_undefined new); [reflexivity|].
    exact Hnw.
  - destruct (String.eqb_spec k "nutrients") as [->|_]; [contradiction|].
    rewrite orb_false_r. cbn [andb].
    destruct (String.eqb_spec "details" k) as [<-|Hk1'].
    + cbn [String.eqb Ascii.eqb Bool.eqb andb].
      assert (d1 = old) by congruence. assert (n1 = new) by congruence.
      subst. now destruct (truthy old && is_undefined new).
    + destruct (String.eqb_spec k "details") as [->|_]; [contradiction|].
      exact Hnw.
Qed.

Lemma preserve_merges_witness :
  exists merged,
    preserve (VObj [("details", VStr "d"); ("kids", VArr [] [])])
      (VObj [("a", VNum (Dec 1 0))]) = Ok merged
    /\ get_prop merged "details" = Ok (VStr "d")
    /\ get_prop merged "kids" = Ok VUndefined.
Proof.
  destruct (preserve_merges
              (VObj [("details", VStr "d"); ("kids", VArr [] [])])
              (VObj [("a", VNum (Dec 1 0))]) eq_refl eq_refl)
    as (merged & Hm & _ & _ & Hk).
  exists merged. split; [exact Hm|]. split.
  - apply (Hk "details" (VStr "d") VUndefined); try reflexivity.
    intros [H _]. discriminate H.
  - apply (Hk "kids" (VArr [] []) VUndefined); try reflexivity.
    intros [H _]. discriminate H.
Defined.

(** X17 (handleEdit, handleSave, variant with one input per field): on a
    node whose value in the document is an object or an array, entering
    edit mode and saving, the inputs untouched, leaves at the path of the
    node a value that holds nothing under a key that no row is written
    under and that is not carried over, whatever the document held there:
    what the node holds under the keys of its array and object rows is
    lost. *)
Theorem save_drops_other_keys
  (build_nodes : option string -> list NodeData) (st : stores)
  (nodeData : NodeData) (m : FieldsModal.modal)
  (parsed existingValue : value) (k : string) :
  selectedNode st = Some nodeData ->
  lone_value (node_text nodeData) = None ->
  FieldsModal.editedSingleValue m = None ->
  JSON_parse (text_of (getContents st)) = Ok parsed ->
  getAtPath parsed (node_path nodeData) = Ok existingValue ->
  is_container existingValue = true ->
  carried_key k = false ->
  forallb (fun r => negb (writes_key k r)) (node_text nodeData) = true ->
  exists merged updated,
    patched_document (getContents st) (node_path nodeData)
      (FieldsModal.new_value (FieldsModal.handleEdit st m)) = Ok updated
    /\ FieldsModal.handleSave build_nodes st (FieldsModal.handleEdit st m)
       = (publish build_nodes nodeData updated st, closed_fields_modal)
    /\ getAtPath updated (node_path nodeData) = Ok merged
    /\ get_prop merged k = Ok VUndefined.
Proof.
  intros Hsel Hlone Hsingle Hp Hex Hc Hk Hrows.
  assert (Hrs : selected_rows st = node_text nodeData)
    by (unfold selected_rows; now rewrite Hsel).
  set (newValue := FieldsModal.new_value (FieldsModal.handleEdit st m)).
  assert (Hnew : get_prop newValue k = Ok VUndefined).
  { unfold newValue.
    rewrite (new_value_after_edit st m k) by (rewrite ?Hrs; assumption).
    rewrite Hrs. unfold flatten_rows. now rewrite (lookup_fold_add_row_skip _ _ _ Hrows). }
  assert (Hnc : is_container newValue = true /\ is_array newValue = false).
  { unfold newValue, FieldsModal.new_value.
    rewrite handleEdit_cases, Hrs, Hlone. cbn [FieldsModal.editedSingleValue].
    now rewrite Hsingle. }
  destruct Hnc as [Hnc Hna].
  destruct (preserve_other_key existingValue newValue k Hc Hnc Hk)
    as (merged & Hm & Hget); [rewrite Hna; now intros [H _]|].
  destruct (setAtPath_over_container parsed (node_path nodeData) existingValue
              merged Hex Hc) as (updated & Hset & Hread).
  assert (Hpatch : patched_document (getContents st) (node_path nodeData) newValue
                   = Ok updated).
  { now rewrite (patched_document_ok _ _ _ _ _ _ Hp Hex Hm). }
  exists merged, updated. split; [exact Hpatch|]. split.
  - now apply fields_save_ok.
  - split; [exact Hread|]. now rewrite Hget.
Qed.

Lemma save_drops_other_keys_witness :
  exists merged updated,
    patched_document (Some (jq "{'a': {'x': 1, 'kids': [1, 2]}}"))
      (Some [SStr "a"])
      (FieldsModal.new_value
         (FieldsModal.handleEdit
            {| file_contents := Some (jq "{'a': {'x': 1, 'kids': [1, 2]}}");
               file_hasChanges := false;
               json := Some (jq "{'a': {'x': 1, 'kids': [1, 2]}}");
               nodes := [];
               selectedNode :=
                 Some {| node_id := "n";
                         node_text :=
                           [example_row (Some "x") (VNum (Dec 1 0)) "number";
                            example_row (Some "kids") VNull "array"];
                         node_path := Some [SStr "a"] |};
               console := [] |}
            closed_fields_modal)) = Ok updated
    /\ getAtPath updated (Some [SStr "a"]) = Ok merged
    /\ get_prop merged "kids" = Ok VUndefined.
Proof.
  destruct (save_drops_other_keys example_graph
              {| file_contents := Some (jq "{'a': {'x': 1, 'kids': [1, 2]}}");
                 file_hasChanges := false;
                 json := Some (jq "{'a': {'x': 1, 'kids': [1, 2]}}");
                 nodes := [];
                 selectedNode :=
                   Some {| node_id := "n";
                           node_text :=
                             [example_row (Some "x") (VNum (Dec 1 0)) "number";
                              example_row (Some "kids") VNull "array"];
                           node_path := Some [SStr "a"] |};
                 console := [] |}
              {| node_id := "n";
                 node_text :=
                   [example_row (Some "x") (VNum (Dec 1 0)) "number";
                    example_row (Some "kids") VNull "array"];
                 node_path := Some [SStr "a"] |}
              closed_fields_modal
              (VObj [("a", VObj [("x", VNum (Dec 1 0));
                                 ("kids", VArr [VNum (Dec 1 0); VNum (Dec 2 0)] [])])])
              (VObj [("x", VNum (Dec 1 0));
                     ("kids", VArr [VNum (Dec 1 0); VNum (Dec 2 0)] [])])
              "kids" eq_refl eq_refl eq_refl eq_refl eq_refl eq_refl eq_refl eq_refl)
    as (merged & updated & Hp & _ & Hg & Hk).
  now exists merged, updated.
Defined.

(** ** The states of the modal *)

Lemma selected_rows_console_error msg e st :
  selected_rows (console_error msg e st) = selected_rows st.
Proof. reflexivity. Qed.

Lemma lookup_existsb k (fs : list (string * string)) :
  existsb (fun kv => (fst kv =? k)%string) fs = true ->
  lookup k (FieldsModal.entries_value fs) <> None.
Proof.
  induction fs as [|[k' t] fs IH]; cbn [existsb FieldsModal.entries_value map lookup fst];
    [discriminate|].
  destruct (k' =? k)%string; [discriminate|]. exact IH.
Qed.

Lemma change_field_keys k text m :
  existsb (fun kv => (fst kv =? k)%string) (FieldsModal.editedFields m) = true ->
  map fst (FieldsModal.editedFields (FieldsModal.change_field k text m))
  = map fst (FieldsModal.editedFields m).
Proof.
  intro H. apply lookup_existsb in H.
  unfold FieldsModal.change_field. cbn [FieldsModal.editedFields].
  unfold FieldsModal.entries_text. rewrite map_map. cbn [fst].
  change (map (fun x : string * value => fst x)) with (@map (string * value) _ fst).
  unfold obj_set.
  destruct (lookup k (FieldsModal.entries_value (FieldsModal.editedFields m)));
    [|contradiction].
  rewrite map_fst_replace_field. unfold FieldsModal.entries_value.
  now rewrite map_map.
Qed.

Lemma text_modal_invariant build_nodes s :
  TextModal.reachable build_nodes s -> text_modal_ok s.
Proof.
  unfold text_modal_ok.
  induction 1 as [st|[st m] ev _ IH He|[st m] st' _ IH _|[st m] st' _ _];
    cbn [fst snd] in *; try reflexivity; try exact IH.
  destruct ev; cbn [TextModal.enabled TextModal.run fst snd] in *;
    try reflexivity; try discriminate.
  - unfold TextModal.handleSave.
    destruct (selectedNode st); [|exact IH].
    destruct (patched_document _ _ _); cbn [snd]; [reflexivity | exact IH].
  - unfold TextModal.change_text. cbn [TextModal.editing]. congruence.
Qed.

Lemma fields_modal_invariant build_nodes s :
  FieldsModal.reachable build_nodes s -> fields_modal_ok s.
Proof.
  unfold fields_modal_ok.
  induction 1 as [st|[st m] ev _ IH He|[st m] st' _ IH Hsel|[st m] st' _ _];
    cbn [fst snd] in *; try reflexivity.
  - destruct ev; cbn [FieldsModal.enabled FieldsModal.run fst snd] in *;
      try reflexivity.
    + destruct (FieldsModal.editing m); [discriminate|]. subst m.
      rewrite handleEdit_cases.
      destruct (lone_value (selected_rows st)) eqn:El;
        cbn [FieldsModal.editing FieldsModal.editedSingleValue
             FieldsModal.editedFields closed_fields_modal].
      * discriminate.
      * split; [reflexivity|]. now rewrite map_map.
    + rewrite He in IH. unfold FieldsModal.handleSave.
      destruct (selectedNode st) eqn:Es;
        [|cbn [fst snd]; now rewrite He].
      destruct (patched_document _ _ _); cbn [fst snd]; [reflexivity|].
      rewrite He, selected_rows_console_error. exact IH.
    + apply andb_prop in He. destruct He as [He Hs]. rewrite He in *.
      destruct (FieldsModal.editedSingleValue m); [|discriminate].
      cbn [FieldsModal.change_single FieldsModal.editing
           FieldsModal.editedSingleValue]. rewrite He. exact IH.
    + apply andb_prop in He. destruct He as [He Hk].
      apply andb_prop in He. destruct He as [He Hs]. rewrite He in *.
      rewrite (change_field_keys _ _ _ Hk).
      cbn [FieldsModal.change_field FieldsModal.editing
           FieldsModal.editedSingleValue]. rewrite He.
      destruct (FieldsModal.editedSingleValue m); [discriminate|]. exact IH.
  - unfold selected_rows in *. now rewrite Hsel.
Qed.

(** X18 (the effect, handleEdit, handleCancel, handleSave, the inputs):
    in every state the stores and the modal reach from the mounting of the
    component on, a modal that is not in edit mode is as it was at the
    start, with no text, no field and no single value left; and in the
    variant with one input per field a modal in edit mode holds a single
    value only if the selected node has the lone row without a key, and
    holds else one field for each key of the flattened object of the
    selected node, in its order. *)
Theorem modal_invariants (build_nodes : option string -> list NodeData) :
  (forall s, TextModal.reachable build_nodes s -> text_modal_ok s)
  /\ (forall s, FieldsModal.reachable build_nodes s -> fields_modal_ok s).
Proof.
  split; intro s.
  - apply text_modal_invariant.
  - apply fields_modal_invariant.
Qed.

Lemma modal_invariants_witness :
  fields_modal_ok
    (FieldsModal.run example_graph
       (FieldsModal.Type_field "a" "2")
       (FieldsModal.run example_graph FieldsModal.Edit
          (example_selection [example_row (Some "a") (VNum (Dec 1 0)) "number";
                              example_row (Some "b") VNull "array"],
           closed_fields_modal))).
Proof.
  apply (proj2 (modal_invariants example_graph)).
  apply FieldsModal.reach_run; [|reflexivity].
  apply FieldsModal.reach_run; [|reflexivity].
  apply FieldsModal.reach_mount.
Defined.

(** X19 (handleEdit, handleSave, variant with the text area): on the lone
    row without a key the text area starts with the value as a template
    literal writes it, and what [handleSave] reads back from that text,
    left as it is, is [null] for [null] and the boolean for a boolean, a
    number for a number, the string [undefined] for nothing, and for a
    string the JSON value it is the text of, or itself. *)
Theorem value_through_text_area (st : stores) (m : TextModal.modal)
  (row : NodeRow) :
  selected_rows st = [row] -> truthy_key row = None ->
  let text := TextModal.editedText (TextModal.handleEdit st m) in
  text = to_string (row_value row)
  /\ (row_value row = VNull -> parse_or_string text = VNull)
  /\ (forall b, row_value row = VBool b -> parse_or_string text = VBool b)
  /\ (forall n, row_value row = VNum n -> exists y, parse_or_string text = VNum y)
  /\ (row_value row = VUndefined -> parse_or_string text = VStr "undefined")
  /\ (forall s w, row_value row = VStr s -> JSON_parse s = Ok w ->
                  parse_or_string text = w)
  /\ (forall s e, row_value row = VStr s -> JSON_parse s = Throw e ->
                  parse_or_string text = VStr s).
Proof.
  intros Hrows Hkey text.
  assert (Ht : text = to_string (row_value row)).
  { subst text. unfold TextModal.handleEdit. cbn [TextModal.editedText].
    rewrite Hrows. cbn [normalizeNodeData]. now rewrite Hkey. }
  rewrite Ht. split; [reflexivity|]. repeat split.
  - intros ->. reflexivity.
  - intros [|] ->; reflexivity.
  - intros n ->. cbn [to_string].
    destruct (JSON_parse_number n) as [y Hy]. exists y.
    now apply parse_or_string_ok.
  - intros ->. reflexivity.
  - intros s w -> H. now apply parse_or_string_ok.
  - intros s e -> H. now apply parse_or_string_throw with e.
Qed.

Lemma value_through_text_area_witness :
  parse_or_string
    (TextModal.editedText
       (TextModal.handleEdit (example_selection [example_row None VNull "null"])
          closed_text_modal))
  = VNull.
Proof.
  apply (value_through_text_area
           (example_selection [example_row None VNull "null"])
           closed_text_modal (example_row None VNull "null")).
  - reflexivity.
  - reflexivity.
  - reflexivity.
Defined.

Lemma flatten_rows_unwritten rows : forall acc,
  forallb (fun r => negb (is_written r)) rows = true ->
  fold_left add_row rows acc = acc.
Proof.
  induction rows as [|r rows IH]; intros acc H; [reflexivity|].
  cbn [forallb] in H. apply andb_prop in H. destruct H as [Hr H].
  cbn [fold_left]. rewrite (IH _ H). unfold add_row, is_written in *.
  destruct (is_scalar_row r); [|reflexivity].
  now destruct (truthy_key r).
Qed.

(** X20 (normalizeNodeData, handleEdit, handleSave): when no row is
    written into the flattened object (each is an array or object row, or
    has no key) and the rows are not the lone row without a key, the text
    shown is that of the empty object, edit mode starts with no field,
    and the object [handleSave] builds from the fields is empty. *)
Theorem nothing_to_edit (st : stores) (m : FieldsModal.modal) :
  lone_value (selected_rows st) = None ->
  forallb (fun r => negb (is_written r)) (selected_rows st) = true ->
  normalizeNodeData (selected_rows st) = Some "{}"
  /\ FieldsModal.editedFields (FieldsModal.handleEdit st m) = []
  /\ (FieldsModal.editedSingleValue m = None ->
      FieldsModal.new_value (FieldsModal.handleEdit st m) = VObj []).
Proof.
  intros Hlone Hrows.
  assert (Hflat : flatten_rows (selected_rows st) = [])
    by (now apply flatten_rows_unwritten).
  split; [|split].
  - now rewrite normalizeNodeData_cases, Hlone, Hflat.
  - now rewrite handleEdit_cases, Hlone, Hflat.
  - intro Hs. unfold FieldsModal.new_value.
    rewrite handleEdit_cases, Hlone, Hflat.
    cbn [FieldsModal.editedSingleValue FieldsModal.editedFields map].
    now rewrite Hs.
Qed.

Lemma nothing_to_edit_witness :
  normalizeNodeData
    (selected_rows
       (example_selection [example_row (Some "kids") VNull "array";
                           example_row (Some "more") VNull "object"]))
  = Some "{}".
Proof.
  apply (nothing_to_edit
           (example_selection [example_row (Some "kids") VNull "array";
                               example_row (Some "more") VNull "object"])
           closed_fields_modal).
  - reflexivity.
  - reflexivity.
Defined.

(** X21 (handleSave, variant with one input per field): in every state
    reached in edit mode with the fields shown, the object [handleSave]
    builds holds a value under a key exactly when the flattened object of
    the selected node has that key: typing into the inputs adds and
    removes no key. *)
Theorem saved_keys_are_shown (build_nodes : option string -> list NodeData)
  (st : stores) (m : FieldsModal.modal) (k : string) :
  FieldsModal.reachable build_nodes (st, m) ->
  FieldsModal.editing m = true ->
  FieldsModal.editedSingleValue m = None ->
  exists x,
    get_prop (FieldsModal.new_value m) k = Ok x
    /\ (is_undefined x = true
        <-> lookup k (flatten_rows (selected_rows st)) = None).
Proof.
  intros Hr He Hs. apply fields_modal_invariant in Hr.
  unfold fields_modal_ok in Hr. cbn [fst snd] in Hr.
  rewrite He, Hs in Hr. destruct Hr as [_ Hkeys].
  assert (Hnd : NoDup (map fst (FieldsModal.editedFields m))).
  { rewrite Hkeys. apply NoDup_fold_add_row. constructor. }
  unfold FieldsModal.new_value. rewrite Hs.
  destruct (lookup k (flatten_rows (selected_rows st))) eqn:El.
  - assert (Hin : In k (map fst (FieldsModal.editedFields m))).
    { rewrite Hkeys. apply lookup_In in El.
      now apply (in_map fst _ _ El). }
    apply in_map_iff in Hin. destruct Hin as ([k' t] & Hk & Hin).
    cbn [fst] in Hk. subst k'.
    exists (parse_or_string t). split.
    + now apply fields_object_get.
    + rewrite parse_or_string_defined. split; discriminate.
  - exists VUndefined. split; [|now split].
    unfold FieldsModal.fields_object. cbn [get_prop]. f_equal.
    unfold lookup_or_undefined. rewrite lookup_fold_fields; [reflexivity|].
    rewrite Hkeys. now apply lookup_None_not_In.
Qed.

Lemma saved_keys_are_shown_witness :
  exists x,
    get_prop
      (FieldsModal.new_value
         (FieldsModal.change_field "a" "2"
            (FieldsModal.handleEdit
               (example_selection
                  [example_row (Some "a") (VNum (Dec 1 0)) "number";
                   example_row (Some "b") VNull "array"])
               closed_fields_modal))) "b" = Ok x
    /\ (is_undefined x = true
        <-> lookup "b"
              (flatten_rows
                 (selected_rows
                    (example_selection
                       [example_row (Some "a") (VNum (Dec 1 0)) "number";
                        example_row (Some "b") VNull "array"]))) = None).
Proof.
  apply (saved_keys_are_shown example_graph
           (example_selection
              [example_row (Some "a") (VNum (Dec 1 0)) "number";
               example_row (Some "b") VNull "array"])
           (FieldsModal.change_field "a" "2"
              (FieldsModal.handleEdit
                 (example_selection
                    [example_row (Some "a") (VNum (Dec 1 0)) "number";
                     example_row (Some "b") VNull "array"])
                 closed_fields_modal)) "b").
  - apply (FieldsModal.reach_run example_graph
             (example_selection
                [example_row (Some "a") (VNum (Dec 1 0)) "number";
                 example_row (Some "b") VNull "array"],
              FieldsModal.handleEdit
                (example_selection
                   [example_row (Some "a") (VNum (Dec 1 0)) "number";
                    example_row (Some "b") VNull "array"])
                closed_fields_modal)
             (FieldsModal.Type_field "a" "2")); [|reflexivity].
    apply (FieldsModal.reach_run example_graph
             (example_selection
                [example_row (Some "a") (VNum (Dec 1 0)) "number";
                 example_row (Some "b") VNull "array"],
              closed_fields_modal)
             FieldsModal.Edit); [|reflexivity].
    apply FieldsModal.reach_mount.
  - reflexivity.
  - reflexivity.
Defined.
